(** * simple_print: the exclusive job runner of [server.py]

    A shallow embedding of [start_process_and_stream], its background worker
    [stream_output] and [delayed_remove], together with the parts of the
    Python runtime they rely on (the process lock, [subprocess.Popen] pipes,
    [socketio.emit], [os.path.exists], [bytes.decode]). *)

From Stdlib.Strings Require Import String Ascii Byte.
From Stdlib Require Import DecimalString.
From Stdlib Require Import Bool Arith NArith ZArith Lia List.
Import ListNotations.

Open Scope list_scope.

(** ** Python values *)

(** A Python [str] is a sequence of Unicode code points. *)
Definition pystr := list N.

(** A Python [bytes] object. *)
Definition bytes := list byte.

(** An ASCII literal of the source as a [str]. *)
Definition lit (s : string) : pystr := map N_of_ascii (list_ascii_of_string s).

(** The character written [\n] in the source. *)
Definition LF : N := 10.

(** [str(n)] for a Python [int]. *)
Definition str_of_int (z : Z) : pystr := lit (NilZero.string_of_int (Z.to_int z)).

(** Truthiness of an optional [str] argument: [None] and [''] are falsy. *)
Definition truthy (s : option pystr) : bool :=
  match s with
  | Some (_ :: _) => true
  | _ => false
  end.

Definition pystr_eq_dec : forall a b : pystr, {a = b} + {a <> b} :=
  list_eq_dec N.eq_dec.

(** ** [bytes.decode("utf-8", errors="replace")]

    The decoder of CPython: a well-formed sequence yields its code point; an
    ill-formed one is replaced, maximal subpart by maximal subpart, by
    U+FFFD, and so is a sequence cut short by the end of the input. *)
Module Utf8.

Definition REPLACEMENT : N := 0xFFFD.

Definition is_continuation (b : byte) : bool :=
  (0x80 <=? Byte.to_N b)%N && (Byte.to_N b <=? 0xBF)%N.

Definition payload (b : byte) : N := N.land (Byte.to_N b) 0x3F.

(** The second byte of a three-byte sequence: E0 excludes overlong forms,
    ED excludes surrogates. *)
Definition second_of_3 (lead : N) (b : byte) : bool :=
  is_continuation b &&
  (if (Byte.to_N b <? 0xA0)%N then negb (lead =? 0xE0)%N else negb (lead =? 0xED)%N).

(** The second byte of a four-byte sequence: F0 excludes overlong forms,
    F4 excludes code points above U+10FFFF. *)
Definition second_of_4 (lead : N) (b : byte) : bool :=
  is_continuation b &&
  (if (Byte.to_N b <? 0x90)%N then negb (lead =? 0xF0)%N else negb (lead =? 0xF4)%N).

Definition cp2 (lead : N) (b1 : byte) : N :=
  N.lor (N.shiftl (N.land lead 0x1F) 6) (payload b1).

Definition cp3 (lead : N) (b1 b2 : byte) : N :=
  N.lor (N.shiftl (N.land lead 0x0F) 12)
        (N.lor (N.shiftl (payload b1) 6) (payload b2)).

Definition cp4 (lead : N) (b1 b2 b3 : byte) : N :=
  N.lor (N.shiftl (N.land lead 0x07) 18)
        (N.lor (N.shiftl (payload b1) 12)
               (N.lor (N.shiftl (payload b2) 6) (payload b3))).

Fixpoint decode (bs : bytes) : pystr :=
  match bs with
  | [] => []
  | b0 :: r0 =>
    let lead := Byte.to_N b0 in
    if (lead <? 0x80)%N then lead :: decode r0
    else if (lead <? 0xC2)%N then REPLACEMENT :: decode r0
    else if (lead <? 0xE0)%N then
      match r0 with
      | [] => [REPLACEMENT]
      | b1 :: r1 =>
        if is_continuation b1 then cp2 lead b1 :: decode r1
        else REPLACEMENT :: decode r0
      end
    else if (lead <? 0xF0)%N then
      match r0 with
      | [] => [REPLACEMENT]
      | b1 :: r1 =>
        if second_of_3 lead b1 then
          match r1 with
          | [] => [REPLACEMENT]
          | b2 :: r2 =>
            if is_continuation b2 then cp3 lead b1 b2 :: decode r2
            else REPLACEMENT :: decode r1
          end
        else REPLACEMENT :: decode r0
      end
    else if (lead <? 0xF5)%N then
      match r0 with
      | [] => [REPLACEMENT]
      | b1 :: r1 =>
        if second_of_4 lead b1 then
          match r1 with
          | [] => [REPLACEMENT]
          | b2 :: r2 =>
            if is_continuation b2 then
              match r2 with
              | [] => [REPLACEMENT]
              | b3 :: r3 =>
                if is_continuation b3 then cp4 lead b1 b2 b3 :: decode r3
                else REPLACEMENT :: decode r2
              end
            else REPLACEMENT :: decode r1
          end
        else REPLACEMENT :: decode r0
      end
    else REPLACEMENT :: decode r0
  end.

(** The input stops inside a sequence that was well formed so far: the
    decoder's "unexpected end of data". *)
Fixpoint truncated (bs : bytes) : bool :=
  match bs with
  | [] => false
  | b0 :: r0 =>
    let lead := Byte.to_N b0 in
    if (lead <? 0x80)%N then truncated r0
    else if (lead <? 0xC2)%N then truncated r0
    else if (lead <? 0xE0)%N then
      match r0 with
      | [] => true
      | b1 :: r1 => if is_continuation b1 then truncated r1 else truncated r0
      end
    else if (lead <? 0xF0)%N then
      match r0 with
      | [] => true
      | b1 :: r1 =>
        if second_of_3 lead b1 then
          match r1 with
          | [] => true
          | b2 :: r2 => if is_continuation b2 then truncated r2 else truncated r1
          end
        else truncated r0
      end
    else if (lead <? 0xF5)%N then
      match r0 with
      | [] => true
      | b1 :: r1 =>
        if second_of_4 lead b1 then
          match r1 with
          | [] => true
          | b2 :: r2 =>
            if is_continuation b2 then
              match r2 with
              | [] => true
              | b3 :: r3 => if is_continuation b3 then truncated r3 else truncated r2
              end
            else truncated r1
          end
        else truncated r0
      end
    else truncated r0
  end.

(** The input does not begin with a continuation byte. *)
Definition starts_fresh (bs : bytes) : bool :=
  match bs with
  | [] => true
  | b :: _ => negb (is_continuation b)
  end.

(** Cutting between [x] and [y] splits no sequence. *)
Definition clean_cut (x y : bytes) : bool := negb (truncated x) || starts_fresh y.

(** Every cut of a list of chunks is clean. *)
Fixpoint clean_cuts (chunks : list bytes) : bool :=
  match chunks with
  | [] => true
  | c :: rest => clean_cut c (concat rest) && clean_cuts rest
  end.

End Utf8.

(** ** The host: environment variables and child processes *)

(** An exception, as the text [str(e)] that the handlers print. *)
Definition exn := pystr.

(** What one [read] on the child's pipe meets: some bytes are ready (the
    call returns at least one byte and at most the size asked for), or the
    call fails. *)
Inductive ReadStep : Type :=
| Ready (more : nat)
| ReadFails (e : exn).

(** The behaviour of a spawned child, as the parent observes it. *)
Record Child : Type := {
  stdin_write_error : option exn;   (* [proc.stdin.write] raises *)
  stdin_close_error : option exn;   (* [proc.stdin.close] raises *)
  output : bytes;                   (* stdout and stderr, merged *)
  delivery : list ReadStep;         (* how the pipe hands the output over *)
  wait_error : option exn;          (* [proc.wait] raises *)
  exit_status : Z;
  creates : list pystr              (* files present once it has exited *)
}.

Record Host : Type := {
  getenv : string -> option pystr;  (* [os.getenv] *)
  spawn : list pystr -> exn + Child (* [subprocess.Popen(command, ...)] *)
}.

(** ** The state of the server *)

(** [socketio.emit(name, payload)]. *)
Inductive Event : Type :=
| console_clear
| console_output (data : pystr)
| open_url (url : pystr).

(** A [subprocess.Popen] object is named by its position in [popens]. *)
Definition Popen := nat.

Record PopenObj : Type := {
  child : Child;
  spawned_after : nat;              (* events emitted before it was spawned *)
  stdin_received : list bytes;      (* the data of each successful write *)
  stdin_closed : bool;
  unread : bytes;                   (* output still in the pipe *)
  reads : list ReadStep;
  returncode : option Z             (* what [poll()] answers *)
}.

(** The arguments of a started [stream_output] thread. *)
Record Thread : Type := {
  t_proc : option Popen;
  t_stdin : option bytes;
  t_end_file : option pystr
}.

(** One assignment to the global [current_process], with the state it was
    made in. *)
Record SlotWrite : Type := {
  locked : bool;                    (* [process_lock] was held *)
  prior : option Popen;             (* the value overwritten *)
  prior_active : option Popen;      (* the running process it held, if any *)
  assigned : option Popen
}.

Record World : Type := {
  process_lock : bool;
  current_process : option Popen;
  emitted : list Event;             (* oldest first *)
  popens : list PopenObj;
  files : list pystr;               (* the paths that exist *)
  timers : list (pystr * N);        (* [delayed_remove] threads: path, delay *)
  threads : list Thread;            (* started workers that have not run *)
  slot_log : list SlotWrite
}.

Definition boot : World :=
  {| process_lock := false; current_process := None; emitted := [];
     popens := []; files := []; timers := []; threads := []; slot_log := [] |}.

Definition set_lock (b : bool) (w : World) : World :=
  {| process_lock := b; current_process := current_process w;
     emitted := emitted w; popens := popens w; files := files w;
     timers := timers w; threads := threads w; slot_log := slot_log w |}.

Definition set_emitted (l : list Event) (w : World) : World :=
  {| process_lock := process_lock w; current_process := current_process w;
     emitted := l; popens := popens w; files := files w;
     timers := timers w; threads := threads w; slot_log := slot_log w |}.

Definition set_popens (l : list PopenObj) (w : World) : World :=
  {| process_lock := process_lock w; current_process := current_process w;
     emitted := emitted w; popens := l; files := files w;
     timers := timers w; threads := threads w; slot_log := slot_log w |}.

Definition set_files (l : list pystr) (w : World) : World :=
  {| process_lock := process_lock w; current_process := current_process w;
     emitted := emitted w; popens := popens w; files := l;
     timers := timers w; threads := threads w; slot_log := slot_log w |}.

Definition set_timers (l : list (pystr * N)) (w : World) : World :=
  {| process_lock := process_lock w; current_process := current_process w;
     emitted := emitted w; popens := popens w; files := files w;
     timers := l; threads := threads w; slot_log := slot_log w |}.

Definition set_threads (l : list Thread) (w : World) : World :=
  {| process_lock := process_lock w; current_process := current_process w;
     emitted := emitted w; popens := popens w; files := files w;
     timers := timers w; threads := l; slot_log := slot_log w |}.

Definition set_slot (v : option Popen) (entry : SlotWrite) (w : World) : World :=
  {| process_lock := process_lock w; current_process := v;
     emitted := emitted w; popens := popens w; files := files w;
     timers := timers w; threads := threads w;
     slot_log := slot_log w ++ [entry] |}.

Fixpoint replace_nth {A : Type} (n : nat) (x : A) (l : list A) : list A :=
  match l, n with
  | [], _ => []
  | _ :: t, O => x :: t
  | h :: t, S n' => h :: replace_nth n' x t
  end.

Definition set_child_state (p : Popen) (o : PopenObj) (w : World) : World :=
  set_popens (replace_nth p o (popens w)) w.

Definition fresh (c : Child) (emitted_so_far : nat) : PopenObj :=
  {| child := c; spawned_after := emitted_so_far; stdin_received := [];
     stdin_closed := false; unread := output c; reads := delivery c; returncode := None |}.

Definition wrote (data : bytes) (o : PopenObj) : PopenObj :=
  {| child := child o; spawned_after := spawned_after o;
     stdin_received := stdin_received o ++ [data];
     stdin_closed := stdin_closed o; unread := unread o; reads := reads o;
     returncode := returncode o |}.

Definition closed (o : PopenObj) : PopenObj :=
  {| child := child o; spawned_after := spawned_after o;
     stdin_received := stdin_received o;
     stdin_closed := true; unread := unread o; reads := reads o;
     returncode := returncode o |}.

Definition consumed (n : nat) (o : PopenObj) : PopenObj :=
  {| child := child o; spawned_after := spawned_after o;
     stdin_received := stdin_received o;
     stdin_closed := stdin_closed o; unread := skipn n (unread o);
     reads := tl (reads o); returncode := returncode o |}.

Definition exited (o : PopenObj) : PopenObj :=
  {| child := child o; spawned_after := spawned_after o;
     stdin_received := stdin_received o;
     stdin_closed := stdin_closed o; unread := unread o; reads := reads o;
     returncode := Some (exit_status (child o)) |}.

(** [poll()] is [None] while the child runs. *)
Definition polled (p : Popen) (w : World) : option Z :=
  match nth_error (popens w) p with
  | Some o => returncode o
  | None => None
  end.

Definition is_none {A : Type} (o : option A) : bool :=
  match o with None => true | Some _ => false end.

(** The guard of line 295:
    [current_process is not None and current_process.poll() is None]. *)
Definition busy (w : World) : bool :=
  match current_process w with
  | Some p => is_none (polled p w)
  | None => false
  end.

(** The job that occupies the slot: the process in [current_process], as
    long as it runs. *)
Definition active (w : World) : option Popen :=
  if busy w then current_process w else None.

(** The child terminates: its exit status becomes visible to [poll] and the
    files it made are there. *)
Definition child_exits (p : Popen) (w : World) : World :=
  match nth_error (popens w) p with
  | Some o =>
    match returncode o with
    | None => set_files (files w ++ creates (child o)) (set_child_state p (exited o) w)
    | Some _ => w
    end
  | None => w
  end.

(** ** Python computations: a state and exception monad over [World] *)

Inductive Outcome (A : Type) : Type :=
| Returns (a : A)
| Raises (e : exn)
| Blocks.                           (* the thread never gets past this point *)

Arguments Returns {A} a.
Arguments Raises {A} e.
Arguments Blocks {A}.

Definition Py (A : Type) : Type := World -> Outcome A * World.

Definition ret {A : Type} (a : A) : Py A := fun w => (Returns a, w).

Definition raise {A : Type} (e : exn) : Py A := fun w => (Raises e, w).

Definition bind {A B : Type} (m : Py A) (k : A -> Py B) : Py B :=
  fun w =>
    match m w with
    | (Returns a, w') => k a w'
    | (Raises e, w') => (Raises e, w')
    | (Blocks, w') => (Blocks, w')
    end.

Notation "x <- m ;; k" := (bind m (fun x => k))
  (at level 61, m at next level, right associativity).
Notation "m ;; k" := (bind m (fun _ => k))
  (at level 61, right associativity).

(** [try: body / except Exception as e: handler e]. *)
Definition try_except {A : Type} (body : Py A) (handler : exn -> Py A) : Py A :=
  fun w =>
    match body w with
    | (Raises e, w') => handler e w'
    | r => r
    end.

(** [try: body / finally: final]. *)
Definition try_finally {A : Type} (body : Py A) (final : Py unit) : Py A :=
  fun w =>
    match body w with
    | (Blocks, w') => (Blocks, w')
    | (o, w') =>
      match final w' with
      | (Returns _, w'') => (o, w'')
      | (Raises e, w'') => (Raises e, w'')
      | (Blocks, w'') => (Blocks, w'')
      end
    end.

(** [threading.Lock]: acquiring a held lock waits; in a computation that runs
    alone that wait never ends. *)
Definition acquire : Py unit :=
  fun w => if process_lock w then (Blocks, w) else (Returns tt, set_lock true w).

Definition release : Py unit :=
  fun w =>
    if process_lock w then (Returns tt, set_lock false w)
    else (Raises (lit "release unlocked lock"), w).

(** [with process_lock: body]. *)
Definition with_lock {A : Type} (body : Py A) : Py A :=
  acquire ;; try_finally body release.

Definition emit (ev : Event) : Py unit :=
  fun w => (Returns tt, set_emitted (emitted w ++ [ev]) w).

Definition get_current_process : Py (option Popen) :=
  fun w => (Returns (current_process w), w).

(** [current_process = v]. *)
Definition set_current_process (v : option Popen) : Py unit :=
  fun w =>
    (Returns tt,
     set_slot v {| locked := process_lock w; prior := current_process w;
                   prior_active := active w; assigned := v |} w).

Definition poll (p : Popen) : Py (option Z) :=
  fun w => (Returns (polled p w), w).

(** [proc.stdin], [proc.stdout], [proc.wait]: attribute access on [None]
    raises AttributeError. *)
Definition attribute (proc : option Popen) (name : string) : Py Popen :=
  match proc with
  | Some p => ret p
  | None => raise (lit "'NoneType' object has no attribute '" ++ lit name ++ lit "'")
  end.

Definition stdin_write (p : Popen) (data : bytes) : Py unit :=
  fun w =>
    match nth_error (popens w) p with
    | Some o =>
      match stdin_write_error (child o) with
      | Some e => (Raises e, w)
      | None => (Returns tt, set_child_state p (wrote data o) w)
      end
    | None => (Raises (lit "I/O operation on closed file"), w)
    end.

Definition stdin_close (p : Popen) : Py unit :=
  fun w =>
    match nth_error (popens w) p with
    | Some o =>
      match stdin_close_error (child o) with
      | Some e => (Raises e, w)
      | None => (Returns tt, set_child_state p (closed o) w)
      end
    | None => (Returns tt, w)
    end.

(** How many bytes a [read(size)] returns when [step] is what the pipe
    offers: at least one (the call waits for data), at most [size]. *)
Definition granted (size : nat) (step : option ReadStep) : nat :=
  match step with
  | Some (Ready more) => Nat.min size (S more)
  | _ => size
  end.

(** [proc.stdout.read(size)] on the unbuffered pipe: [b''] only at end of
    file. *)
Definition stdout_read (p : Popen) (size : nat) : Py bytes :=
  fun w =>
    match nth_error (popens w) p with
    | Some o =>
      match reads o with
      | ReadFails e :: _ => (Raises e, set_child_state p (consumed 0 o) w)
      | step =>
        let n := granted size (hd_error step) in
        (Returns (firstn n (unread o)), set_child_state p (consumed n o) w)
      end
    | None => (Raises (lit "I/O operation on closed file"), w)
    end.

(** [proc.wait()]: returns once the child has exited. *)
Definition wait (p : Popen) : Py Z :=
  fun w =>
    match nth_error (popens w) p with
    | Some o =>
      match wait_error (child o) with
      | Some e => (Raises e, w)
      | None => (Returns (exit_status (child o)), child_exits p w)
      end
    | None => (Raises (lit "no such process"), w)
    end.

Definition os_path_exists (path : pystr) : Py bool :=
  fun w => (Returns (if in_dec pystr_eq_dec path (files w) then true else false), w).

(** [a + b] where [a] may be [None]: TypeError. *)
Definition str_add (a : option pystr) (b : pystr) : Py pystr :=
  match a with
  | Some s => ret (s ++ b)
  | None => raise (lit "unsupported operand type(s) for +: 'NoneType' and 'str'")
  end.

Definition thread_start (t : Thread) : Py unit :=
  fun w => (Returns tt, set_threads (threads w ++ [t]) w).

(** ** [server.py] *)

Section Server.

Variable host : Host.

(** Line 21: [TARGET_URL = os.getenv("END_URL")]. *)
Definition TARGET_URL : option pystr := getenv host "END_URL".

(** [subprocess.Popen(command, stdin=PIPE, stdout=PIPE, stderr=STDOUT,
    text=False, bufsize=0)]. *)
Definition subprocess_Popen (command : list pystr) : Py Popen :=
  fun w =>
    match spawn host command with
    | inl e => (Raises e, w)
    | inr c =>
      (Returns (List.length (popens w)),
       set_popens (popens w ++ [fresh c (List.length (emitted w))]) w)
    end.

(** Lines 276-285: the timer thread is started and forgotten. *)
Definition delayed_remove (path : pystr) (delay : N) : Py unit :=
  fun w => (Returns tt, set_timers (timers w ++ [(path, delay)]) w).

(** Lines 342-347.  [fuel] bounds the iterations of [while True]. *)
Fixpoint read_loop (fuel : nat) (p : Popen) : Py unit :=
  match fuel with
  | O => fun w => (Blocks, w)
  | S fuel' =>
    chunk <- stdout_read p 4096 ;;
    match chunk with
    | [] => ret tt
    | _ :: _ =>
      emit (console_output (Utf8.decode chunk)) ;;
      read_loop fuel' p
    end
  end.

(** Every iteration but the last takes at least one byte out of the pipe,
    so one more iteration than there are unread bytes is enough. *)
Definition drain (p : Popen) : Py unit :=
  fun w =>
    match nth_error (popens w) p with
    | Some o => read_loop (S (List.length (unread o))) p w
    | None => read_loop 1 p w
    end.

(** Lines 327-362. *)
Definition stream_output
    (proc : option Popen) (stdin : option bytes) (end_file : option pystr)
  : Py unit :=
  try_finally
    ((match stdin with
      | Some data =>
        pipe <- attribute proc "stdin" ;;
        try_except
          (stdin_write pipe data ;;
           stdin_close pipe)
          (fun e =>
             emit (console_output
                     (lit "[error writing to stdin: " ++ e ++ lit "]" ++ [LF])))
      | None => ret tt
      end) ;;
     pipe <- attribute proc "stdout" ;;
     drain pipe ;;
     p <- attribute proc "wait" ;;
     retcode <- wait p ;;
     emit (console_output
             ([LF] ++ lit "[process exited with code " ++ str_of_int retcode
                   ++ lit "]" ++ [LF])) ;;
     (if truthy end_file then
        match end_file with
        | Some path =>
          present <- os_path_exists path ;;
          if present then
            url <- str_add TARGET_URL path ;;
            emit (open_url url) ;;
            delayed_remove path 30
          else ret tt
        | None => ret tt
        end
      else ret tt))
    (with_lock (set_current_process None)).

(** Lines 288-366.  The [with] block yields [false] where the source
    returns from inside it. *)
Definition start_process_and_stream
    (command : list pystr) (stdin_data : option bytes)
    (welcome_msg : option pystr) (end_file : option pystr)
  : Py unit :=
  proceed <-
    with_lock
      (cur <- get_current_process ;;
       running <-
         match cur with
         | Some p => (code <- poll p ;; ret (is_none code))
         | None => ret false
         end ;;
       if running then
         emit (console_output
                 (lit "[process already running " ++ [8211%N]
                      ++ lit " wait for it to finish]" ++ [LF])) ;;
         ret false
       else
         emit console_clear ;;
         (if truthy welcome_msg then
            match welcome_msg with
            | Some msg => emit (console_output (lit "[" ++ msg ++ lit "]" ++ [LF]))
            | None => ret tt
            end
          else ret tt) ;;
         try_except
           (p <- subprocess_Popen command ;;
            set_current_process (Some p) ;;
            ret true)
           (fun e =>
              emit (console_output
                      (lit "Failed to start command: " ++ e ++ [LF])) ;;
              set_current_process None ;;
              ret false)) ;;
  if proceed then
    proc <- get_current_process ;;
    thread_start {| t_proc := proc; t_stdin := stdin_data; t_end_file := end_file |}
  else ret tt.

(** ** The server as a transition system *)

(** A request: the arguments of one call of [start_process_and_stream]. *)
Record Job : Type := {
  command : list pystr;
  stdin_data : option bytes;
  welcome_msg : option pystr;
  end_file : option pystr
}.

Definition submit (j : Job) : Py unit :=
  start_process_and_stream (command j) (stdin_data j) (welcome_msg j) (end_file j).

(** The oldest started worker runs. *)
Definition run_worker : Py unit :=
  fun w =>
    match threads w with
    | [] => (Returns tt, w)
    | t :: rest =>
      stream_output (t_proc t) (t_stdin t) (t_end_file t) (set_threads rest w)
    end.

(** Lines 277-282: a timer fires and [os.remove] runs; its errors are
    printed, never raised. *)
Definition timer_fires : Py unit :=
  fun w =>
    match timers w with
    | [] => (Returns tt, w)
    | (path, _) :: rest =>
      (Returns tt,
       set_files (List.remove pystr_eq_dec path (files w)) (set_timers rest w))
    end.

(** The steps of the server.  A request runs as one step: all it does to the
    slot is inside [with process_lock].  A worker runs as one step: it
    touches the slot in its [finally] block only.  Children exit and timers
    fire in between, in any order. *)
Inductive Action : Type :=
| Submit (j : Job)                (* a handler calls [start_process_and_stream] *)
| Work                            (* a worker thread runs to its end *)
| Exit (p : Popen)                (* a child terminates *)
| Reclaim.                        (* a [delayed_remove] timer fires *)

Definition perform (a : Action) (w : World) : World :=
  match a with
  | Submit j => snd (submit j w)
  | Work => snd (run_worker w)
  | Exit p => child_exits p w
  | Reclaim => snd (timer_fires w)
  end.

Definition run (acts : list Action) (w : World) : World :=
  fold_left (fun w a => perform a w) acts w.

(** The states the server can be in. *)
Definition reachable (w : World) : Prop := exists acts, w = run acts boot.

(** One job on its own: the request, then its worker. *)
Definition run_job (j : Job) (w : World) : World := run [Submit j; Work] w.

(** What a computation adds to the broadcast. *)
Definition events_since (w w' : World) : list Event :=
  skipn (List.length (emitted w)) (emitted w').

End Server.

(** ** The pieces of a job's run, as plain functions *)

(** The read loop of [stream_output] seen from the pipe alone, for the data
    and the steps the pipe holds: the chunks the loop gets, what it leaves in
    the pipe, and how it ends. *)
Fixpoint pipe_chunks (size fuel : nat) (data : bytes) (steps : list ReadStep)
  : list bytes :=
  match fuel with
  | O => []
  | S fuel' =>
    match steps with
    | ReadFails _ :: _ => []
    | _ =>
      let n := granted size (hd_error steps) in
      match firstn n data with
      | [] => []
      | chunk => chunk :: pipe_chunks size fuel' (skipn n data) (tl steps)
      end
    end
  end.

Fixpoint pipe_left (size fuel : nat) (data : bytes) (steps : list ReadStep)
  : bytes * list ReadStep :=
  match fuel with
  | O => (data, steps)
  | S fuel' =>
    match steps with
    | ReadFails _ :: rest => (data, rest)
    | _ =>
      let n := granted size (hd_error steps) in
      match firstn n data with
      | [] => (skipn n data, tl steps)
      | _ => pipe_left size fuel' (skipn n data) (tl steps)
      end
    end
  end.

Fixpoint pipe_outcome (size fuel : nat) (data : bytes) (steps : list ReadStep)
  : Outcome unit :=
  match fuel with
  | O => Blocks
  | S fuel' =>
    match steps with
    | ReadFails e :: _ => Raises e
    | _ =>
      let n := granted size (hd_error steps) in
      match firstn n data with
      | [] => Returns tt
      | _ => pipe_outcome size fuel' (skipn n data) (tl steps)
      end
    end
  end.

(** The child's object once its pipe holds [rest]. *)
Definition piped (rest : bytes * list ReadStep) (o : PopenObj) : PopenObj :=
  {| child := child o; spawned_after := spawned_after o;
     stdin_received := stdin_received o; stdin_closed := stdin_closed o;
     unread := fst rest; reads := snd rest; returncode := returncode o |}.

(** No [read] fails. *)
Definition all_ready (steps : list ReadStep) : bool :=
  forallb (fun s => match s with Ready _ => true | ReadFails _ => false end) steps.

(** The chunks in which the parent receives the output of a child. *)
Definition chunks_of (c : Child) : list bytes :=
  pipe_chunks 4096 (S (List.length (output c))) (output c) (delivery c).

Definition welcome_events (welcome_msg : option pystr) : list Event :=
  match welcome_msg with
  | Some (ch :: msg) => [console_output (lit "[" ++ (ch :: msg) ++ lit "]" ++ [LF])]
  | _ => []
  end.

Definition spawn_failure_event (e : exn) : Event :=
  console_output (lit "Failed to start command: " ++ e ++ [LF]).

(** The error that feeding stdin meets, in [write] or else in [close]. *)
Definition stdin_error (c : Child) : option exn :=
  match stdin_write_error c with
  | Some e => Some e
  | None => stdin_close_error c
  end.

Definition stdin_failure_event (e : exn) : Event :=
  console_output (lit "[error writing to stdin: " ++ e ++ lit "]" ++ [LF]).

Definition stdin_events (stdin : option bytes) (c : Child) : list Event :=
  match stdin, stdin_error c with
  | Some _, Some e => [stdin_failure_event e]
  | _, _ => []
  end.

Definition stream_events (chunks : list bytes) : list Event :=
  map (fun chunk => console_output (Utf8.decode chunk)) chunks.

Definition exit_event (code : Z) : Event :=
  console_output ([LF] ++ lit "[process exited with code " ++ str_of_int code
                       ++ lit "]" ++ [LF]).

(** The artifact of a job is there: [end_file and os.path.exists(end_file)]. *)
Definition artifact_found (end_file : option pystr) (fs : list pystr) : option pystr :=
  match end_file with
  | Some path =>
    if truthy end_file then
      if in_dec pystr_eq_dec path fs then Some path else None
    else None
  | None => None
  end.

Definition artifact_events (url : option pystr) (found : option pystr) : list Event :=
  match found, url with
  | Some path, Some base => [open_url (base ++ path)]
  | _, _ => []
  end.

Definition artifact_timers (url : option pystr) (found : option pystr)
  : list (pystr * N) :=
  match found, url with
  | Some path, Some _ => [(path, 30%N)]
  | _, _ => []
  end.

(** The child's stdin after the worker has fed it. *)
Definition fed (stdin : option bytes) (o : PopenObj) : PopenObj :=
  match stdin with
  | None => o
  | Some data =>
    match stdin_write_error (child o) with
    | Some _ => o
    | None =>
      match stdin_close_error (child o) with
      | Some _ => wrote data o
      | None => closed (wrote data o)
      end
    end
  end.

(** A request is taken on when it gets past the guard: the console is
    cleared. *)
Definition accepted (h : Host) (j : Job) (w : World) : Prop :=
  exists rest, events_since w (snd (submit h j w)) = console_clear :: rest.

(** How often a stretch of the slot's history empties the slot. *)
Definition releases (log : list SlotWrite) : nat :=
  List.length (filter (fun e => is_none (assigned e)) log).

Definition slot_writes_since (w w' : World) : list SlotWrite :=
  skipn (List.length (slot_log w)) (slot_log w').

Definition is_open_url (ev : Event) : bool :=
  match ev with open_url _ => true | _ => false end.

(** Two jobs that differ in one optional field only. *)
Definition with_welcome (m : option pystr) (j : Job) : Job :=
  {| command := command j; stdin_data := stdin_data j; welcome_msg := m;
     end_file := end_file j |}.

Definition with_end_file (f : option pystr) (j : Job) : Job :=
  {| command := command j; stdin_data := stdin_data j;
     welcome_msg := welcome_msg j; end_file := f |}.

Definition fixed_delay (l : list (pystr * N)) : Prop :=
  Forall (fun t => snd t = 30%N) l.

Definition slot_untouched (w w' : World) : Prop :=
  process_lock w' = process_lock w /\
  current_process w' = current_process w /\
  slot_log w' = slot_log w /\
  threads w' = threads w /\
  exists added, timers w' = timers w ++ added /\ fixed_delay added.

Definition quiet {A : Type} (m : Py A) : Prop :=
  forall w, fst (m w) <> Blocks /\ slot_untouched w (snd (m w)).

Definition busy_event : Event :=
  console_output (lit "[process already running " ++ [8211%N]
                      ++ lit " wait for it to finish]" ++ [LF]).

(** The child's object once its exit has been seen. *)
Definition reaped (o : PopenObj) : PopenObj :=
  match returncode o with
  | None => exited o
  | Some _ => o
  end.

(** The files that exist once the child of [o] has exited. *)
Definition files_after (o : PopenObj) (fs : list pystr) : list pystr :=
  match returncode o with
  | None => fs ++ creates (child o)
  | Some _ => fs
  end.

(** How the artifact step ends: [TARGET_URL + end_file] is a TypeError when
    END_URL is not set. *)
Definition artifact_outcome (url : option pystr) (found : option pystr)
  : Outcome unit :=
  match found, url with
  | Some _, None =>
    Raises (lit "unsupported operand type(s) for +: 'NoneType' and 'str'")
  | _, _ => Returns tt
  end.

(** ** Properties of the slot's history *)

(** The slot is given a process under the lock and over an empty slot. *)
Definition taken_when_empty (e : SlotWrite) : Prop :=
  assigned e <> None -> locked e = true /\ prior e = None.

(** The slot is given a process under the lock and when no running job
    occupies it: it is empty, or the process it holds has exited. *)
Definition taken_when_free (e : SlotWrite) : Prop :=
  assigned e <> None -> locked e = true /\ prior_active e = None.

(** ** Shapes of a job's events *)


(** The welcome output carrying the message itself. *)
Definition bare_welcome (welcome_msg : option pystr) : list Event :=
  match welcome_msg with
  | Some msg => [console_output msg]
  | None => []
  end.

(** ** Sample hosts and jobs *)

Definition well_behaved (out : bytes) (made : list pystr) : Child :=
  {| stdin_write_error := None; stdin_close_error := None; output := out;
     delivery := []; wait_error := None; exit_status := 0; creates := made |}.

(** [echo hi]. *)
Definition echo_hi : Child := well_behaved (list_byte_of_string "hi" ++ [x0a]) [].

(** A scanner that leaves [scan.pdf] behind. *)
Definition scanner : Child :=
  well_behaved (list_byte_of_string "scanning" ++ [x0a]) [lit "scan.pdf"].

(** A child that closes its stdin at once and whose pipe breaks after the
    first chunk. *)
Definition flaky : Child :=
  {| stdin_write_error := Some (lit "[Errno 32] Broken pipe");
     stdin_close_error := None;
     output := list_byte_of_string "cat: error";
     delivery := [Ready 2; ReadFails (lit "[Errno 5] Input/output error")];
     wait_error := None; exit_status := 1; creates := [] |}.

(** A child that prints an accented letter (C3 A9) and a line feed; the
    pipe hands the first byte over alone. *)
Definition accent : Child :=
  {| stdin_write_error := None; stdin_close_error := None;
     output := [xc3; xa9; x0a]; delivery := [Ready 0];
     wait_error := None; exit_status := 0; creates := [] |}.

(** A printer client that closes its stdin at once, complains and exits
    with status 1. *)
Definition deaf : Child :=
  {| stdin_write_error := Some (lit "[Errno 32] Broken pipe");
     stdin_close_error := None;
     output := list_byte_of_string "lp: error" ++ [x0a];
     delivery := [Ready 2];
     wait_error := None; exit_status := 1; creates := [] |}.

Definition sample_spawn (command : list pystr) : exn + Child :=
  if list_eq_dec pystr_eq_dec command [lit "echo"; lit "hi"] then inr echo_hi
  else if list_eq_dec pystr_eq_dec command [lit "accent"] then inr accent
  else if list_eq_dec pystr_eq_dec command [lit "scan"] then inr scanner
  else if list_eq_dec pystr_eq_dec command [lit "lp"] then inr deaf
  else if list_eq_dec pystr_eq_dec command [lit "cat"] then inr flaky
  else inl (lit "[Errno 2] No such file or directory").

(** A host whose environment holds [END_URL] (or not) and [extra]. *)
Definition sample_host (end_url extra : option pystr) : Host :=
  {| getenv := fun name =>
                 if String.eqb name "END_URL" then end_url
                 else if String.eqb name "HOST" then extra
                 else None;
     spawn := sample_spawn |}.

Definition echo_job : Job :=
  {| command := [lit "echo"; lit "hi"]; stdin_data := None;
     welcome_msg := None; end_file := None |}.

Definition scan_job : Job :=
  {| command := [lit "scan"]; stdin_data := None;
     welcome_msg := Some (lit "Beginning scan");
     end_file := Some (lit "scan.pdf") |}.

Definition print_job : Job :=
  {| command := [lit "lp"]; stdin_data := Some (list_byte_of_string "%PDF");
     welcome_msg := Some (lit "Beginning print"); end_file := None |}.

Definition cat_job : Job :=
  {| command := [lit "cat"]; stdin_data := Some (list_byte_of_string "%PDF");
     welcome_msg := None; end_file := Some (lit "out.pdf") |}.


Definition missing_job : Job :=
  {| command := [lit "nope"]; stdin_data := None;
     welcome_msg := None; end_file := None |}.

(** ** Text up to replacement markers *)


(** ** Computations that skip the artifact step *)

(** The computation starts no timer and emits no artifact event. *)
Definition artifact_free {A : Type} (m : Py A) : Prop :=
  forall w,
    timers (snd (m w)) = timers w /\
    exists evs,
      emitted (snd (m w)) = emitted w ++ evs /\ filter is_open_url evs = [].

(** ** The event handlers and what they take from the client *)

#[local] Unset Elimination Schemes.

(** The payload of a Socket.IO event, as the handler receives it. *)
Inductive pyval : Type :=
| VNone
| VBool (b : bool)
| VInt (z : Z)
| VStr (s : pystr)
| VBytes (b : bytes)
| VList (l : list pyval)
| VDict (d : list (pystr * pyval)).   (* keys in insertion order, no key twice *)

#[local] Set Elimination Schemes.

(** [type(v).__name__]. *)
Definition type_name (v : pyval) : pystr :=
  match v with
  | VNone => lit "NoneType"
  | VBool _ => lit "bool"
  | VInt _ => lit "int"
  | VStr _ => lit "str"
  | VBytes _ => lit "bytes"
  | VList _ => lit "list"
  | VDict _ => lit "dict"
  end.

Fixpoint lookup (key : pystr) (d : list (pystr * pyval)) : option pyval :=
  match d with
  | [] => None
  | (k, v) :: rest => if pystr_eq_dec key k then Some v else lookup key rest
  end.

(** [v.get(key, default)]: only a dict has the method. *)
Definition method_get (v : pyval) (key : pystr) (default : pyval) : Py pyval :=
  match v with
  | VDict d =>
    ret match lookup key d with
        | Some found => found
        | None => default
        end
  | _ => raise (lit "'" ++ type_name v ++ lit "' object has no attribute 'get'")
  end.

(** ** Base64 *)

Module Base64.

(** The alphabet of RFC 4648. *)
Definition alphabet : pystr :=
  lit "ABCDEFGHIJKLMNOPQRSTUVWXYZabcdefghijklmnopqrstuvwxyz0123456789+/".

Definition PAD : N := 61.             (* the character = *)

Definition symbol (six : N) : N := nth (N.to_nat six) alphabet PAD.

(** One group of the encoder: three bytes give four symbols; one or two
    bytes at the end give two or three symbols and padding. *)
Definition encode3 (a b c : N) : pystr :=
  [symbol (N.shiftr a 2);
   symbol (N.lor (N.shiftl (N.land a 3) 4) (N.shiftr b 4));
   symbol (N.lor (N.shiftl (N.land b 15) 2) (N.shiftr c 6));
   symbol (N.land c 63)].

Definition encode2 (a b : N) : pystr :=
  [symbol (N.shiftr a 2);
   symbol (N.lor (N.shiftl (N.land a 3) 4) (N.shiftr b 4));
   symbol (N.shiftl (N.land b 15) 2);
   PAD].

Definition encode1 (a : N) : pystr :=
  [symbol (N.shiftr a 2); symbol (N.shiftl (N.land a 3) 4); PAD; PAD].

Fixpoint encode (codes : list N) : pystr :=
  match codes with
  | [] => []
  | [a] => encode1 a
  | [a; b] => encode2 a b
  | a :: b :: c :: rest => encode3 a b c ++ encode rest
  end.

(** The browser's [btoa]: its argument is a string of characters up to
    U+00FF; any other character is an InvalidCharacterError. *)
Definition btoa (binary : pystr) : exn + pystr :=
  if forallb (fun ch => (ch <=? 255)%N) binary then inr (encode binary)
  else inl (lit "InvalidCharacterError").

(** The decoding table of [binascii]: the value of a symbol, nothing for any
    other byte. *)
Definition value (ch : byte) : option N :=
  let n := Byte.to_N ch in
  if (65 <=? n)%N && (n <=? 90)%N then Some (n - 65)%N
  else if (97 <=? n)%N && (n <=? 122)%N then Some (n - 71)%N
  else if (48 <=? n)%N && (n <=? 57)%N then Some (n + 4)%N
  else if (n =? 43)%N then Some 62%N
  else if (n =? 47)%N then Some 63%N
  else None.

(** A value stored in an [unsigned char]. *)
Definition as_byte (n : N) : byte :=
  match Byte.of_N (n mod 256) with
  | Some b => b
  | None => x00
  end.

(** [binascii.a2b_base64] of CPython 3.11 with [strict_mode] off: bytes that
    are no symbols are skipped, padding that completes a group ends the
    decoding, and a group left open at the end is an error. *)
Fixpoint a2b_loop (data : bytes) (quad_pos : nat) (leftchar : N) (pads : nat)
         (out : bytes) : exn + bytes :=
  match data with
  | [] =>
    match quad_pos with
    | 0 => inr out
    | 1 =>
      inl (lit "Invalid base64-encoded string: number of data characters ("
             ++ str_of_int (Z.of_nat (List.length out / 3 * 4 + 1))
             ++ lit ") cannot be 1 more than a multiple of 4")
    | _ => inl (lit "Incorrect padding")
    end
  | ch :: rest =>
    if (Byte.to_N ch =? PAD)%N then
      if 2 <=? quad_pos then
        if 4 <=? quad_pos + S pads then inr out
        else a2b_loop rest quad_pos leftchar (S pads) out
      else a2b_loop rest quad_pos leftchar pads out
    else
      match value ch with
      | None => a2b_loop rest quad_pos leftchar pads out
      | Some six =>
        match quad_pos with
        | 0 => a2b_loop rest 1 six 0 out
        | 1 =>
          a2b_loop rest 2 (N.land six 15) 0
                   (out ++ [as_byte (N.lor (N.shiftl leftchar 2) (N.shiftr six 4))])
        | 2 =>
          a2b_loop rest 3 (N.land six 3) 0
                   (out ++ [as_byte (N.lor (N.shiftl leftchar 4) (N.shiftr six 2))])
        | _ =>
          a2b_loop rest 0 0 0
                   (out ++ [as_byte (N.lor (N.shiftl leftchar 6) six)])
        end
      end
  end.

Definition a2b_base64 (data : bytes) : exn + bytes := a2b_loop data 0 0 0 [].

(** [s.encode('ascii')]. *)
Fixpoint ascii_bytes (s : pystr) : option bytes :=
  match s with
  | [] => Some []
  | ch :: rest =>
    if (ch <? 128)%N then
      match ascii_bytes rest with
      | Some bs => Some (as_byte ch :: bs)
      | None => None
      end
    else None
  end.

(** [base64.b64decode(s)] with its defaults: a [str] must be ASCII, a
    [bytes] is taken as it is, anything else is a TypeError. *)
Definition b64decode (s : pyval) : exn + bytes :=
  match s with
  | VStr text =>
    match ascii_bytes text with
    | Some data => a2b_base64 data
    | None => inl (lit "string argument should contain only ASCII characters")
    end
  | VBytes data => a2b_base64 data
  | _ =>
    inl (lit "argument should be a bytes-like object or ASCII string, not '"
           ++ type_name s ++ lit "'")
  end.

End Base64.

(** A function of the library that returns or raises. *)
Definition lift {A : Type} (r : exn + A) : Py A :=
  match r with
  | inl e => raise e
  | inr a => ret a
  end.

(** Lines 369-376. *)
Definition handle_scan (h : Host) : Py unit :=
  start_process_and_stream h
    [lit "bash"; lit "-c";
     lit "unbuffer scanimage --batch=page-%03d.png --format=png --resolution 300 -x 210 -y 297 -d 'airscan:e0:uri' --source ADF && ls page-*.png | parallel convert -quality 80 {} {}.jpg && img2pdf page-*.jpg -o scan.pdf && rm page-*"]
    None (Some (lit "Beginning scan")) (Some (lit "scan.pdf")).

(** The command of line 381. *)
Definition lp_command : list pystr :=
  [lit "lp"; lit "-d"; lit "caos_printer"; lit "-"].

(** Lines 379-398.  The [try] yields [None] where the source returns from
    its [except] branch. *)
Definition handle_print (h : Host) (message : pyval) : Py unit :=
  content_b64 <- method_get message (lit "content_b64") (VStr []) ;;
  decoded <-
    try_except
      (content <- lift (Base64.b64decode content_b64) ;;
       ret (Some content))
      (fun e =>
         emit (console_output
                 (lit "[failed to decode uploaded file: " ++ e ++ lit "]" ++ [LF])) ;;
         ret None) ;;
  match decoded with
  | Some content =>
    start_process_and_stream h lp_command (Some content)
                             (Some (lit "Beginning print")) None
  | None => ret tt
  end.

(** The print request as a job. *)
Definition print_request (content : bytes) : Job :=
  {| command := lp_command; stdin_data := Some content;
     welcome_msg := Some (lit "Beginning print"); end_file := None |}.

(** ** The reclaimer's thread *)



(** ** The page *)

(** What the page of [index_html] holds: the text of the console and the
    tabs it has opened. *)
Record Page : Type := {
  console_text : pystr;
  opened : list pystr
}.

(** Lines 179-192: the handlers of the three events. *)
Definition on_event (ev : Event) (pg : Page) : Page :=
  match ev with
  | console_output data =>
    {| console_text := console_text pg ++ data; opened := opened pg |}
  | console_clear => {| console_text := []; opened := opened pg |}
  | open_url url =>
    match url with
    | [] => pg
    | _ :: _ => {| console_text := console_text pg; opened := opened pg ++ [url] |}
    end
  end.

Definition deliver (evs : list Event) (pg : Page) : Page :=
  fold_left (fun pg ev => on_event ev pg) evs pg.

(** Lines 242-261: what [sendFileToServer] emits as the payload of [print]
    for a file of the given bytes, when [btoa] succeeds. *)
Definition sendFileToServer (file : bytes) : exn + pyval :=
  match Base64.btoa (map Byte.to_N file) with
  | inr base64data => inr (VDict [(lit "content_b64", VStr base64data)])
  | inl e => inl e
  end.

(** The texts of the outputs among some events, put together. *)
Fixpoint output_text (evs : list Event) : pystr :=
  match evs with
  | [] => []
  | console_output data :: rest => data ++ output_text rest
  | _ :: rest => output_text rest
  end.

Definition is_clear (ev : Event) : bool :=
  match ev with console_clear => true | _ => false end.

(** ** Computations and the children they touch *)

(** The computation touches no child but [p], and adds or drops none. *)
Definition private_to (p : option Popen) {A : Type} (m : Py A) : Prop :=
  forall w,
    List.length (popens (snd (m w))) = List.length (popens w) /\
    forall q, Some q <> p ->
      nth_error (popens (snd (m w))) q = nth_error (popens w) q.

(** The computation writes to no child's stdin and closes none; the child
    behind each handle stays the same. *)
Definition stdin_kept {A : Type} (m : Py A) : Prop :=
  forall w q o,
    nth_error (popens w) q = Some o ->
    exists o',
      nth_error (popens (snd (m w))) q = Some o' /\
      stdin_received o' = stdin_received o /\
      stdin_closed o' = stdin_closed o /\
      child o' = child o.

(** All bytes are below 128. *)
Definition all_ascii (bs : bytes) : bool :=
  forallb (fun b => (Byte.to_N b <? 128)%N) bs.

(** The scan request as a job. *)
Definition scan_request : Job :=
  {| command :=
       [lit "bash"; lit "-c";
        lit "unbuffer scanimage --batch=page-%03d.png --format=png --resolution 300 -x 210 -y 297 -d 'airscan:e0:uri' --source ADF && ls page-*.png | parallel convert -quality 80 {} {}.jpg && img2pdf page-*.jpg -o scan.pdf && rm page-*"];
     stdin_data := None;
     welcome_msg := Some (lit "Beginning scan");
     end_file := Some (lit "scan.pdf") |}.

(** The value under [content_b64] that [handle_print] decodes. *)
Definition content_field (d : list (pystr * pyval)) : pyval :=
  match lookup (lit "content_b64") d with
  | Some found => found
  | None => VStr []
  end.

(** ** A sample office *)

(** A printer client that reads its stdin to the end and reports. *)
Definition printer : Child :=
  well_behaved (list_byte_of_string "request id is caos_printer-1 (1 file(s))" ++ [x0a]) [].

(** A child whose exit status cannot be collected. *)
Definition wedged : Child :=
  {| stdin_write_error := None; stdin_close_error := None;
     output := list_byte_of_string "working"; delivery := [];
     wait_error := Some (lit "[Errno 10] No child processes");
     exit_status := 0; creates := [lit "out.pdf"] |}.

Definition office_spawn (argv : list pystr) : exn + Child :=
  if list_eq_dec pystr_eq_dec argv lp_command then inr printer
  else if list_eq_dec pystr_eq_dec argv (command scan_request) then inr scanner
  else if list_eq_dec pystr_eq_dec argv [lit "wedged"] then inr wedged
  else if list_eq_dec pystr_eq_dec argv [lit "cat"] then inr flaky
  else inl (lit "[Errno 2] No such file or directory").

Definition office : Host :=
  {| getenv := fun name =>
                 if String.eqb name "END_URL" then Some (lit "http://printer/")
                 else None;
     spawn := office_spawn |}.

Definition wedged_job : Job :=
  {| command := [lit "wedged"]; stdin_data := None;
     welcome_msg := None; end_file := Some (lit "out.pdf") |}.

(** The child behind [p] has been started and has not exited. *)
Definition running (p : Popen) (w : World) : Prop :=
  exists o, nth_error (popens w) p = Some o /\ returncode o = None.

(** The tabs that some events make the page open (line 189: an event with
    an empty url opens none). *)
Fixpoint tabs_of (evs : list Event) : list pystr :=
  match evs with
  | [] => []
  | open_url (ch :: url) :: rest => (ch :: url) :: tabs_of rest
  | _ :: rest => tabs_of rest
  end.

Definition no_clear (evs : list Event) : bool :=
  forallb (fun ev => negb (is_clear ev)) evs.

(** A character that means something to the decoder: a symbol of the
    alphabet or the padding. *)
Definition significant (ch : N) : bool :=
  existsb (N.eqb ch) Base64.alphabet || (ch =? Base64.PAD)%N.

Definition ascii_text (s : pystr) : bool := forallb (fun ch => (ch <? 128)%N) s.

(** ** Workers and their children *)



(** ** Computations and the broadcast *)

(** The computation does not look at what has been broadcast: on a state
    with another broadcast it ends the same way, in the same state, with the
    same events added. *)
Definition emitted_blind {A : Type} (m : Py A) : Prop :=
  forall w, exists evs,
    forall es,
      m (set_emitted es w) = (fst (m w), set_emitted (es ++ evs) (snd (m w))).

(** * Facts about the decoder *)

Module Utf8Facts.
Import Utf8.

Lemma decode_cons (b0 : byte) (r0 : bytes) :
  decode (b0 :: r0) =
  ltac:(let t := eval cbn [decode] in (decode (b0 :: r0)) in exact t).
Proof. reflexivity. Qed.

Lemma truncated_cons (b0 : byte) (r0 : bytes) :
  truncated (b0 :: r0) =
  ltac:(let t := eval cbn [truncated] in (truncated (b0 :: r0)) in exact t).
Proof. reflexivity. Qed.


Lemma second_of_3_continuation lead b :
  is_continuation b = false -> second_of_3 lead b = false.
Proof. intros H. unfold second_of_3. now rewrite H. Qed.

Lemma second_of_4_continuation lead b :
  is_continuation b = false -> second_of_4 lead b = false.
Proof. intros H. unfold second_of_4. now rewrite H. Qed.

Local Arguments decode : simpl never.
Local Arguments truncated : simpl never.

Ltac fresh_head :=
  match goal with
  | H : true = true -> starts_fresh ?y = true |- _ =>
    specialize (H eq_refl); destruct y as [|? ?];
    [ reflexivity
    | cbn [starts_fresh] in H; apply negb_true_iff in H;
      rewrite ?H, ?(second_of_3_continuation _ _ H), ?(second_of_4_continuation _ _ H);
      reflexivity ]
  end.

Lemma decode_app_bounded (n : nat) :
  forall x y : bytes,
    List.length x <= n ->
    (truncated x = true -> starts_fresh y = true) ->
    decode (x ++ y) = decode x ++ decode y.
Proof.
  induction n as [|n IH]; intros x y Hlen Hcut.
  - destruct x; [reflexivity | simpl in Hlen; lia].
  - destruct x as [|b0 r0]; [reflexivity|].
    cbn [app].
    assert (Hrec : forall r, List.length r <= n ->
               (truncated r = true -> starts_fresh y = true) ->
               forall c, c :: decode (r ++ y) = (c :: decode r) ++ decode y).
    { intros r Hr Hc c. cbn [app]. f_equal. now apply IH. }
    revert Hcut. rewrite (decode_cons b0 (r0 ++ y)), (decode_cons b0 r0), truncated_cons.
    simpl in Hlen.
    repeat match goal with
           | |- context [if ?c then _ else _] => destruct c eqn:?
           | |- (truncated ?r = true -> _) -> _ :: decode (?r ++ y) = _ =>
             let H := fresh in intro H; apply Hrec; [simpl; lia | exact H]
           | |- (truncated (?a :: ?r) = true -> _) -> _ :: decode (?a :: ?r ++ y) = _ =>
             let H := fresh in intro H; apply (Hrec (a :: r)); [simpl; lia | exact H]
           | |- context [match ?r ++ y with [] => _ | _ :: _ => _ end] =>
             destruct r as [|? ?]; cbn [app]; simpl in Hlen
           | |- (true = true -> _) -> _ => let H := fresh in intro H; fresh_head
           end.
Qed.

(** Decoding commutes with a cut that splits no sequence. *)
Lemma decode_app_clean (x y : bytes) :
  clean_cut x y = true -> decode (x ++ y) = decode x ++ decode y.
Proof.
  intros H. apply (decode_app_bounded (List.length x)); [lia|].
  intros Ht. unfold clean_cut in H. rewrite Ht in H. exact H.
Qed.

Lemma decode_chunks_clean (chunks : list bytes) :
  clean_cuts chunks = true ->
  concat (map decode chunks) = decode (concat chunks).
Proof.
  induction chunks as [|c rest IH]; intros H; [reflexivity|].
  cbn [clean_cuts] in H. apply andb_true_iff in H. destruct H as [Hc Hr].
  cbn [map concat]. rewrite (decode_app_clean _ _ Hc), IH by exact Hr.
  reflexivity.
Qed.


(** ** Cuts that split a sequence *)














End Utf8Facts.

(** * Facts about lists and worlds *)

Lemma nth_error_replace_nth {A : Type} (l : list A) (n : nat) (x y : A) :
  nth_error l n = Some y -> nth_error (replace_nth n x l) n = Some x.
Proof.
  revert n. induction l as [|h t IH]; intros [|n] H; simpl in *; try discriminate.
  - reflexivity.
  - now apply IH.
Qed.

Lemma replace_nth_same {A : Type} (l : list A) (n : nat) (x : A) :
  nth_error l n = Some x -> replace_nth n x l = l.
Proof.
  revert n. induction l as [|h t IH]; intros [|n] H; simpl in *; try discriminate.
  - congruence.
  - f_equal. now apply IH.
Qed.

Lemma replace_nth_twice {A : Type} (l : list A) (n : nat) (x y : A) :
  replace_nth n x (replace_nth n y l) = replace_nth n x l.
Proof.
  revert n. induction l as [|h t IH]; intros [|n]; simpl; try reflexivity.
  f_equal. apply IH.
Qed.

Lemma replace_nth_length {A : Type} (l : list A) (n : nat) (x : A) :
  List.length (replace_nth n x l) = List.length l.
Proof.
  revert n. induction l as [|h t IH]; intros [|n]; simpl; try reflexivity.
  f_equal. apply IH.
Qed.

Lemma nth_error_fresh {A : Type} (l : list A) (x : A) :
  nth_error (l ++ [x]) (List.length l) = Some x.
Proof. induction l; simpl; auto. Qed.

Lemma replace_nth_fresh {A : Type} (l : list A) (x y : A) :
  replace_nth (List.length l) x (l ++ [y]) = l ++ [x].
Proof. induction l; simpl; [reflexivity | f_equal; assumption]. Qed.

(** A world is its eight fields. *)
Lemma world_eta (w : World) :
  w = {| process_lock := process_lock w; current_process := current_process w;
         emitted := emitted w; popens := popens w; files := files w;
         timers := timers w; threads := threads w; slot_log := slot_log w |}.
Proof. destruct w; reflexivity. Qed.

Ltac unfold_world :=
  unfold set_child_state, set_lock, set_emitted, set_popens, set_files,
         set_timers, set_threads, set_slot in *;
  cbn [process_lock current_process emitted popens files timers threads slot_log] in *.

(** * The read loop *)

Lemma piped_consumed (rest : bytes * list ReadStep) (n : nat) (o : PopenObj) :
  piped rest (consumed n o) = piped rest o.
Proof. reflexivity. Qed.

Lemma consumed_piped (n : nat) (o : PopenObj) :
  consumed n o = piped (skipn n (unread o), tl (reads o)) o.
Proof. reflexivity. Qed.

Lemma piped_same (o : PopenObj) : piped (unread o, reads o) o = o.
Proof. destruct o; reflexivity. Qed.

Lemma read_loop_pipe (fuel : nat) :
  forall (p : Popen) (w : World) (o : PopenObj),
    nth_error (popens w) p = Some o ->
    read_loop fuel p w =
    (pipe_outcome 4096 fuel (unread o) (reads o),
     set_emitted
       (emitted w ++ stream_events (pipe_chunks 4096 fuel (unread o) (reads o)))
       (set_child_state p (piped (pipe_left 4096 fuel (unread o) (reads o)) o) w)).
Proof.
  induction fuel as [|fuel IH]; intros p w o Hp.
  - cbn [read_loop pipe_outcome pipe_chunks pipe_left stream_events map].
    rewrite piped_same. unfold_world.
    rewrite app_nil_r, (replace_nth_same _ _ _ Hp).
    f_equal. apply world_eta.
  - cbn [read_loop pipe_outcome pipe_chunks pipe_left].
    unfold bind at 1. unfold stdout_read. rewrite Hp.
    assert (Hnext : forall n, nth_error (popens (set_child_state p (consumed n o) w)) p
                              = Some (consumed n o)).
    { intros n. unfold_world. eapply nth_error_replace_nth; eassumption. }
    destruct (reads o) as [|[more|e] rest] eqn:Hreads;
      cbn [hd_error granted tl];
      try (match goal with
           | |- context [firstn ?n (unread o)] =>
             destruct (firstn n (unread o)) as [|b chunk] eqn:Hchunk;
             [ unfold ret; cbn [stream_events map]; rewrite consumed_piped, Hreads;
               unfold_world; now rewrite app_nil_r
             | unfold bind, emit;
               rewrite (IH p _ (consumed n o)) by apply Hnext;
               rewrite piped_consumed; cbn [consumed unread reads];
               rewrite Hreads; cbn [tl];
               unfold_world; rewrite replace_nth_twice;
               cbn [stream_events map]; now rewrite <- app_assoc ]
           end).
    rewrite consumed_piped, Hreads. cbn [stream_events map skipn tl].
    unfold_world. now rewrite app_nil_r.
Qed.

(** * The pipe *)

Lemma granted_at_least_one (size : nat) (step : option ReadStep) :
  0 < size -> 0 < granted size step <= size.
Proof. intros H. destruct step as [[more|e]|]; cbn [granted]; lia. Qed.

Lemma firstn_skipn_shorter {A : Type} (n : nat) (l : list A) (x : A) (t : list A) :
  firstn n l = x :: t -> List.length (skipn n l) < List.length l.
Proof.
  intros H. destruct n as [|n]; [discriminate|].
  destruct l as [|y l]; [discriminate|].
  cbn [skipn List.length]. pose proof (length_skipn n l). lia.
Qed.

Lemma firstn_nil_inv {A : Type} (n : nat) (l : list A) :
  0 < n -> firstn n l = [] -> l = [].
Proof. intros Hn H. destruct n; [lia|]. destruct l; [reflexivity|discriminate]. Qed.

Lemma all_ready_tl (steps : list ReadStep) :
  all_ready steps = true -> all_ready (tl steps) = true.
Proof.
  destruct steps as [|s rest]; [reflexivity|]. cbn [all_ready forallb tl].
  intros H. apply andb_true_iff in H. apply H.
Qed.

(** With one more iteration than there are bytes, the loop never runs out. *)
Lemma pipe_never_blocks (size : nat) (Hsize : 0 < size) (fuel : nat) :
  forall (data : bytes) (steps : list ReadStep),
    List.length data < fuel -> pipe_outcome size fuel data steps <> Blocks.
Proof.
  induction fuel as [|fuel IH]; intros data steps Hfuel; [lia|].
  cbn [pipe_outcome].
  destruct steps as [|[more|e] rest]; try discriminate;
    match goal with
    | |- context [firstn ?n data] =>
      destruct (firstn n data) as [|b chunk] eqn:Hchunk; [discriminate|];
      apply IH; apply firstn_skipn_shorter in Hchunk; lia
    end.
Qed.

(** One iteration of the loop on a pipe whose reads all succeed. *)
Lemma pipe_drained_step (size fuel n : nat) (data : bytes) (steps : list ReadStep) :
  0 < n <= size ->
  List.length data < S fuel ->
  (forall data', List.length data' < fuel ->
     pipe_outcome size fuel data' (tl steps) = Returns tt /\
     concat (pipe_chunks size fuel data' (tl steps)) = data' /\
     fst (pipe_left size fuel data' (tl steps)) = [] /\
     Forall (fun chunk => chunk <> [] /\ List.length chunk <= size)
            (pipe_chunks size fuel data' (tl steps))) ->
  match firstn n data with
  | [] => Returns tt
  | _ :: _ => pipe_outcome size fuel (skipn n data) (tl steps)
  end = Returns tt /\
  concat match firstn n data with
         | [] => []
         | b :: chunk => (b :: chunk) :: pipe_chunks size fuel (skipn n data) (tl steps)
         end = data /\
  fst match firstn n data with
      | [] => (skipn n data, tl steps)
      | _ :: _ => pipe_left size fuel (skipn n data) (tl steps)
      end = [] /\
  Forall (fun chunk => chunk <> [] /\ List.length chunk <= size)
         match firstn n data with
         | [] => []
         | b :: chunk => (b :: chunk) :: pipe_chunks size fuel (skipn n data) (tl steps)
         end.
Proof.
  intros Hn Hfuel IH. destruct (firstn n data) as [|b chunk] eqn:Hchunk.
  - apply firstn_nil_inv in Hchunk; [|lia]. subst data.
    repeat split; try constructor. now rewrite skipn_nil.
  - pose proof (firstn_skipn_shorter _ _ _ _ Hchunk) as Hshort.
    destruct (IH (skipn n data)) as (Ho & Hc & Hl & Hb); [lia|].
    repeat split; auto.
    + cbn [concat]. rewrite Hc, <- Hchunk. apply firstn_skipn.
    + constructor; [|exact Hb]. split; [discriminate|].
      rewrite <- Hchunk, length_firstn. lia.
Qed.

(** When no read fails, the loop takes the whole output, in pieces that are
    neither empty nor longer than the size asked for. *)
Lemma pipe_drained (size : nat) (Hsize : 0 < size) (fuel : nat) :
  forall (data : bytes) (steps : list ReadStep),
    all_ready steps = true ->
    List.length data < fuel ->
    pipe_outcome size fuel data steps = Returns tt /\
    concat (pipe_chunks size fuel data steps) = data /\
    fst (pipe_left size fuel data steps) = [] /\
    Forall (fun chunk => chunk <> [] /\ List.length chunk <= size)
           (pipe_chunks size fuel data steps).
Proof.
  induction fuel as [|fuel IH]; intros data steps Hready Hfuel; [lia|].
  cbn [pipe_outcome pipe_chunks pipe_left].
  destruct steps as [|[more|e] rest]; [| |discriminate].
  - apply (pipe_drained_step size fuel _ data []);
      [now apply granted_at_least_one | lia | intros; now apply IH].
  - apply (pipe_drained_step size fuel _ data (Ready more :: rest));
      [now apply granted_at_least_one | lia |].
    intros. apply IH; [|assumption]. now apply (all_ready_tl (Ready more :: rest)).
Qed.
(** * The request handler *)

#[local] Arguments lit : simpl never.
#[local] Arguments str_of_int : simpl never.


Ltac unfold_py :=
  unfold with_lock, try_finally, try_except, bind, acquire, release, emit, ret,
         raise, get_current_process, poll, set_current_process, thread_start.

Lemma polled_locked (p : Popen) (b : bool) (w : World) :
  polled p (set_lock b w) = polled p w.
Proof. reflexivity. Qed.

Lemma welcome_emitted (m : option pystr) (w : World) :
  (if truthy m then
     match m with
     | Some msg => emit (console_output (lit "[" ++ msg ++ lit "]" ++ [LF]))
     | None => ret tt
     end
   else ret tt) w
  = (Returns tt, set_emitted (emitted w ++ welcome_events m) w).
Proof.
  destruct m as [[|ch msg]|]; cbn [truthy welcome_events]; unfold ret, emit;
    rewrite ?app_nil_r; unfold_world; try reflexivity; f_equal; apply world_eta.
Qed.

Lemma submit_busy (h : Host) (j : Job) (w : World) :
  process_lock w = false -> busy w = true ->
  submit h j w = (Returns tt, set_emitted (emitted w ++ [busy_event]) w).
Proof.
  intros Hlock Hbusy. unfold submit, start_process_and_stream.
  unfold busy in Hbusy. unfold_py. rewrite Hlock.
  cbn [current_process set_lock].
  destruct (current_process w) as [p|] eqn:Hcur; [|discriminate].
  rewrite polled_locked, Hbusy. unfold_world. rewrite Hlock. reflexivity.
Qed.

Lemma polled_spawned (p : Popen) (w : World) (o : PopenObj) (code : Z) :
  polled p w = Some code -> nth_error (popens w ++ [o]) p = nth_error (popens w) p.
Proof.
  unfold polled. intros H. destruct (nth_error (popens w) p) eqn:Hp; [|discriminate].
  rewrite nth_error_app1; [assumption|]. apply nth_error_Some. congruence.
Qed.

Lemma not_busy_cases (w : World) :
  busy w = false ->
  current_process w = None \/
  exists p code, current_process w = Some p /\ polled p w = Some code.
Proof.
  unfold busy. destruct (current_process w) as [p|]; [|now left].
  destruct (polled p w) as [code|] eqn:Hp; [|discriminate].
  intros _. right. now exists p, code.
Qed.

Lemma busy_same (w w' : World) :
  current_process w' = current_process w -> popens w' = popens w ->
  busy w' = busy w.
Proof. intros Hc Hp. unfold busy, polled. now rewrite Hc, Hp. Qed.

(** The request whose command cannot be started. *)
Lemma submit_spawn_failed (h : Host) (j : Job) (w : World) (e : exn) :
  process_lock w = false -> busy w = false ->
  spawn h (command j) = inl e ->
  submit h j w =
  (Returns tt,
   {| process_lock := false; current_process := None;
      emitted := emitted w ++ console_clear :: welcome_events (welcome_msg j)
                           ++ [spawn_failure_event e];
      popens := popens w; files := files w; timers := timers w;
      threads := threads w;
      slot_log := slot_log w ++ [{| locked := true; prior := current_process w;
                                    prior_active := None; assigned := None |}] |}).
Proof.
  intros Hlock Hbusy Hspawn. unfold submit, start_process_and_stream.
  unfold with_lock, try_finally, acquire. unfold bind at 1 2. rewrite Hlock.
  unfold bind at 1. unfold get_current_process. cbn [current_process set_lock].
  assert (Hrun : forall w',
    current_process w' = current_process w -> popens w' = popens w ->
    match current_process w with
    | Some p => code <- poll p;; ret (is_none code)
    | None => ret false
    end w' = (Returns false, w')).
  { intros w' Hc Hp. destruct (not_busy_cases w Hbusy) as [Hn|(p & code & Hcur & Hpoll)].
    - now rewrite Hn.
    - rewrite Hcur. unfold bind, poll, ret. unfold polled in *. rewrite Hp, Hpoll.
      reflexivity. }
  unfold bind at 1. rewrite Hrun by reflexivity.
  unfold bind at 1. unfold emit at 1.
  unfold bind at 1. rewrite welcome_emitted.
  unfold try_except, subprocess_Popen. unfold bind at 1. rewrite Hspawn.
  unfold_py. unfold_world. cbn [process_lock].
  unfold active. rewrite (busy_same w) by reflexivity. rewrite Hbusy.
  unfold spawn_failure_event. rewrite <- !app_assoc. reflexivity.
Qed.

(** The request whose command starts. *)
Lemma submit_started (h : Host) (j : Job) (w : World) (c : Child) :
  process_lock w = false -> busy w = false ->
  spawn h (command j) = inr c ->
  submit h j w =
  (Returns tt,
   {| process_lock := false;
      current_process := Some (List.length (popens w));
      emitted := emitted w ++ console_clear :: welcome_events (welcome_msg j);
      popens := popens w ++
                [fresh c (List.length
                            (emitted w ++ console_clear :: welcome_events (welcome_msg j)))];
      files := files w; timers := timers w;
      threads := threads w ++ [{| t_proc := Some (List.length (popens w));
                                  t_stdin := stdin_data j;
                                  t_end_file := end_file j |}];
      slot_log := slot_log w ++ [{| locked := true; prior := current_process w;
                                    prior_active := None;
                                    assigned := Some (List.length (popens w)) |}] |}).
Proof.
  intros Hlock Hbusy Hspawn. unfold submit, start_process_and_stream.
  unfold with_lock, try_finally, acquire. unfold bind at 1 2. rewrite Hlock.
  unfold bind at 1. unfold get_current_process. cbn [current_process set_lock].
  assert (Hrun : forall w',
    current_process w' = current_process w -> popens w' = popens w ->
    match current_process w with
    | Some p => code <- poll p;; ret (is_none code)
    | None => ret false
    end w' = (Returns false, w')).
  { intros w' Hc Hp. destruct (not_busy_cases w Hbusy) as [Hn|(p & code & Hcur & Hpoll)].
    - now rewrite Hn.
    - rewrite Hcur. unfold bind, poll, ret. unfold polled in *. rewrite Hp, Hpoll.
      reflexivity. }
  unfold bind at 1. rewrite Hrun by reflexivity.
  unfold bind at 1. unfold emit at 1.
  unfold bind at 1. rewrite welcome_emitted.
  unfold try_except, subprocess_Popen. unfold bind at 1. rewrite Hspawn.
  unfold_py. unfold_world. cbn [process_lock].
  assert (Hb : busy {| process_lock := true; current_process := current_process w;
                       emitted := (emitted w ++ [console_clear]) ++ welcome_events (welcome_msg j);
                       popens := popens w ++ [fresh c (List.length ((emitted w ++ [console_clear]) ++ welcome_events (welcome_msg j)))];
                       files := files w; timers := timers w; threads := threads w;
                       slot_log := slot_log w |} = false).
  { unfold busy, polled. cbn [current_process popens].
    destruct (not_busy_cases w Hbusy) as [Hn|(p & code & Hcur & Hpoll)].
    - now rewrite Hn.
    - rewrite Hcur, (polled_spawned _ _ _ _ Hpoll). unfold polled in Hpoll.
      destruct (nth_error (popens w) p); [|discriminate]. now rewrite Hpoll. }
  unfold active. rewrite Hb. rewrite <- !app_assoc. reflexivity.
Qed.

(** * Computations that leave the slot alone *)

Lemma fixed_delay_app (a b : list (pystr * N)) :
  fixed_delay a -> fixed_delay b -> fixed_delay (a ++ b).
Proof. intros Ha Hb. apply Forall_app. now split. Qed.

Lemma slot_untouched_refl (w : World) : slot_untouched w w.
Proof.
  repeat split. exists []. split; [now rewrite app_nil_r | constructor].
Qed.

Lemma slot_untouched_trans (w1 w2 w3 : World) :
  slot_untouched w1 w2 -> slot_untouched w2 w3 -> slot_untouched w1 w3.
Proof.
  intros (Hl & Hc & Hs & Ht & a & Ha & Hfa) (Hl' & Hc' & Hs' & Ht' & b & Hb & Hfb).
  repeat split; try congruence.
  exists (a ++ b). split; [|now apply fixed_delay_app].
  now rewrite Hb, Ha, app_assoc.
Qed.

Lemma slot_untouched_fields (w w' : World) :
  process_lock w' = process_lock w ->
  current_process w' = current_process w ->
  slot_log w' = slot_log w ->
  threads w' = threads w ->
  timers w' = timers w ->
  slot_untouched w w'.
Proof.
  intros Hl Hc Hs Ht Hti. repeat split; try assumption.
  exists []. split; [now rewrite app_nil_r | constructor].
Qed.

Lemma slot_untouched_child_exits (p : Popen) (w : World) :
  slot_untouched w (child_exits p w).
Proof.
  unfold child_exits. destruct (nth_error (popens w) p) as [o|];
    [|apply slot_untouched_refl].
  destruct (returncode o); [apply slot_untouched_refl|].
  now apply slot_untouched_fields.
Qed.

Lemma quiet_ret {A : Type} (a : A) : quiet (ret a).
Proof. intros w. split; [discriminate | apply slot_untouched_refl]. Qed.

Lemma quiet_raise {A : Type} (e : exn) : quiet (@raise A e).
Proof. intros w. split; [discriminate | apply slot_untouched_refl]. Qed.

Lemma quiet_bind {A B : Type} (m : Py A) (k : A -> Py B) :
  quiet m -> (forall a, quiet (k a)) -> quiet (bind m k).
Proof.
  intros Hm Hk w. unfold bind. specialize (Hm w).
  destruct (m w) as [[a|e|] w1]; cbn [fst snd] in *.
  - destruct (Hk a w1) as [Hnb Hfr]. split; [exact Hnb|].
    eapply slot_untouched_trans; [apply Hm | exact Hfr].
  - split; [discriminate | apply Hm].
  - now destruct Hm.
Qed.

Lemma quiet_try_except {A : Type} (body : Py A) (handler : exn -> Py A) :
  quiet body -> (forall e, quiet (handler e)) -> quiet (try_except body handler).
Proof.
  intros Hm Hk w. unfold try_except. specialize (Hm w).
  destruct (body w) as [[a|e|] w1]; cbn [fst snd] in *.
  - split; [discriminate | apply Hm].
  - destruct (Hk e w1) as [Hnb Hfr]. split; [exact Hnb|].
    eapply slot_untouched_trans; [apply Hm | exact Hfr].
  - now destruct Hm.
Qed.

Lemma quiet_emit (ev : Event) : quiet (emit ev).
Proof. intros w. split; [discriminate | now apply slot_untouched_fields]. Qed.

Lemma quiet_attribute (proc : option Popen) (name : string) :
  quiet (attribute proc name).
Proof. destruct proc; [apply quiet_ret | apply quiet_raise]. Qed.

Lemma quiet_stdin_write (p : Popen) (data : bytes) : quiet (stdin_write p data).
Proof.
  intros w. unfold stdin_write. destruct (nth_error (popens w) p) as [o|].
  - destruct (stdin_write_error (child o)); (split; [discriminate|]);
      now apply slot_untouched_fields.
  - split; [discriminate | apply slot_untouched_refl].
Qed.

Lemma quiet_stdin_close (p : Popen) : quiet (stdin_close p).
Proof.
  intros w. unfold stdin_close. destruct (nth_error (popens w) p) as [o|].
  - destruct (stdin_close_error (child o)); (split; [discriminate|]);
      now apply slot_untouched_fields.
  - split; [discriminate | apply slot_untouched_refl].
Qed.

Lemma quiet_wait (p : Popen) : quiet (wait p).
Proof.
  intros w. unfold wait. destruct (nth_error (popens w) p) as [o|].
  - destruct (wait_error (child o)); (split; [discriminate|]).
    + apply slot_untouched_refl.
    + apply slot_untouched_child_exits.
  - split; [discriminate | apply slot_untouched_refl].
Qed.

Lemma quiet_os_path_exists (path : pystr) : quiet (os_path_exists path).
Proof. intros w. split; [discriminate | apply slot_untouched_refl]. Qed.

Lemma quiet_str_add (a : option pystr) (b : pystr) : quiet (str_add a b).
Proof. destruct a; [apply quiet_ret | apply quiet_raise]. Qed.

Lemma quiet_delayed_remove (path : pystr) : quiet (delayed_remove path 30).
Proof.
  intros w. split; [discriminate|]. repeat split.
  exists [(path, 30%N)]. split; [reflexivity|]. now repeat constructor.
Qed.

Lemma quiet_drain (p : Popen) : quiet (drain p).
Proof.
  intros w. unfold drain. destruct (nth_error (popens w) p) as [o|] eqn:Hp.
  - rewrite (read_loop_pipe _ _ _ _ Hp). cbn [fst snd]. split.
    + apply pipe_never_blocks; lia.
    + now apply slot_untouched_fields.
  - cbn [read_loop]. unfold bind, stdout_read. rewrite Hp. cbn [fst snd].
    split; [discriminate | apply slot_untouched_refl].
Qed.

Create HintDb quiet.
#[local] Hint Resolve quiet_ret quiet_raise quiet_emit quiet_attribute
  quiet_stdin_write quiet_stdin_close quiet_wait quiet_os_path_exists
  quiet_str_add quiet_delayed_remove quiet_drain : quiet.

Ltac quiet_steps :=
  repeat first
    [ solve [auto with quiet]
    | match goal with
      | |- quiet (bind _ _) => apply quiet_bind; [|intros ?]
      | |- quiet (try_except _ _) => apply quiet_try_except; [|intros ?]
      | |- quiet (match ?x with _ => _ end) => destruct x
      end ].

(** * The worker *)

(** Whatever happens in its body, the worker ends by emptying the slot, under
    the lock, once. *)
Lemma stream_output_releases
    (h : Host) (proc : option Popen) (stdin : option bytes)
    (end_file : option pystr) (w : World) :
  process_lock w = false ->
  let r := stream_output h proc stdin end_file w in
  fst r <> Blocks /\
  process_lock (snd r) = false /\
  current_process (snd r) = None /\
  threads (snd r) = threads w /\
  (exists held,
      slot_log (snd r) =
      slot_log w ++ [{| locked := true; prior := current_process w;
                        prior_active := held; assigned := None |}]) /\
  (exists added, timers (snd r) = timers w ++ added /\ fixed_delay added).
Proof.
  intros Hlock. unfold stream_output.
  match goal with
  | |- context [try_finally ?b _] => assert (Hq : quiet b) by quiet_steps; set (body := b) in *
  end.
  destruct (Hq w) as [Hnb (Hl & Hc & Hs & Ht & Hti)].
  cbv zeta. unfold try_finally.
  destruct (body w) as [[[]|e|] w1]; cbn [fst snd] in *; try congruence;
    unfold_py; rewrite Hl, Hlock; unfold_world; cbn [fst snd];
    rewrite Hc, Hs, Ht;
    (split; [discriminate|]); repeat split; try assumption; eexists; reflexivity.
Qed.
(** * Evaluating the worker *)

#[local] Arguments lit : simpl never.
#[local] Arguments str_of_int : simpl never.

Lemma bind_returns {A B : Type} (m : Py A) (k : A -> Py B) (w w' : World) (a : A) :
  m w = (Returns a, w') -> bind m k w = k a w'.
Proof. intros H. unfold bind. now rewrite H. Qed.

Lemma bind_raises {A B : Type} (m : Py A) (k : A -> Py B) (w w' : World) (e : exn) :
  m w = (Raises e, w') -> bind m k w = (Raises e, w').
Proof. intros H. unfold bind. now rewrite H. Qed.

Lemma feed_stdin_run (p : Popen) (stdin : option bytes) (w : World) (o : PopenObj) :
  nth_error (popens w) p = Some o ->
  match stdin with
  | Some data =>
    pipe <- attribute (Some p) "stdin" ;;
    try_except
      (stdin_write pipe data ;;
       stdin_close pipe)
      (fun e =>
         emit (console_output
                 (lit "[error writing to stdin: " ++ e ++ lit "]" ++ [LF])))
  | None => ret tt
  end w
  = (Returns tt,
     set_emitted (emitted w ++ stdin_events stdin (child o))
                 (set_child_state p (fed stdin o) w)).
Proof.
  intros Hp. destruct stdin as [data|]; cbn [stdin_events fed].
  - cbn [attribute]. rewrite (bind_returns _ _ w w p) by reflexivity.
    unfold try_except, bind, stdin_write, stdin_error. rewrite Hp.
    destruct (stdin_write_error (child o)) as [e|].
    + unfold emit, stdin_failure_event. unfold_world.
      now rewrite (replace_nth_same _ _ _ Hp).
    + unfold stdin_close. unfold_world.
      rewrite (nth_error_replace_nth _ _ _ _ Hp). cbn [wrote child].
      destruct (stdin_close_error (child o)) as [e|].
      * unfold emit, stdin_failure_event. unfold_world. reflexivity.
      * unfold_world. now rewrite replace_nth_twice, app_nil_r.
  - unfold ret. unfold_world.
    rewrite app_nil_r, (replace_nth_same _ _ _ Hp). f_equal. apply world_eta.
Qed.

(** Feeding stdin never ends the worker: whether [write] and [close]
    succeed or raise, what follows is the worker that has nothing to feed,
    run from the state the feeding leaves. *)
Lemma stdin_step_never_aborts
    (h : Host) (p : Popen) (data : bytes) (end_file : option pystr)
    (w : World) (o : PopenObj) :
  nth_error (popens w) p = Some o ->
  stream_output h (Some p) (Some data) end_file w =
  stream_output h (Some p) None end_file
    (set_emitted (emitted w ++ stdin_events (Some data) (child o))
                 (set_child_state p (fed (Some data) o) w)).
Proof.
  intros Hp. unfold stream_output, try_finally.
  rewrite (bind_returns _ _ _ _ _ (feed_stdin_run p (Some data) w o Hp)).
  unfold bind at 4. unfold ret at 3. reflexivity.
Qed.

Lemma fed_pipe (stdin : option bytes) (o : PopenObj) :
  unread (fed stdin o) = unread o /\ reads (fed stdin o) = reads o /\
  child (fed stdin o) = child o /\ returncode (fed stdin o) = returncode o /\
  spawned_after (fed stdin o) = spawned_after o.
Proof.
  destruct stdin as [data|]; cbn [fed]; [|now repeat split].
  destruct (stdin_write_error (child o)); [now repeat split|].
  destruct (stdin_close_error (child o)); now repeat split.
Qed.

Lemma announce_run (h : Host) (end_file : option pystr) (w : World) :
  (if truthy end_file then
     match end_file with
     | Some path =>
       present <- os_path_exists path ;;
       if present then
         url <- str_add (TARGET_URL h) path ;;
         emit (open_url url) ;;
         delayed_remove path 30
       else ret tt
     | None => ret tt
     end
   else ret tt) w
  = (artifact_outcome (TARGET_URL h) (artifact_found end_file (files w)),
     set_timers
       (timers w ++ artifact_timers (TARGET_URL h) (artifact_found end_file (files w)))
       (set_emitted
          (emitted w ++ artifact_events (TARGET_URL h) (artifact_found end_file (files w)))
          w)).
Proof.
  assert (Hw : set_timers (timers w ++ []) (set_emitted (emitted w ++ []) w) = w).
  { unfold_world. rewrite !app_nil_r. symmetry. apply world_eta. }
  assert (Hnone : (Returns tt, w)
    = (@Returns unit tt, set_timers (timers w ++ []) (set_emitted (emitted w ++ []) w))).
  { now rewrite Hw. }
  unfold artifact_found.
  destruct end_file as [path|]; [|exact Hnone].
  destruct (truthy (Some path)); [|exact Hnone].
  unfold bind, os_path_exists.
  destruct (in_dec pystr_eq_dec path (files w)); [|exact Hnone].
  cbn [artifact_outcome artifact_events artifact_timers].
  destruct (TARGET_URL h) as [base|]; cbn [str_add].
  - unfold ret, emit, delayed_remove. unfold_world. reflexivity.
  - unfold raise. now rewrite Hw.
Qed.

Lemma artifact_outcome_not_blocks (url found : option pystr) :
  artifact_outcome url found <> Blocks.
Proof. destruct found, url; discriminate. Qed.

(** A run of the worker in which no [read] and no [wait] fails. *)
Lemma stream_output_run
    (h : Host) (p : Popen) (stdin : option bytes) (end_file : option pystr)
    (w : World) (o : PopenObj) :
  nth_error (popens w) p = Some o ->
  process_lock w = false ->
  all_ready (reads o) = true ->
  wait_error (child o) = None ->
  let fuel := S (List.length (unread o)) in
  let found := artifact_found end_file (files_after o (files w)) in
  exists held,
    stream_output h (Some p) stdin end_file w =
    (artifact_outcome (TARGET_URL h) found,
     {| process_lock := false; current_process := None;
        emitted := emitted w ++ stdin_events stdin (child o)
                     ++ stream_events (pipe_chunks 4096 fuel (unread o) (reads o))
                     ++ exit_event (exit_status (child o))
                     :: artifact_events (TARGET_URL h) found;
        popens := replace_nth p
                    (reaped (piped (pipe_left 4096 fuel (unread o) (reads o))
                                   (fed stdin o)))
                    (popens w);
        files := files_after o (files w);
        timers := timers w ++ artifact_timers (TARGET_URL h) found;
        threads := threads w;
        slot_log := slot_log w ++ [{| locked := true; prior := current_process w;
                                      prior_active := held;
                                      assigned := None |}] |}).
Proof.
  intros Hp Hlock Hready Hwait fuel found.
  destruct (fed_pipe stdin o) as (Hfu & Hfr & Hfc & Hfrc & _).
  destruct (pipe_drained 4096 ltac:(lia) fuel (unread o) (reads o) Hready ltac:(lia))
    as (Hout & _).
  unfold stream_output, try_finally.
  rewrite (bind_returns _ _ _ _ _ (feed_stdin_run p stdin w o Hp)).
  cbn [attribute]. unfold bind at 1. unfold ret at 1.
  unfold bind at 1. unfold drain.
  unfold_world. rewrite (nth_error_replace_nth _ _ _ _ Hp).
  erewrite read_loop_pipe
    by (unfold_world; apply (nth_error_replace_nth _ _ _ _ Hp)).
  rewrite Hfu, Hfr. fold fuel. rewrite Hout.
  unfold bind at 1. unfold ret at 1.
  unfold bind at 1. unfold wait. unfold_world.
  rewrite replace_nth_twice, (nth_error_replace_nth _ _ _ _ Hp).
  cbn [piped child]. rewrite Hfc, Hwait.
  unfold bind at 1. unfold emit at 1.
  unfold child_exits. unfold_world.
  rewrite (nth_error_replace_nth _ _ _ _ Hp).
  cbn [piped returncode child]. rewrite Hfrc, Hfc.
  subst found. unfold files_after, reaped. cbn [piped returncode]. rewrite Hfrc.
  destruct (returncode o) as [code|] eqn:Hrc; unfold_world;
    rewrite announce_run; unfold_world; fold (exit_event (exit_status (child o)));
    rewrite ?replace_nth_twice;
    (destruct (artifact_outcome (TARGET_URL h) _) eqn:Hend;
     [ | | now apply artifact_outcome_not_blocks in Hend ];
     unfold_py; unfold_world; rewrite Hlock; unfold_world;
     eexists; rewrite <- !app_assoc; reflexivity).
Qed.


(** * One job from the request to the end of its worker *)

Lemma events_since_app (w w' : World) (evs : list Event) :
  emitted w' = emitted w ++ evs -> events_since w w' = evs.
Proof.
  intros H. unfold events_since. rewrite H, skipn_app, skipn_all, Nat.sub_diag.
  reflexivity.
Qed.

Lemma slot_writes_since_app (w w' : World) (log : list SlotWrite) :
  slot_log w' = slot_log w ++ log -> slot_writes_since w w' = log.
Proof.
  intros H. unfold slot_writes_since. rewrite H, skipn_app, skipn_all, Nat.sub_diag.
  reflexivity.
Qed.

(** The worker of a job that was just started, when no [read] and no [wait]
    fails. *)
Lemma job_worker_run (h : Host) (j : Job) (w : World) (c : Child) :
  process_lock w = false -> busy w = false -> threads w = [] ->
  spawn h (command j) = inr c ->
  all_ready (delivery c) = true ->
  wait_error c = None ->
  let n := List.length (emitted w ++ console_clear :: welcome_events (welcome_msg j)) in
  let found := artifact_found (end_file j) (files w ++ creates c) in
  exists held,
    run_worker h (snd (submit h j w)) =
    (artifact_outcome (TARGET_URL h) found,
     {| process_lock := false; current_process := None;
        emitted := emitted w ++ console_clear :: welcome_events (welcome_msg j)
                     ++ stdin_events (stdin_data j) c
                     ++ stream_events (chunks_of c)
                     ++ exit_event (exit_status c)
                     :: artifact_events (TARGET_URL h) found;
        popens := popens w ++
                  [reaped (piped (pipe_left 4096 (S (List.length (output c)))
                                            (output c) (delivery c))
                                 (fed (stdin_data j) (fresh c n)))];
        files := files w ++ creates c;
        timers := timers w ++ artifact_timers (TARGET_URL h) found;
        threads := [];
        slot_log := slot_log w ++
                    [{| locked := true; prior := current_process w;
                        prior_active := None;
                        assigned := Some (List.length (popens w)) |};
                     {| locked := true; prior := Some (List.length (popens w));
                        prior_active := held; assigned := None |}] |}).
Proof.
  intros Hlock Hbusy Hthreads Hspawn Hready Hwait n found.
  rewrite (submit_started h j w c Hlock Hbusy Hspawn). cbn [snd].
  unfold run_worker. cbn [threads]. rewrite Hthreads. cbn [app t_proc t_stdin t_end_file].
  fold n.
  match goal with
  | |- context [stream_output h _ _ _ ?w1] =>
    destruct (stream_output_run h (List.length (popens w)) (stdin_data j) (end_file j)
                                w1 (fresh c n)) as [held Hrun];
      [ apply nth_error_fresh | reflexivity | exact Hready | exact Hwait | ]
  end.
  exists held. etransitivity; [exact Hrun|]. unfold_world. cbn [fresh child unread reads files_after returncode].
  subst found. rewrite replace_nth_fresh, <- !app_assoc. reflexivity.
Qed.


Lemma run_job_unfold (h : Host) (j : Job) (w : World) :
  run_job h j w = snd (run_worker h (snd (submit h j w))).
Proof. reflexivity. Qed.

(** A request that finds the slot free is taken on; one that finds it busy
    is not. *)
Lemma free_slot_accepts (h : Host) (j : Job) (w : World) :
  process_lock w = false -> busy w = false -> accepted h j w.
Proof.
  intros Hlock Hbusy. unfold accepted.
  destruct (spawn h (command j)) as [e|c] eqn:Hspawn.
  - rewrite (submit_spawn_failed h j w e Hlock Hbusy Hspawn). cbn [snd].
    eexists. apply events_since_app. cbn [emitted]. reflexivity.
  - rewrite (submit_started h j w c Hlock Hbusy Hspawn). cbn [snd].
    eexists. apply events_since_app. cbn [emitted]. reflexivity.
Qed.

Lemma busy_slot_rejects (h : Host) (j : Job) (w : World) :
  process_lock w = false -> busy w = true -> ~ accepted h j w.
Proof.
  intros Hlock Hbusy [rest H].
  rewrite (submit_busy h j w Hlock Hbusy) in H. cbn [snd] in H.
  rewrite (events_since_app w _ [busy_event]) in H by reflexivity.
  discriminate H.
Qed.

(** * The claims *)

Lemma empty_slot_not_busy (w : World) : current_process w = None -> busy w = false.
Proof. intros H. unfold busy. now rewrite H. Qed.

(** C1: for every accepted job the slot is released when the job's run ends:
    [current_process] is [None] again, it was emptied exactly once in that
    run and under the lock, whether the command failed to start or the
    worker's body returned or raised (any child, any host), and the next
    request is taken on; and a worker run from any state in which the lock
    is free ends, with the lock free again and the slot emptied once. *)
Theorem slot_released_after_every_job (h : Host) (j : Job) (w : World) :
  process_lock w = false -> busy w = false -> threads w = [] ->
  let w' := run_job h j w in
  fst (submit h j w) = Returns tt /\
  fst (run_worker h (snd (submit h j w))) <> Blocks /\
  current_process w' = None /\
  process_lock w' = false /\
  threads w' = [] /\
  releases (slot_writes_since w w') = 1 /\
  Forall (fun e => locked e = true) (slot_writes_since w w') /\
  (forall j', accepted h j' w') /\
  (forall proc stdin file w0,
      process_lock w0 = false ->
      let r := stream_output h proc stdin file w0 in
      fst r <> Blocks /\ current_process (snd r) = None /\
      process_lock (snd r) = false /\
      releases (slot_writes_since w0 (snd r)) = 1).
Proof.
  intros Hlock Hbusy Hthreads w'. subst w'. rewrite run_job_unfold.
  cut (forall proc stdin file w0,
      process_lock w0 = false ->
      let r := stream_output h proc stdin file w0 in
      fst r <> Blocks /\ current_process (snd r) = None /\
      process_lock (snd r) = false /\
      releases (slot_writes_since w0 (snd r)) = 1).
  2:{ intros proc stdin file w0 Hfree.
      destruct (stream_output_releases h proc stdin file w0 Hfree)
        as (Hnb & Hl & Hc & _ & (held & Hlog) & _).
      cbv zeta. rewrite (slot_writes_since_app _ _ _ Hlog). now repeat split. }
  intros Hworker.
  destruct (spawn h (command j)) as [e|c] eqn:Hspawn.
  - rewrite (submit_spawn_failed h j w e Hlock Hbusy Hspawn). cbn [fst snd].
    unfold run_worker. cbn [threads]. rewrite Hthreads. cbn [fst snd].
    erewrite slot_writes_since_app by (cbn [slot_log]; reflexivity).
    repeat split; try discriminate; try apply Hworker; try assumption.
    + repeat constructor.
    + intros j'. now apply free_slot_accepts.
  - rewrite (submit_started h j w c Hlock Hbusy Hspawn). cbn [fst snd].
    unfold run_worker. cbn [threads]. rewrite Hthreads.
    cbn [app t_proc t_stdin t_end_file].
    match goal with
    | |- context [stream_output h ?p ?s ?f ?w1] =>
      destruct (stream_output_releases h p s f w1 eq_refl)
        as (Hnb & Hl & Hc & Ht & (held & Hlog) & _);
      set (r := stream_output h p s f w1) in *
    end.
    cbn [threads set_threads slot_log current_process] in Ht, Hlog.
    erewrite slot_writes_since_app
      by (rewrite Hlog, <- app_assoc; reflexivity).
    repeat split; try assumption; try apply Hworker; try assumption.
    + repeat constructor.
    + intros j'. apply free_slot_accepts; [assumption|].
      now apply empty_slot_not_busy.
Qed.

(** C1 at a concrete job, whose child breaks the stdin pipe and then the
    output pipe. *)
Lemma slot_released_after_flaky_job :
  let h := sample_host None None in
  let w' := run_job h cat_job boot in
  fst (submit h cat_job boot) = Returns tt /\
  fst (run_worker h (snd (submit h cat_job boot))) <> Blocks /\
  current_process w' = None /\
  process_lock w' = false /\
  threads w' = [] /\
  releases (slot_writes_since boot w') = 1 /\
  Forall (fun e => locked e = true) (slot_writes_since boot w') /\
  (forall j', accepted h j' w') /\
  (forall proc stdin file w0,
      process_lock w0 = false ->
      let r := stream_output h proc stdin file w0 in
      fst r <> Blocks /\ current_process (snd r) = None /\
      process_lock (snd r) = false /\
      releases (slot_writes_since w0 (snd r)) = 1).
Proof.
  exact (slot_released_after_every_job (sample_host None None) cat_job boot
           eq_refl eq_refl eq_refl).
Defined.

(** What every step of the server keeps: between steps the lock is free,
    the slot was only ever written under the lock and only ever given a
    process when free, and every timer runs for 30 s. *)
Lemma perform_keeps (h : Host) (a : Action) (w : World) :
  process_lock w = false /\
  Forall (fun e => locked e = true /\ taken_when_free e) (slot_log w) /\
  fixed_delay (timers w) ->
  process_lock (perform h a w) = false /\
  Forall (fun e => locked e = true /\ taken_when_free e) (slot_log (perform h a w)) /\
  fixed_delay (timers (perform h a w)).
Proof.
  intros (Hlock & Hlog & Htimers). destruct a as [j| |p|]; cbn [perform].
  - destruct (busy w) eqn:Hbusy.
    + rewrite (submit_busy h j w Hlock Hbusy). now repeat split.
    + destruct (spawn h (command j)) as [e|c] eqn:Hspawn.
      * rewrite (submit_spawn_failed h j w e Hlock Hbusy Hspawn).
        cbn [snd process_lock slot_log timers]. repeat split; try assumption.
        apply Forall_app. split; [assumption|]. constructor; [|constructor].
        split; [reflexivity|]. intros H. now contradiction H.
      * rewrite (submit_started h j w c Hlock Hbusy Hspawn).
        cbn [snd process_lock slot_log timers]. repeat split; try assumption.
        apply Forall_app. split; [assumption|]. constructor; [|constructor].
        split; [reflexivity|]. intros _. now split.
  - unfold run_worker. destruct (threads w) as [|t rest]; [now repeat split|].
    destruct (stream_output_releases h (t_proc t) (t_stdin t) (t_end_file t)
                                     (set_threads rest w) Hlock)
      as (_ & Hl & _ & _ & (held & Hlog') & (added & Hadd & Hfixed)).
    repeat split.
    + exact Hl.
    + rewrite Hlog'. apply Forall_app. split; [exact Hlog|].
      constructor; [|constructor].
      split; [reflexivity|]. intros H. now contradiction H.
    + rewrite Hadd. now apply fixed_delay_app.
  - destruct (slot_untouched_child_exits p w) as (Hl & _ & Hs & _ & added & Hadd & Hfixed).
    repeat split.
    + congruence.
    + now rewrite Hs.
    + rewrite Hadd. now apply fixed_delay_app.
  - unfold timer_fires. destruct (timers w) as [|[path delay] rest] eqn:Ht;
      cbn [snd]; [repeat split; try assumption; now rewrite Ht|].
    repeat split; try assumption. cbn [timers set_files set_timers].
    now inversion Htimers.
Qed.

Lemma run_keeps (h : Host) (acts : list Action) :
  forall w,
    process_lock w = false /\
    Forall (fun e => locked e = true /\ taken_when_free e) (slot_log w) /\
    fixed_delay (timers w) ->
    process_lock (run h acts w) = false /\
    Forall (fun e => locked e = true /\ taken_when_free e) (slot_log (run h acts w)) /\
    fixed_delay (timers (run h acts w)).
Proof.
  induction acts as [|a acts IH]; intros w Hw; [exact Hw|].
  cbn [run fold_left]. apply IH. now apply perform_keeps.
Qed.

Lemma boot_keeps :
  process_lock boot = false /\
  Forall (fun e => locked e = true /\ taken_when_free e) (slot_log boot) /\
  fixed_delay (timers boot).
Proof. repeat split; constructor. Qed.

(** C2, as the code has it: the slot is one variable, so at any instant at
    most one process occupies it; in every state the server can reach, every
    assignment to the slot was made with [process_lock] held, and every
    assignment of a process to it was made at a moment when no running job
    occupied it, that is when it was empty or held the handle of a process
    that had already exited: the guard of line 295, evaluated at the instant
    of the assignment and under the same hold of the lock, was false. *)
Theorem slot_taken_only_when_free (h : Host) (acts : list Action) :
  let w := run h acts boot in
  (forall p q, active w = Some p -> active w = Some q -> p = q) /\
  process_lock w = false /\
  Forall (fun e => locked e = true) (slot_log w) /\
  Forall (fun e => assigned e <> None -> locked e = true /\ prior_active e = None)
         (slot_log w).
Proof.
  cbv zeta. destruct (run_keeps h acts boot boot_keeps) as (Hlock & Hlog & _).
  split; [congruence|]. split; [exact Hlock|]. split.
  - eapply Forall_impl; [|exact Hlog]. now intros e [He _].
  - eapply Forall_impl; [|exact Hlog]. now intros e [_ He].
Qed.

(** C2 as stated fails: a request that arrives after the first child has
    exited, and before its worker has emptied the slot, is taken on, and its
    process is assigned to the slot over the handle that is still there. *)
Lemma slot_taken_over_exited_process :
  let h := sample_host None None in
  let w1 := run h [Submit echo_job; Exit 0] boot in
  let w2 := run h [Submit echo_job; Exit 0; Submit echo_job] boot in
  reachable h w2 /\
  current_process w1 = Some 0 /\
  accepted h echo_job w1 /\
  current_process w2 = Some 1 /\
  last (slot_log w2) {| locked := false; prior := None; prior_active := None;
                        assigned := None |}
    = {| locked := true; prior := Some 0; prior_active := None; assigned := Some 1 |} /\
  ~ Forall taken_when_empty (slot_log w2).
Proof.
  cbv zeta. split; [eexists; reflexivity|]. split; [reflexivity|].
  split; [now apply free_slot_accepts|]. split; [reflexivity|].
  split; [reflexivity|].
  intros H. vm_compute in H.
  apply Forall_inv_tail, Forall_inv in H.
  destruct (H ltac:(discriminate)) as [_ Hprior]. discriminate Hprior.
Qed.

(** C3: when the command of an accepted job cannot be started, the request
    emits, after Clear and the welcome output, exactly one output that
    describes the failure, empties the slot and returns; no child and no
    worker exist (so nothing is written, drained or waited for), and the
    next request is taken on. *)
Theorem spawn_failure_reported_and_slot_released
    (h : Host) (j : Job) (w : World) (e : exn) :
  process_lock w = false -> busy w = false ->
  spawn h (command j) = inl e ->
  let w' := snd (submit h j w) in
  fst (submit h j w) = Returns tt /\
  events_since w w' =
    console_clear :: welcome_events (welcome_msg j)
      ++ [console_output (lit "Failed to start command: " ++ e ++ [LF])] /\
  current_process w' = None /\
  process_lock w' = false /\
  popens w' = popens w /\
  threads w' = threads w /\
  files w' = files w /\
  timers w' = timers w /\
  (threads w = [] -> run_job h j w = w') /\
  forall j', accepted h j' w'.
Proof.
  intros Hlock Hbusy Hspawn w'. subst w'.
  rewrite (submit_spawn_failed h j w e Hlock Hbusy Hspawn). cbn [fst snd].
  repeat split.
  - apply events_since_app. reflexivity.
  - intros Hthreads. rewrite run_job_unfold.
    rewrite (submit_spawn_failed h j w e Hlock Hbusy Hspawn). cbn [snd].
    unfold run_worker. cbn [threads]. now rewrite Hthreads.
  - intros j'. now apply free_slot_accepts.
Qed.

(** C3 at a concrete job: a command that does not exist. *)
Lemma missing_command_reported :
  let h := sample_host None None in
  let w' := snd (submit h missing_job boot) in
  fst (submit h missing_job boot) = Returns tt /\
  events_since boot w' =
    console_clear :: welcome_events (welcome_msg missing_job)
      ++ [console_output (lit "Failed to start command: "
                              ++ lit "[Errno 2] No such file or directory" ++ [LF])] /\
  current_process w' = None /\
  process_lock w' = false /\
  popens w' = popens boot /\
  threads w' = threads boot /\
  files w' = files boot /\
  timers w' = timers boot /\
  (threads boot = [] -> run_job h missing_job boot = w') /\
  forall j', accepted h j' w'.
Proof.
  exact (spawn_failure_reported_and_slot_released
           (sample_host None None) missing_job boot
           (lit "[Errno 2] No such file or directory") eq_refl eq_refl eq_refl).
Defined.

(** The events of a job whose command starts and whose reads and wait do not
    fail. *)
Lemma job_events (h : Host) (j : Job) (w : World) (c : Child) :
  process_lock w = false -> busy w = false -> threads w = [] ->
  spawn h (command j) = inr c ->
  all_ready (delivery c) = true ->
  wait_error c = None ->
  events_since w (run_job h j w) =
    console_clear
      :: welcome_events (welcome_msg j)
      ++ stdin_events (stdin_data j) c
      ++ stream_events (chunks_of c)
      ++ exit_event (exit_status c)
      :: artifact_events (TARGET_URL h)
           (artifact_found (end_file j) (files w ++ creates c)).
Proof.
  intros Hlock Hbusy Hthreads Hspawn Hready Hwait.
  destruct (job_worker_run h j w c Hlock Hbusy Hthreads Hspawn Hready Hwait)
    as [held Hrun].
  rewrite run_job_unfold, Hrun. cbn [snd].
  apply events_since_app. reflexivity.
Qed.




(** No chunk of the stream, and nothing emitted before the exit status, is
    an artifact event. *)
Lemma no_open_url_in_stream (chunks : list bytes) :
  filter is_open_url (stream_events chunks) = [].
Proof. induction chunks as [|chunk chunks IH]; [reflexivity | exact IH]. Qed.

Lemma no_open_url_in_welcome (m : option pystr) :
  filter is_open_url (welcome_events m) = [].
Proof. destruct m as [[|ch msg]|]; reflexivity. Qed.

Lemma no_open_url_in_stdin (stdin : option bytes) (c : Child) :
  filter is_open_url (stdin_events stdin c) = [].
Proof. unfold stdin_events. destruct stdin, (stdin_error c); reflexivity. Qed.

Lemma artifact_found_present (path : pystr) (fs : list pystr) :
  path <> [] -> In path fs -> artifact_found (Some path) fs = Some path.
Proof.
  intros Hne Hin. unfold artifact_found. destruct path as [|ch path]; [congruence|].
  cbn [truthy]. destruct (in_dec pystr_eq_dec (ch :: path) fs); [reflexivity|contradiction].
Qed.

Lemma artifact_found_absent (path : pystr) (fs : list pystr) :
  ~ In path fs -> artifact_found (Some path) fs = None.
Proof.
  intros Hin. unfold artifact_found. destruct (truthy (Some path)); [|reflexivity].
  destruct (in_dec pystr_eq_dec path fs); [contradiction|reflexivity].
Qed.

(** C5, as the code has it: for every job with a non-empty artifact path
    whose worker gets to emit the exit status (the command starts, no read
    and no wait fails): if the file exists at that moment and the host sets
    END_URL, exactly one artifact event follows the exit status, its locator
    is END_URL followed by the path, and the path goes to the reclaimer with
    the delay 30; if the file does not exist, there is no artifact event, no
    timer, and the worker returns without an error. *)
Theorem artifact_announced_when_present
    (h : Host) (j : Job) (w : World) (c : Child) (path : pystr) :
  process_lock w = false -> busy w = false -> threads w = [] ->
  spawn h (command j) = inr c ->
  all_ready (delivery c) = true ->
  wait_error c = None ->
  end_file j = Some path -> path <> [] ->
  let w' := run_job h j w in
  files w' = files w ++ creates c /\
  (In path (files w') ->
   forall base, getenv h "END_URL" = Some base ->
     filter is_open_url (events_since w w') = [open_url (base ++ path)] /\
     (exists before,
         events_since w w' =
         before ++ [exit_event (exit_status c); open_url (base ++ path)]) /\
     timers w' = timers w ++ [(path, 30%N)]) /\
  (~ In path (files w') ->
   filter is_open_url (events_since w w') = [] /\
   (exists before,
       events_since w w' = before ++ [exit_event (exit_status c)]) /\
   timers w' = timers w /\
   fst (run_worker h (snd (submit h j w))) = Returns tt).
Proof.
  intros Hlock Hbusy Hthreads Hspawn Hready Hwait Hfile Hne w'. subst w'.
  rewrite (job_events h j w c Hlock Hbusy Hthreads Hspawn Hready Hwait).
  destruct (job_worker_run h j w c Hlock Hbusy Hthreads Hspawn Hready Hwait)
    as [held Hrun].
  rewrite run_job_unfold, Hrun. cbn [fst snd files timers]. rewrite Hfile.
  split; [reflexivity|]. split.
  - intros Hin base Hbase. unfold TARGET_URL. rewrite Hbase.
    rewrite (artifact_found_present _ _ Hne Hin).
    cbn [artifact_events artifact_timers]. repeat split.
    + cbn [filter is_open_url]. rewrite !filter_app.
      rewrite no_open_url_in_welcome, no_open_url_in_stdin, no_open_url_in_stream.
      reflexivity.
    + exists (console_clear :: welcome_events (welcome_msg j)
                ++ stdin_events (stdin_data j) c ++ stream_events (chunks_of c)).
      cbn [app]. rewrite <- !app_assoc. reflexivity.
  - intros Hin. rewrite (artifact_found_absent _ _ Hin).
    assert (Hnone : forall url, artifact_events url None = []) by (now intros []).
    assert (Hnot : forall url, artifact_timers url None = []) by (now intros []).
    assert (Hret : forall url, artifact_outcome url None = Returns tt) by (now intros []).
    rewrite Hnone, Hnot, Hret, app_nil_r. repeat split.
    + cbn [filter is_open_url]. rewrite !filter_app.
      rewrite no_open_url_in_welcome, no_open_url_in_stdin, no_open_url_in_stream.
      reflexivity.
    + exists (console_clear :: welcome_events (welcome_msg j)
                ++ stdin_events (stdin_data j) c ++ stream_events (chunks_of c)).
      cbn [app]. rewrite <- !app_assoc. reflexivity.
Qed.

(** C5 at the scan job on a host whose END_URL is [http://printer/]. *)
Lemma scan_artifact_announced :
  let h := sample_host (Some (lit "http://printer/")) None in
  let w' := run_job h scan_job boot in
  files w' = files boot ++ creates scanner /\
  (In (lit "scan.pdf") (files w') ->
   forall base, getenv h "END_URL" = Some base ->
     filter is_open_url (events_since boot w') = [open_url (base ++ lit "scan.pdf")] /\
     (exists before,
         events_since boot w' =
         before ++ [exit_event (exit_status scanner); open_url (base ++ lit "scan.pdf")]) /\
     timers w' = timers boot ++ [(lit "scan.pdf", 30%N)]) /\
  (~ In (lit "scan.pdf") (files w') ->
   filter is_open_url (events_since boot w') = [] /\
   (exists before,
       events_since boot w' = before ++ [exit_event (exit_status scanner)]) /\
   timers w' = timers boot /\
   fst (run_worker h (snd (submit h scan_job boot))) = Returns tt).
Proof.
  refine (artifact_announced_when_present
            (sample_host (Some (lit "http://printer/")) None) scan_job boot scanner
            (lit "scan.pdf") eq_refl eq_refl eq_refl eq_refl eq_refl eq_refl eq_refl _).
  vm_compute. discriminate.
Defined.

(** C5 as stated fails on a host that does not set END_URL: the file is
    there when the exit status has been emitted, yet no artifact event is
    emitted and the reclaimer is not called, because [TARGET_URL + end_file]
    raises. *)
Lemma artifact_not_announced_without_END_URL :
  let h := sample_host None None in
  let w' := run_job h scan_job boot in
  end_file scan_job = Some (lit "scan.pdf") /\
  In (lit "scan.pdf") (files w') /\
  last (events_since boot w') console_clear = exit_event 0 /\
  filter is_open_url (events_since boot w') = [] /\
  timers w' = [] /\
  fst (run_worker h (snd (submit h scan_job boot))) =
    Raises (lit "unsupported operand type(s) for +: 'NoneType' and 'str'").
Proof.
  cbv zeta. split; [reflexivity|]. split; [left; reflexivity|].
  repeat split; vm_compute; reflexivity.
Qed.




(** What the observers of that child see: two markers for the letter that
    was cut, where decoding the whole output gives the letter. *)
Example accent_texts :
  map Utf8.decode (chunks_of accent) = [[Utf8.REPLACEMENT]; [Utf8.REPLACEMENT; LF]] /\
  Utf8.decode (output accent) = [233%N; LF].
Proof. split; reflexivity. Qed.




(** What the observers of the print job see. *)
Example print_job_events :
  events_since boot (run_job (sample_host None None) print_job boot) =
    [console_clear;
     console_output (lit "[Beginning print]" ++ [LF]);
     console_output (lit "[error writing to stdin: [Errno 32] Broken pipe]" ++ [LF]);
     console_output (lit "lp:");
     console_output (lit " error" ++ [LF]);
     console_output ([LF] ++ lit "[process exited with code 1]" ++ [LF])].
Proof. vm_compute. reflexivity. Qed.

(** C8, as the code has it: for every accepted job the request first emits
    Clear and then, if the welcome message is present and not empty, exactly
    one output whose text is the message in square brackets followed by a
    line feed; the child, if the command starts, is spawned after these
    events and before any other. *)
Theorem clear_then_welcome_before_spawn (h : Host) (j : Job) (w : World) :
  process_lock w = false -> busy w = false ->
  let w' := snd (submit h j w) in
  let welcome :=
    match welcome_msg j with
    | Some (ch :: msg) => [console_output (lit "[" ++ (ch :: msg) ++ lit "]" ++ [LF])]
    | _ => []
    end in
  (exists rest, events_since w w' = console_clear :: welcome ++ rest) /\
  (forall c, spawn h (command j) = inr c ->
     events_since w w' = console_clear :: welcome /\
     exists o,
       nth_error (popens w') (List.length (popens w)) = Some o /\
       child o = c /\
       spawned_after o = List.length (emitted w) + 1 + List.length welcome) /\
  (forall e, spawn h (command j) = inl e -> popens w' = popens w).
Proof.
  intros Hlock Hbusy w' welcome. subst w'.
  change welcome with (welcome_events (welcome_msg j)). clear welcome.
  destruct (spawn h (command j)) as [e|c] eqn:Hspawn.
  - rewrite (submit_spawn_failed h j w e Hlock Hbusy Hspawn). cbn [snd].
    split; [|split; [discriminate | reflexivity]].
    eexists. apply events_since_app. cbn [emitted]. reflexivity.
  - rewrite (submit_started h j w c Hlock Hbusy Hspawn). cbn [snd popens].
    split; [|split; [|discriminate]].
    + exists []. rewrite app_nil_r. apply events_since_app. reflexivity.
    + intros c' Hc. injection Hc as <-. split.
      * apply events_since_app. reflexivity.
      * rewrite nth_error_fresh. eexists. split; [reflexivity|].
        split; [reflexivity|]. cbn [fresh spawned_after].
        rewrite length_app. cbn [List.length]. lia.
Qed.

(** C8 at the scan job. *)
Lemma scan_job_welcome :
  let h := sample_host None None in
  let w' := snd (submit h scan_job boot) in
  let welcome :=
    match welcome_msg scan_job with
    | Some (ch :: msg) => [console_output (lit "[" ++ (ch :: msg) ++ lit "]" ++ [LF])]
    | _ => []
    end in
  (exists rest, events_since boot w' = console_clear :: welcome ++ rest) /\
  (forall c, spawn h (command scan_job) = inr c ->
     events_since boot w' = console_clear :: welcome /\
     exists o,
       nth_error (popens w') (List.length (popens boot)) = Some o /\
       child o = c /\
       spawned_after o = List.length (emitted boot) + 1 + List.length welcome) /\
  (forall e, spawn h (command scan_job) = inl e -> popens w' = popens boot).
Proof.
  exact (clear_then_welcome_before_spawn (sample_host None None) scan_job boot
           eq_refl eq_refl).
Defined.

(** C8 as stated fails: the text of the welcome output is not the welcome
    message; at the scan job it is [[Beginning scan]] and a line feed. *)
Lemma welcome_text_is_decorated :
  let h := sample_host None None in
  let w' := snd (submit h scan_job boot) in
  accepted h scan_job boot /\
  events_since boot w' =
    [console_clear; console_output (lit "[Beginning scan]" ++ [LF])] /\
  ~ exists rest,
      events_since boot w' = console_clear :: bare_welcome (welcome_msg scan_job) ++ rest.
Proof.
  cbv zeta. split; [now apply free_slot_accepts|]. split; [reflexivity|].
  intros [rest H]. vm_compute in H. discriminate H.
Qed.

(** The server consults its host for two things only: whether and how a
    command starts, and the value of END_URL. *)
Lemma perform_same_host (h1 h2 : Host) (a : Action) (w : World) :
  (forall command, spawn h1 command = spawn h2 command) ->
  getenv h1 "END_URL" = getenv h2 "END_URL" ->
  perform h1 a w = perform h2 a w.
Proof.
  intros Hspawn Hurl. destruct a as [j| |p|]; cbn [perform]; try reflexivity.
  - unfold submit, start_process_and_stream, subprocess_Popen.
    now rewrite (Hspawn (command j)).
  - unfold run_worker. destruct (threads w) as [|t rest]; [reflexivity|].
    unfold stream_output, TARGET_URL. now rewrite Hurl.
Qed.

(** C9, as the code has it: the server depends on its host's environment
    through END_URL alone, whose value begins the locator of the artifact
    event: on two hosts where commands behave alike and END_URL has the same
    value, the same requests, worker runs, exits and timers lead to the same
    state, events included, whatever else the environments hold; and the
    delay handed to the reclaimer is the constant 30 on every host and for
    every request: it is written in [stream_output], not supplied by the
    caller. *)
Theorem only_END_URL_matters (h1 h2 : Host) :
  (forall command, spawn h1 command = spawn h2 command) ->
  getenv h1 "END_URL" = getenv h2 "END_URL" ->
  (forall acts w, run h1 acts w = run h2 acts w) /\
  (forall acts, Forall (fun t => snd t = 30%N) (timers (run h1 acts boot))).
Proof.
  intros Hspawn Hurl. split.
  - induction acts as [|a acts IH]; intros w; [reflexivity|].
    cbn [run fold_left]. rewrite (perform_same_host h1 h2 a w Hspawn Hurl).
    apply IH.
  - intros acts. apply (run_keeps h1 acts boot boot_keeps).
Qed.

(** C9 at two hosts that differ in the variable HOST. *)
Lemma HOST_does_not_matter :
  let h1 := sample_host (Some (lit "http://printer/")) None in
  let h2 := sample_host (Some (lit "http://printer/")) (Some (lit "0.0.0.0")) in
  (forall acts w, run h1 acts w = run h2 acts w) /\
  (forall acts, Forall (fun t => snd t = 30%N) (timers (run h1 acts boot))).
Proof.
  exact (only_END_URL_matters
           (sample_host (Some (lit "http://printer/")) None)
           (sample_host (Some (lit "http://printer/")) (Some (lit "0.0.0.0")))
           (fun _ => eq_refl) eq_refl).
Defined.

(** C9 as stated fails: the same job on two hosts that differ in END_URL
    alone emits different events; and the delay is 30 although the caller
    passes none. *)
Lemma events_depend_on_END_URL :
  let h1 := sample_host (Some (lit "http://printer/")) None in
  let h2 := sample_host (Some (lit "http://scanner/")) None in
  spawn h1 = spawn h2 /\
  events_since boot (run_job h1 scan_job boot)
    <> events_since boot (run_job h2 scan_job boot) /\
  timers (run_job h1 scan_job boot) = [(lit "scan.pdf", 30%N)].
Proof.
  cbv zeta. split; [reflexivity|]. split; [|reflexivity].
  intros H. vm_compute in H. discriminate H.
Qed.

(** ** Skipping the artifact step *)

Lemma artifact_free_same {A : Type} (m : Py A) :
  (forall w, timers (snd (m w)) = timers w /\ emitted (snd (m w)) = emitted w) ->
  artifact_free m.
Proof.
  intros H w. destruct (H w) as [Ht He]. split; [exact Ht|].
  exists []. now rewrite app_nil_r.
Qed.

Lemma artifact_free_then (w1 w2 w3 : World) :
  (timers w2 = timers w1 /\
   exists evs, emitted w2 = emitted w1 ++ evs /\ filter is_open_url evs = []) ->
  (timers w3 = timers w2 /\
   exists evs, emitted w3 = emitted w2 ++ evs /\ filter is_open_url evs = []) ->
  timers w3 = timers w1 /\
  exists evs, emitted w3 = emitted w1 ++ evs /\ filter is_open_url evs = [].
Proof.
  intros (Ht & a & Ha & Hfa) (Ht' & b & Hb & Hfb). split; [congruence|].
  exists (a ++ b). split; [now rewrite Hb, Ha, app_assoc|].
  now rewrite filter_app, Hfa, Hfb.
Qed.

Lemma artifact_free_ret {A : Type} (a : A) : artifact_free (ret a).
Proof. now apply artifact_free_same. Qed.

Lemma artifact_free_raise {A : Type} (e : exn) : artifact_free (@raise A e).
Proof. now apply artifact_free_same. Qed.

Lemma artifact_free_bind {A B : Type} (m : Py A) (k : A -> Py B) :
  artifact_free m -> (forall a, artifact_free (k a)) -> artifact_free (bind m k).
Proof.
  intros Hm Hk w. unfold bind. specialize (Hm w).
  destruct (m w) as [[a|e|] w1]; cbn [snd] in *; try exact Hm.
  eapply artifact_free_then; [exact Hm | apply Hk].
Qed.

Lemma artifact_free_try_except {A : Type} (body : Py A) (handler : exn -> Py A) :
  artifact_free body -> (forall e, artifact_free (handler e)) ->
  artifact_free (try_except body handler).
Proof.
  intros Hm Hk w. unfold try_except. specialize (Hm w).
  destruct (body w) as [[a|e|] w1]; cbn [snd] in *; try exact Hm.
  eapply artifact_free_then; [exact Hm | apply Hk].
Qed.

Lemma artifact_free_try_finally {A : Type} (body : Py A) (final : Py unit) :
  artifact_free body -> artifact_free final -> artifact_free (try_finally body final).
Proof.
  intros Hm Hf w. unfold try_finally. specialize (Hm w).
  destruct (body w) as [[a|e|] w1]; cbn [snd] in *; try exact Hm;
    specialize (Hf w1); destruct (final w1) as [[[]|e'|] w2]; cbn [snd] in *;
    eapply artifact_free_then; eassumption.
Qed.

Lemma artifact_free_output (data : pystr) : artifact_free (emit (console_output data)).
Proof. intros w. split; [reflexivity|]. now exists [console_output data]. Qed.

Lemma artifact_free_clear : artifact_free (emit console_clear).
Proof. intros w. split; [reflexivity|]. now exists [console_clear]. Qed.

Lemma artifact_free_attribute (proc : option Popen) (name : string) :
  artifact_free (attribute proc name).
Proof. destruct proc; [apply artifact_free_ret | apply artifact_free_raise]. Qed.

Lemma artifact_free_stdin_write (p : Popen) (data : bytes) :
  artifact_free (stdin_write p data).
Proof.
  apply artifact_free_same. intros w. unfold stdin_write.
  destruct (nth_error (popens w) p) as [o|]; [|now split].
  now destruct (stdin_write_error (child o)).
Qed.

Lemma artifact_free_stdin_close (p : Popen) : artifact_free (stdin_close p).
Proof.
  apply artifact_free_same. intros w. unfold stdin_close.
  destruct (nth_error (popens w) p) as [o|]; [|now split].
  now destruct (stdin_close_error (child o)).
Qed.

Lemma artifact_free_wait (p : Popen) : artifact_free (wait p).
Proof.
  apply artifact_free_same. intros w. unfold wait, child_exits.
  destruct (nth_error (popens w) p) as [o|]; [|now split].
  destruct (wait_error (child o)); [now split|].
  now destruct (returncode o).
Qed.

Lemma artifact_free_drain (p : Popen) : artifact_free (drain p).
Proof.
  intros w. unfold drain. destruct (nth_error (popens w) p) as [o|] eqn:Hp.
  - rewrite (read_loop_pipe _ _ _ _ Hp). cbn [snd]. split; [reflexivity|].
    eexists. split; [reflexivity|]. apply no_open_url_in_stream.
  - cbn [read_loop]. unfold bind, stdout_read. rewrite Hp. cbn [snd].
    split; [reflexivity|]. exists []. now rewrite app_nil_r.
Qed.

Lemma artifact_free_acquire : artifact_free acquire.
Proof.
  apply artifact_free_same. intros w. unfold acquire. now destruct (process_lock w).
Qed.

Lemma artifact_free_release : artifact_free release.
Proof.
  apply artifact_free_same. intros w. unfold release. now destruct (process_lock w).
Qed.

Lemma artifact_free_set_current_process (v : option Popen) :
  artifact_free (set_current_process v).
Proof. now apply artifact_free_same. Qed.

Create HintDb artifact_free.
#[local] Hint Resolve artifact_free_ret artifact_free_raise artifact_free_output
  artifact_free_clear artifact_free_attribute artifact_free_stdin_write
  artifact_free_stdin_close artifact_free_wait artifact_free_drain
  artifact_free_acquire artifact_free_release
  artifact_free_set_current_process : artifact_free.

Ltac artifact_free_steps :=
  repeat first
    [ solve [auto with artifact_free]
    | match goal with
      | |- artifact_free (bind _ _) => apply artifact_free_bind; [|intros ?]
      | |- artifact_free (try_except _ _) => apply artifact_free_try_except; [|intros ?]
      | |- artifact_free (try_finally _ _) => apply artifact_free_try_finally
      | |- artifact_free (match ?x with _ => _ end) => destruct x
      end ].

(** A worker whose [end_file] is the empty string starts no timer and emits
    no artifact event, whatever its child and the file system do. *)
Lemma stream_output_without_artifact
    (h : Host) (proc : option Popen) (stdin : option bytes) :
  artifact_free (stream_output h proc stdin (Some [])).
Proof.
  unfold stream_output, with_lock. cbn [truthy]. artifact_free_steps.
Qed.

(** C10: an empty string in an optional field is treated as an absent field.
    The request with the welcome message [''] is the request with no welcome
    message, and the worker with the artifact path [''] is the worker with
    none; so an accepted job whose welcome message is [''] emits no welcome
    output, and one whose artifact path is [''] emits no artifact event and
    starts no timer, whatever the child, the files and END_URL are. *)
Theorem empty_strings_are_absent (h : Host) :
  (forall command stdin end_file w,
      start_process_and_stream h command stdin (Some []) end_file w =
      start_process_and_stream h command stdin None end_file w) /\
  (forall proc stdin w,
      stream_output h proc stdin (Some []) w = stream_output h proc stdin None w) /\
  (forall j w,
      process_lock w = false -> busy w = false -> welcome_msg j = Some [] ->
      events_since w (snd (submit h j w)) =
        console_clear
          :: match spawn h (command j) with
             | inl e => [console_output (lit "Failed to start command: " ++ e ++ [LF])]
             | inr _ => []
             end) /\
  (forall j w,
      process_lock w = false -> busy w = false -> threads w = [] ->
      end_file j = Some [] ->
      timers (run_job h j w) = timers w /\
      filter is_open_url (events_since w (run_job h j w)) = []).
Proof.
  split; [reflexivity|]. split; [reflexivity|]. split.
  - intros j w Hlock Hbusy Hwelcome.
    destruct (spawn h (command j)) as [e|c] eqn:Hspawn.
    + rewrite (submit_spawn_failed h j w e Hlock Hbusy Hspawn). cbn [snd].
      apply events_since_app. cbn [emitted]. now rewrite Hwelcome.
    + rewrite (submit_started h j w c Hlock Hbusy Hspawn). cbn [snd].
      apply events_since_app. cbn [emitted]. now rewrite Hwelcome.
  - intros j w Hlock Hbusy Hthreads Hfile. rewrite run_job_unfold.
    destruct (spawn h (command j)) as [e|c] eqn:Hspawn.
    + rewrite (submit_spawn_failed h j w e Hlock Hbusy Hspawn). cbn [snd].
      unfold run_worker. cbn [threads]. rewrite Hthreads. cbn [snd timers].
      split; [reflexivity|].
      erewrite events_since_app by (cbn [emitted]; reflexivity).
      cbn [filter is_open_url]. rewrite filter_app, no_open_url_in_welcome.
      reflexivity.
    + rewrite (submit_started h j w c Hlock Hbusy Hspawn). cbn [snd].
      unfold run_worker. cbn [threads]. rewrite Hthreads.
      cbn [app t_proc t_stdin t_end_file]. rewrite Hfile.
      match goal with
      | |- context [stream_output h ?p ?s (Some []) ?w1] =>
        destruct (stream_output_without_artifact h p s w1) as (Ht & evs & Hevs & Hnone)
      end.
      split; [exact Ht|].
      erewrite events_since_app
        by (rewrite Hevs; cbn [emitted set_threads]; rewrite <- app_assoc; reflexivity).
      cbn [app filter is_open_url].
      now rewrite filter_app, no_open_url_in_welcome, Hnone.
Qed.

(** C10 at the scan job with both strings empty, on a host where the file
    named by the empty path is taken to exist and END_URL is set. *)
Lemma empty_strings_in_scan_job :
  let h := sample_host (Some (lit "http://printer/")) None in
  let j := with_welcome (Some []) (with_end_file (Some []) scan_job) in
  let w := set_files [[]] boot in
  events_since w (snd (submit h j w)) = [console_clear] /\
  timers (run_job h j w) = [] /\
  filter is_open_url (events_since w (run_job h j w)) = [].
Proof.
  cbv zeta.
  destruct (empty_strings_are_absent (sample_host (Some (lit "http://printer/")) None))
    as (_ & _ & Hwelcome & Hfile).
  split.
  - exact (Hwelcome (with_welcome (Some []) (with_end_file (Some []) scan_job))
                    (set_files [[]] boot) eq_refl eq_refl eq_refl).
  - exact (Hfile (with_welcome (Some []) (with_end_file (Some []) scan_job))
                 (set_files [[]] boot) eq_refl eq_refl eq_refl eq_refl).
Defined.

(** * Base64: what the page encodes, the handler decodes *)

Module Base64Facts.
Import Base64.

Lemma below_checked (P : N -> bool) (n : nat) :
  forallb P (map N.of_nat (seq 0 n)) = true ->
  forall x, (x < N.of_nat n)%N -> P x = true.
Proof.
  intros H x Hx. rewrite forallb_forall in H. apply H.
  rewrite <- (N2Nat.id x). apply in_map. apply in_seq. lia.
Qed.

Lemma below_checked2 (P : N -> N -> bool) (n m : nat) :
  forallb (fun x => forallb (P x) (map N.of_nat (seq 0 m))) (map N.of_nat (seq 0 n)) = true ->
  forall x y, (x < N.of_nat n)%N -> (y < N.of_nat m)%N -> P x y = true.
Proof.
  intros H x y Hx Hy.
  apply (below_checked (P x) m); [|exact Hy].
  apply (below_checked (fun x => forallb (P x) (map N.of_nat (seq 0 m))) n H x Hx).
Qed.

(** A symbol is a character that [value] reads back, and is not the
    padding. *)
Lemma value_symbol (six : N) :
  (six < 64)%N ->
  value (as_byte (symbol six)) = Some six /\
  (Byte.to_N (as_byte (symbol six)) =? PAD)%N = false.
Proof.
  intros H.
  assert (Hb := below_checked
    (fun six => match value (as_byte (symbol six)) with
                | Some v => (v =? six)%N
                | None => false
                end && negb (Byte.to_N (as_byte (symbol six)) =? PAD)%N)
    64 ltac:(vm_compute; reflexivity) six H).
  cbv beta in Hb. apply andb_true_iff in Hb. destruct Hb as [Hv Hp].
  split; [|now apply negb_true_iff].
  destruct (value (as_byte (symbol six))) as [v|]; [|discriminate].
  apply N.eqb_eq in Hv. now subst.
Qed.

Lemma as_byte_PAD : (Byte.to_N (as_byte PAD) =? PAD)%N = true.
Proof. reflexivity. Qed.

(** The six-bit pieces of bytes are below 64. *)
Lemma pieces_below_64 (a b : N) :
  (a < 256)%N -> (b < 256)%N ->
  (N.shiftr a 2 < 64)%N /\
  (N.lor (N.shiftl (N.land a 3) 4) (N.shiftr b 4) < 64)%N /\
  (N.lor (N.shiftl (N.land a 15) 2) (N.shiftr b 6) < 64)%N /\
  (N.land a 63 < 64)%N /\
  (N.shiftl (N.land a 3) 4 < 64)%N /\
  (N.shiftl (N.land a 15) 2 < 64)%N.
Proof.
  intros Ha Hb.
  assert (H := below_checked2
    (fun a b =>
       (N.shiftr a 2 <? 64)%N
       && (N.lor (N.shiftl (N.land a 3) 4) (N.shiftr b 4) <? 64)%N
       && (N.lor (N.shiftl (N.land a 15) 2) (N.shiftr b 6) <? 64)%N
       && (N.land a 63 <? 64)%N
       && (N.shiftl (N.land a 3) 4 <? 64)%N
       && (N.shiftl (N.land a 15) 2 <? 64)%N)
    256 256 ltac:(vm_compute; reflexivity) a b Ha Hb).
  cbv beta in H. repeat (apply andb_true_iff in H; destruct H as [H ?]).
  repeat split; now apply N.ltb_lt.
Qed.

(** What the decoder rebuilds from the pieces of two neighbouring bytes. *)
Lemma pieces_rebuilt (a b : N) :
  (a < 256)%N -> (b < 256)%N ->
  let s1 := N.lor (N.shiftl (N.land a 3) 4) (N.shiftr b 4) in
  let s2 := N.lor (N.shiftl (N.land a 15) 2) (N.shiftr b 6) in
  (N.lor (N.shiftl (N.shiftr a 2) 2) (N.shiftr s1 4) mod 256 = a)%N /\
  (N.land s1 15 = N.shiftr b 4)%N /\
  (N.lor (N.shiftl (N.shiftr a 4) 4) (N.shiftr s2 2) mod 256 = a)%N /\
  (N.lor (N.shiftl (N.land s2 3) 6) (N.land b 63) mod 256 = b)%N /\
  (N.lor (N.shiftl (N.shiftr a 2) 2) (N.shiftr (N.shiftl (N.land a 3) 4) 4) mod 256 = a)%N /\
  (N.lor (N.shiftl (N.shiftr a 4) 4) (N.shiftr (N.shiftl (N.land a 15) 2) 2) mod 256 = a)%N.
Proof.
  intros Ha Hb.
  assert (H := below_checked2
    (fun a b =>
       let s1 := N.lor (N.shiftl (N.land a 3) 4) (N.shiftr b 4) in
       let s2 := N.lor (N.shiftl (N.land a 15) 2) (N.shiftr b 6) in
       (N.lor (N.shiftl (N.shiftr a 2) 2) (N.shiftr s1 4) mod 256 =? a)%N
       && (N.land s1 15 =? N.shiftr b 4)%N
       && (N.lor (N.shiftl (N.shiftr a 4) 4) (N.shiftr s2 2) mod 256 =? a)%N
       && (N.lor (N.shiftl (N.land s2 3) 6) (N.land b 63) mod 256 =? b)%N
       && (N.lor (N.shiftl (N.shiftr a 2) 2) (N.shiftr (N.shiftl (N.land a 3) 4) 4)
             mod 256 =? a)%N
       && (N.lor (N.shiftl (N.shiftr a 4) 4) (N.shiftr (N.shiftl (N.land a 15) 2) 2)
             mod 256 =? a)%N)
    256 256 ltac:(vm_compute; reflexivity) a b Ha Hb).
  cbv beta zeta in H. repeat (apply andb_true_iff in H; destruct H as [H ?]).
  cbv zeta. repeat split; now apply N.eqb_eq.
Qed.

(** A byte is the byte of its number. *)
Lemma as_byte_to_N (x : byte) : as_byte (Byte.to_N x) = x.
Proof.
  unfold as_byte. pose proof (Byte.to_N_bounded x) as Hx.
  rewrite N.mod_small by lia. now rewrite Byte.of_to_N.
Qed.

Lemma as_byte_mod (n a : N) : (n mod 256 = a)%N -> (a < 256)%N -> as_byte n = as_byte a.
Proof.
  intros H Ha. unfold as_byte. rewrite H. now rewrite (N.mod_small a) by lia.
Qed.

(** One step of the decoder on a symbol. *)
Lemma a2b_symbol (six : N) (rest : bytes) (quad_pos : nat) (leftchar : N)
      (pads : nat) (out : bytes) :
  (six < 64)%N ->
  a2b_loop (as_byte (symbol six) :: rest) quad_pos leftchar pads out =
  match quad_pos with
  | 0 => a2b_loop rest 1 six 0 out
  | 1 =>
    a2b_loop rest 2 (N.land six 15) 0
             (out ++ [as_byte (N.lor (N.shiftl leftchar 2) (N.shiftr six 4))])
  | 2 =>
    a2b_loop rest 3 (N.land six 3) 0
             (out ++ [as_byte (N.lor (N.shiftl leftchar 4) (N.shiftr six 2))])
  | _ =>
    a2b_loop rest 0 0 0
             (out ++ [as_byte (N.lor (N.shiftl leftchar 6) six)])
  end.
Proof.
  intros H. destruct (value_symbol six H) as [Hv Hp].
  cbn [a2b_loop]. now rewrite Hp, Hv.
Qed.

(** A whole group gives its three bytes back. *)
Lemma a2b_group (x y z : byte) (rest out : bytes) (leftchar : N) (pads : nat) :
  a2b_loop (map as_byte (encode3 (Byte.to_N x) (Byte.to_N y) (Byte.to_N z)) ++ rest)
           0 leftchar pads out
  = a2b_loop rest 0 0 0 (out ++ [x; y; z]).
Proof.
  pose proof (Byte.to_N_bounded x) as Hx. pose proof (Byte.to_N_bounded y) as Hy.
  pose proof (Byte.to_N_bounded z) as Hz.
  set (a := Byte.to_N x) in *. set (b := Byte.to_N y) in *. set (c := Byte.to_N z) in *.
  destruct (pieces_below_64 a b ltac:(lia) ltac:(lia)) as (Ha0 & Ha1 & _).
  destruct (pieces_below_64 b c ltac:(lia) ltac:(lia)) as (_ & _ & Hb2 & _).
  destruct (pieces_below_64 c c ltac:(lia) ltac:(lia)) as (_ & _ & _ & Hc3 & _).
  destruct (pieces_rebuilt a b ltac:(lia) ltac:(lia)) as (F1 & G1 & _).
  destruct (pieces_rebuilt b c ltac:(lia) ltac:(lia)) as (_ & _ & F2 & F3 & _).
  unfold encode3. cbn [map app].
  rewrite (a2b_symbol _ _ _ _ _ _ Ha0), (a2b_symbol _ _ _ _ _ _ Ha1),
          (a2b_symbol _ _ _ _ _ _ Hb2), (a2b_symbol _ _ _ _ _ _ Hc3).
  rewrite G1.
  rewrite (as_byte_mod _ a F1) by lia.
  rewrite (as_byte_mod _ b F2) by lia.
  rewrite (as_byte_mod _ c F3) by lia.
  subst a b c. rewrite !as_byte_to_N, <- !app_assoc. reflexivity.
Qed.

(** The padded groups at the end give their one or two bytes back, whatever
    follows them. *)
Lemma a2b_last_two (x y : byte) (rest out : bytes) (leftchar : N) (pads : nat) :
  a2b_loop (map as_byte (encode2 (Byte.to_N x) (Byte.to_N y)) ++ rest)
           0 leftchar pads out
  = inr (out ++ [x; y]).
Proof.
  pose proof (Byte.to_N_bounded x) as Hx. pose proof (Byte.to_N_bounded y) as Hy.
  set (a := Byte.to_N x) in *. set (b := Byte.to_N y) in *.
  destruct (pieces_below_64 a b ltac:(lia) ltac:(lia)) as (Ha0 & Ha1 & _).
  destruct (pieces_below_64 b b ltac:(lia) ltac:(lia)) as (_ & _ & _ & _ & _ & Hb2).
  destruct (pieces_rebuilt a b ltac:(lia) ltac:(lia)) as (F1 & G1 & _).
  destruct (pieces_rebuilt b b ltac:(lia) ltac:(lia)) as (_ & _ & _ & _ & _ & T2).
  unfold encode2. cbn [map app].
  rewrite (a2b_symbol _ _ _ _ _ _ Ha0), (a2b_symbol _ _ _ _ _ _ Ha1),
          (a2b_symbol _ _ _ _ _ _ Hb2).
  cbn [a2b_loop]. rewrite as_byte_PAD. cbn [Nat.leb Nat.add].
  rewrite G1.
  rewrite (as_byte_mod _ a F1) by lia.
  rewrite (as_byte_mod _ b T2) by lia.
  subst a b. rewrite !as_byte_to_N, <- !app_assoc. reflexivity.
Qed.

Lemma a2b_last_one (x : byte) (rest out : bytes) (leftchar : N) (pads : nat) :
  a2b_loop (map as_byte (encode1 (Byte.to_N x)) ++ rest) 0 leftchar pads out
  = inr (out ++ [x]).
Proof.
  pose proof (Byte.to_N_bounded x) as Hx.
  set (a := Byte.to_N x) in *.
  destruct (pieces_below_64 a a ltac:(lia) ltac:(lia)) as (Ha0 & _ & _ & _ & Ha1 & _).
  destruct (pieces_rebuilt a a ltac:(lia) ltac:(lia)) as (_ & _ & _ & _ & T1 & _).
  unfold encode1. cbn [map app].
  rewrite (a2b_symbol _ _ _ _ _ _ Ha0), (a2b_symbol _ _ _ _ _ _ Ha1).
  cbn [a2b_loop]. rewrite as_byte_PAD. cbn [Nat.leb Nat.add].
  rewrite (as_byte_mod _ a T1) by lia.
  subst a. now rewrite as_byte_to_N.
Qed.

(** Induction three bytes at a time, as the encoder goes. *)
Lemma by_threes {A : Type} (P : list A -> Prop) :
  P [] -> (forall a, P [a]) -> (forall a b, P [a; b]) ->
  (forall a b c rest, P rest -> P (a :: b :: c :: rest)) ->
  forall l, P l.
Proof.
  intros H0 H1 H2 H3.
  assert (H : forall n l, List.length l <= n -> P l).
  { induction n as [|n IH]; intros l Hl.
    - destruct l; [exact H0 | simpl in Hl; lia].
    - destruct l as [|a [|b [|c rest]]]; auto.
      apply H3. apply IH. simpl in Hl. lia. }
  intros l. now apply (H (List.length l)).
Qed.

(** Decoding what was encoded gives the bytes back. *)
Lemma a2b_encode (file : bytes) :
  forall out leftchar pads,
    a2b_loop (map as_byte (encode (map Byte.to_N file))) 0 leftchar pads out
    = inr (out ++ file).
Proof.
  induction file as [|x|x y|x y z rest IH] using by_threes; intros out leftchar pads.
  - cbn. now rewrite app_nil_r.
  - cbn [map encode]. rewrite <- (app_nil_r (map as_byte _)). apply a2b_last_one.
  - cbn [map encode]. rewrite <- (app_nil_r (map as_byte _)). apply a2b_last_two.
  - cbn [map encode]. rewrite map_app, a2b_group, IH, <- app_assoc. reflexivity.
Qed.

(** Every character of an encoding is ASCII. *)
Lemma symbol_ascii (six : N) : (symbol six <? 128)%N = true.
Proof.
  unfold symbol.
  destruct (nth_in_or_default (N.to_nat six) alphabet PAD) as [Hin|Hd].
  - assert (Hall : forallb (fun ch => (ch <? 128)%N) alphabet = true) by reflexivity.
    rewrite forallb_forall in Hall. now apply Hall.
  - now rewrite Hd.
Qed.

Lemma ascii_bytes_encode (codes : list N) :
  ascii_bytes (encode codes) = Some (map as_byte (encode codes)).
Proof.
  induction codes as [|a|a b|a b c rest IH] using by_threes.
  - reflexivity.
  - cbn [encode encode1 ascii_bytes map]. now rewrite !symbol_ascii.
  - cbn [encode encode2 ascii_bytes map]. now rewrite !symbol_ascii.
  - cbn [encode encode3 ascii_bytes map app]. now rewrite !symbol_ascii, IH.
Qed.

Lemma btoa_bytes (file : bytes) :
  btoa (map Byte.to_N file) = inr (encode (map Byte.to_N file)).
Proof.
  unfold btoa.
  assert (H : forallb (fun ch => (ch <=? 255)%N) (map Byte.to_N file) = true).
  { apply forallb_forall. intros ch Hin. apply in_map_iff in Hin.
    destruct Hin as (x & <- & _). apply N.leb_le. apply Byte.to_N_bounded. }
  now rewrite H.
Qed.

(** The round trip: [b64decode] gives back the bytes that [btoa] encoded. *)
Lemma b64decode_btoa (file : bytes) :
  exists text,
    btoa (map Byte.to_N file) = inr text /\ b64decode (VStr text) = inr file.
Proof.
  exists (encode (map Byte.to_N file)). split; [apply btoa_bytes|].
  unfold b64decode, a2b_base64. rewrite ascii_bytes_encode. apply a2b_encode.
Qed.

End Base64Facts.

(** * Which children a computation touches *)

Lemma nth_error_replace_nth_other {A : Type} (l : list A) (p q : nat) (x : A) :
  q <> p -> nth_error (replace_nth p x l) q = nth_error l q.
Proof.
  revert p q. induction l as [|h t IH]; intros [|p] [|q] H; simpl; try reflexivity.
  - contradiction.
  - apply IH. lia.
Qed.

Lemma private_same (p : option Popen) {A : Type} (m : Py A) :
  (forall w, popens (snd (m w)) = popens w) -> private_to p m.
Proof. intros H w. rewrite H. now split. Qed.

Lemma private_child (p : Popen) {A : Type} (m : Py A) :
  (forall w, popens (snd (m w)) = popens w \/
             exists o, popens (snd (m w)) = replace_nth p o (popens w)) ->
  private_to (Some p) m.
Proof.
  intros H w. destruct (H w) as [-> | [o ->]]; [now split|].
  split; [apply replace_nth_length|].
  intros q Hq. apply nth_error_replace_nth_other. congruence.
Qed.

Lemma private_then (p : option Popen) (w1 w2 w3 : World) :
  (List.length (popens w2) = List.length (popens w1) /\
   forall q, Some q <> p -> nth_error (popens w2) q = nth_error (popens w1) q) ->
  (List.length (popens w3) = List.length (popens w2) /\
   forall q, Some q <> p -> nth_error (popens w3) q = nth_error (popens w2) q) ->
  List.length (popens w3) = List.length (popens w1) /\
  forall q, Some q <> p -> nth_error (popens w3) q = nth_error (popens w1) q.
Proof.
  intros [Hl H] [Hl' H']. split; [congruence|].
  intros q Hq. now rewrite H', H.
Qed.

Lemma private_bind (p : option Popen) {A B : Type} (m : Py A) (k : A -> Py B) :
  private_to p m -> (forall a, private_to p (k a)) -> private_to p (bind m k).
Proof.
  intros Hm Hk w. unfold bind. specialize (Hm w).
  destruct (m w) as [[a|e|] w1]; cbn [snd] in *; try exact Hm.
  eapply private_then; [exact Hm | apply Hk].
Qed.

Lemma private_bind_ret (p : option Popen) {A B : Type} (a : A) (k : A -> Py B) :
  private_to p (k a) -> private_to p (bind (ret a) k).
Proof. intros H w. exact (H w). Qed.

Lemma private_bind_raise (p : option Popen) {A B : Type} (e : exn) (k : A -> Py B) :
  private_to p (bind (@raise A e) k).
Proof. now apply private_same. Qed.

Lemma private_try_except (p : option Popen) {A : Type}
      (body : Py A) (handler : exn -> Py A) :
  private_to p body -> (forall e, private_to p (handler e)) ->
  private_to p (try_except body handler).
Proof.
  intros Hm Hk w. unfold try_except. specialize (Hm w).
  destruct (body w) as [[a|e|] w1]; cbn [snd] in *; try exact Hm.
  eapply private_then; [exact Hm | apply Hk].
Qed.

Lemma private_try_finally (p : option Popen) {A : Type}
      (body : Py A) (final : Py unit) :
  private_to p body -> private_to p final -> private_to p (try_finally body final).
Proof.
  intros Hm Hf w. unfold try_finally. specialize (Hm w).
  destruct (body w) as [[a|e|] w1]; cbn [snd] in *; try exact Hm;
    specialize (Hf w1); destruct (final w1) as [[[]|e'|] w2]; cbn [snd] in *;
    eapply private_then; eassumption.
Qed.

Lemma private_ret (p : option Popen) {A : Type} (a : A) : private_to p (ret a).
Proof. now apply private_same. Qed.

Lemma private_raise (p : option Popen) {A : Type} (e : exn) : private_to p (@raise A e).
Proof. now apply private_same. Qed.

Lemma private_emit (p : option Popen) (ev : Event) : private_to p (emit ev).
Proof. now apply private_same. Qed.

Lemma private_stdin_write (p : Popen) (data : bytes) :
  private_to (Some p) (stdin_write p data).
Proof.
  apply private_child. intros w. unfold stdin_write.
  destruct (nth_error (popens w) p) as [o|]; [|now left].
  destruct (stdin_write_error (child o)); [now left|]. right. now eexists.
Qed.

Lemma private_stdin_close (p : Popen) : private_to (Some p) (stdin_close p).
Proof.
  apply private_child. intros w. unfold stdin_close.
  destruct (nth_error (popens w) p) as [o|]; [|now left].
  destruct (stdin_close_error (child o)); [now left|]. right. now eexists.
Qed.

Lemma private_drain (p : Popen) : private_to (Some p) (drain p).
Proof.
  apply private_child. intros w. unfold drain.
  destruct (nth_error (popens w) p) as [o|] eqn:Hp.
  - rewrite (read_loop_pipe _ _ _ _ Hp). right. now eexists.
  - cbn [read_loop]. unfold bind, stdout_read. rewrite Hp. now left.
Qed.

Lemma private_wait (p : Popen) : private_to (Some p) (wait p).
Proof.
  apply private_child. intros w. unfold wait, child_exits.
  destruct (nth_error (popens w) p) as [o|]; [|now left].
  destruct (wait_error (child o)); [now left|].
  destruct (returncode o); [now left|]. right. now eexists.
Qed.

Lemma private_os_path_exists (p : option Popen) (path : pystr) :
  private_to p (os_path_exists path).
Proof. now apply private_same. Qed.

Lemma private_str_add (p : option Popen) (a : option pystr) (b : pystr) :
  private_to p (str_add a b).
Proof. destruct a; [apply private_ret | apply private_raise]. Qed.

Lemma private_delayed_remove (p : option Popen) (path : pystr) (delay : N) :
  private_to p (delayed_remove path delay).
Proof. now apply private_same. Qed.

Lemma private_acquire (p : option Popen) : private_to p acquire.
Proof. apply private_same. intros w. unfold acquire. now destruct (process_lock w). Qed.

Lemma private_release (p : option Popen) : private_to p release.
Proof. apply private_same. intros w. unfold release. now destruct (process_lock w). Qed.

Lemma private_set_current_process (p v : option Popen) :
  private_to p (set_current_process v).
Proof. now apply private_same. Qed.

Create HintDb private.
#[local] Hint Resolve private_ret private_raise private_emit private_stdin_write
  private_stdin_close private_drain private_wait private_os_path_exists
  private_str_add private_delayed_remove private_acquire private_release
  private_set_current_process : private.

Ltac private_steps :=
  repeat first
    [ solve [auto with private]
    | match goal with
      | |- private_to _ (bind (ret _) _) => apply private_bind_ret; cbv beta
      | |- private_to _ (bind (raise _) _) => apply private_bind_raise
      | |- private_to _ (bind _ _) => apply private_bind; [|intros ?]
      | |- private_to _ (try_except _ _) => apply private_try_except; [|intros ?]
      | |- private_to _ (try_finally _ _) => apply private_try_finally
      | |- private_to _ (match ?x with _ => _ end) => destruct x
      end ].

(** A worker touches the child it was started for and no other. *)
Lemma stream_output_private
    (h : Host) (proc : option Popen) (stdin : option bytes) (file : option pystr) :
  private_to proc (stream_output h proc stdin file).
Proof.
  unfold stream_output, with_lock. destruct proc as [p|]; cbn [attribute];
    private_steps.
Qed.

(** * Which computations feed stdin *)

Lemma stdin_kept_same {A : Type} (m : Py A) :
  (forall w, popens (snd (m w)) = popens w) -> stdin_kept m.
Proof. intros H w q o Hq. rewrite H. now exists o. Qed.

Lemma stdin_kept_child {A : Type} (m : Py A) :
  (forall w,
      popens (snd (m w)) = popens w \/
      exists p o o',
        nth_error (popens w) p = Some o /\
        popens (snd (m w)) = replace_nth p o' (popens w) /\
        stdin_received o' = stdin_received o /\
        stdin_closed o' = stdin_closed o /\
        child o' = child o) ->
  stdin_kept m.
Proof.
  intros H w q o Hq. destruct (H w) as [-> | (p & o0 & o' & Hp & -> & Hr & Hc & Hch)].
  - now exists o.
  - destruct (Nat.eq_dec q p) as [->|Hne].
    + rewrite (nth_error_replace_nth _ _ _ _ Hp). exists o'.
      assert (o0 = o) by congruence. subst o0. now repeat split.
    + rewrite (nth_error_replace_nth_other _ _ _ _ Hne). now exists o.
Qed.

Lemma stdin_kept_bind {A B : Type} (m : Py A) (k : A -> Py B) :
  stdin_kept m -> (forall a, stdin_kept (k a)) -> stdin_kept (bind m k).
Proof.
  intros Hm Hk w q o Hq. unfold bind. specialize (Hm w q o Hq).
  destruct (m w) as [[a|e|] w1]; cbn [snd] in *; try exact Hm.
  destruct Hm as (o1 & H1 & Hr1 & Hc1 & Hch1).
  destruct (Hk a w1 q o1 H1) as (o2 & H2 & Hr2 & Hc2 & Hch2).
  exists o2. repeat split; congruence.
Qed.

Lemma stdin_kept_try_finally {A : Type} (body : Py A) (final : Py unit) :
  stdin_kept body -> stdin_kept final -> stdin_kept (try_finally body final).
Proof.
  intros Hm Hf w q o Hq. unfold try_finally. specialize (Hm w q o Hq).
  destruct (body w) as [[a|e|] w1]; cbn [snd] in *; try exact Hm;
    destruct Hm as (o1 & H1 & Hr1 & Hc1 & Hch1);
    specialize (Hf w1 q o1 H1);
    destruct (final w1) as [[[]|e'|] w2]; cbn [snd] in *;
    destruct Hf as (o2 & H2 & Hr2 & Hc2 & Hch2);
    exists o2; repeat split; congruence.
Qed.

Lemma stdin_kept_ret {A : Type} (a : A) : stdin_kept (ret a).
Proof. now apply stdin_kept_same. Qed.

Lemma stdin_kept_raise {A : Type} (e : exn) : stdin_kept (@raise A e).
Proof. now apply stdin_kept_same. Qed.

Lemma stdin_kept_emit (ev : Event) : stdin_kept (emit ev).
Proof. now apply stdin_kept_same. Qed.

Lemma stdin_kept_attribute (proc : option Popen) (name : string) :
  stdin_kept (attribute proc name).
Proof. destruct proc; [apply stdin_kept_ret | apply stdin_kept_raise]. Qed.

Lemma stdin_kept_drain (p : Popen) : stdin_kept (drain p).
Proof.
  apply stdin_kept_child. intros w. unfold drain.
  destruct (nth_error (popens w) p) as [o|] eqn:Hp.
  - rewrite (read_loop_pipe _ _ _ _ Hp). right.
    exists p, o. eexists. split; [exact Hp|]. split; [reflexivity|]. now repeat split.
  - cbn [read_loop]. unfold bind, stdout_read. rewrite Hp. now left.
Qed.

Lemma stdin_kept_wait (p : Popen) : stdin_kept (wait p).
Proof.
  apply stdin_kept_child. intros w. unfold wait, child_exits.
  destruct (nth_error (popens w) p) as [o|] eqn:Hp; [|now left].
  destruct (wait_error (child o)); [now left|].
  destruct (returncode o); [now left|]. right.
  exists p, o, (exited o). split; [exact Hp|]. now repeat split.
Qed.

Lemma stdin_kept_os_path_exists (path : pystr) : stdin_kept (os_path_exists path).
Proof. now apply stdin_kept_same. Qed.

Lemma stdin_kept_str_add (a : option pystr) (b : pystr) : stdin_kept (str_add a b).
Proof. destruct a; [apply stdin_kept_ret | apply stdin_kept_raise]. Qed.

Lemma stdin_kept_delayed_remove (path : pystr) (delay : N) :
  stdin_kept (delayed_remove path delay).
Proof. now apply stdin_kept_same. Qed.

Lemma stdin_kept_acquire : stdin_kept acquire.
Proof. apply stdin_kept_same. intros w. unfold acquire. now destruct (process_lock w). Qed.

Lemma stdin_kept_release : stdin_kept release.
Proof. apply stdin_kept_same. intros w. unfold release. now destruct (process_lock w). Qed.

Lemma stdin_kept_set_current_process (v : option Popen) :
  stdin_kept (set_current_process v).
Proof. now apply stdin_kept_same. Qed.

Create HintDb stdin_kept.
#[local] Hint Resolve stdin_kept_ret stdin_kept_raise stdin_kept_emit
  stdin_kept_attribute stdin_kept_drain stdin_kept_wait stdin_kept_os_path_exists
  stdin_kept_str_add stdin_kept_delayed_remove stdin_kept_acquire
  stdin_kept_release stdin_kept_set_current_process : stdin_kept.

Ltac stdin_kept_steps :=
  repeat first
    [ solve [auto with stdin_kept]
    | match goal with
      | |- stdin_kept (bind _ _) => apply stdin_kept_bind; [|intros ?]
      | |- stdin_kept (try_finally _ _) => apply stdin_kept_try_finally
      | |- stdin_kept (match ?x with _ => _ end) => destruct x
      end ].

(** A worker with no payload neither writes to a child's stdin nor closes
    it. *)
Lemma stream_output_keeps_stdin
    (h : Host) (proc : option Popen) (file : option pystr) :
  stdin_kept (stream_output h proc None file).
Proof. unfold stream_output, with_lock. stdin_kept_steps. Qed.

(** A request leaves the children that exist as they are. *)
Lemma submit_keeps_children (h : Host) (j : Job) (w : World) (q : Popen) (o : PopenObj) :
  process_lock w = false ->
  nth_error (popens w) q = Some o ->
  nth_error (popens (snd (submit h j w))) q = Some o.
Proof.
  intros Hlock Hq. destruct (busy w) eqn:Hbusy.
  - now rewrite (submit_busy h j w Hlock Hbusy).
  - destruct (spawn h (command j)) as [e|c] eqn:Hspawn.
    + now rewrite (submit_spawn_failed h j w e Hlock Hbusy Hspawn).
    + rewrite (submit_started h j w c Hlock Hbusy Hspawn). cbn [snd popens].
      rewrite nth_error_app1; [assumption|]. apply nth_error_Some. congruence.
Qed.

(** * The child's stdin at the end of a job *)

(** The state of the child when its worker starts. *)
Lemma job_thread_started (h : Host) (j : Job) (w : World) (c : Child) :
  process_lock w = false -> busy w = false -> threads w = [] ->
  spawn h (command j) = inr c ->
  exists w1 n,
    run_worker h (snd (submit h j w)) =
      stream_output h (Some (List.length (popens w))) (stdin_data j) (end_file j) w1 /\
    nth_error (popens w1) (List.length (popens w)) = Some (fresh c n) /\
    popens w1 = popens w ++ [fresh c n] /\
    process_lock w1 = false /\
    emitted w1 = emitted w ++ console_clear :: welcome_events (welcome_msg j) /\
    current_process w1 = Some (List.length (popens w)) /\
    threads w1 = [] /\
    files w1 = files w /\ timers w1 = timers w.
Proof.
  intros Hlock Hbusy Hthreads Hspawn.
  rewrite (submit_started h j w c Hlock Hbusy Hspawn). cbn [snd].
  unfold run_worker. cbn [threads]. rewrite Hthreads.
  cbn [app t_proc t_stdin t_end_file].
  eexists. eexists. split; [reflexivity|].
  cbn [set_threads popens process_lock emitted current_process threads files timers].
  rewrite nth_error_fresh. now repeat split.
Qed.

(** With a payload: the child has received exactly the payload if [write]
    succeeded, and nothing if it failed; whatever the reads and the wait
    do. *)
Lemma job_stdin_fed (h : Host) (j : Job) (w : World) (c : Child) (data : bytes) :
  process_lock w = false -> busy w = false -> threads w = [] ->
  spawn h (command j) = inr c ->
  stdin_data j = Some data ->
  exists o,
    nth_error (popens (run_job h j w)) (List.length (popens w)) = Some o /\
    stdin_received o = match stdin_write_error c with
                       | None => [data]
                       | Some _ => []
                       end /\
    stdin_closed o = match stdin_error c with
                     | None => true
                     | Some _ => false
                     end /\
    child o = c.
Proof.
  intros Hlock Hbusy Hthreads Hspawn Hdata.
  destruct (job_thread_started h j w c Hlock Hbusy Hthreads Hspawn)
    as (w1 & n & Hrun & Hp & _).
  rewrite run_job_unfold, Hrun, Hdata.
  rewrite (stdin_step_never_aborts _ _ _ _ _ _ Hp).
  match goal with
  | |- context [stream_output h ?p None ?f ?w2] =>
    destruct (stream_output_keeps_stdin h p f w2 (List.length (popens w))
                (fed (Some data) (fresh c n))) as (o & Ho & Hr & Hc & Hch)
  end.
  { unfold_world. apply (nth_error_replace_nth _ _ _ _ Hp). }
  exists o. split; [exact Ho|]. rewrite Hr, Hc, Hch.
  unfold stdin_error. cbn [fed fresh child].
  destruct (stdin_write_error c); [now repeat split|].
  destruct (stdin_close_error c); now repeat split.
Qed.

(** Without a payload: the child's stdin has received nothing and is still
    open. *)
Lemma job_stdin_untouched (h : Host) (j : Job) (w : World) (c : Child) :
  process_lock w = false -> busy w = false -> threads w = [] ->
  spawn h (command j) = inr c ->
  stdin_data j = None ->
  exists o,
    nth_error (popens (run_job h j w)) (List.length (popens w)) = Some o /\
    stdin_received o = [] /\ stdin_closed o = false /\ child o = c.
Proof.
  intros Hlock Hbusy Hthreads Hspawn Hdata.
  destruct (job_thread_started h j w c Hlock Hbusy Hthreads Hspawn)
    as (w1 & n & Hrun & Hp & _).
  rewrite run_job_unfold, Hrun, Hdata.
  destruct (stream_output_keeps_stdin h (Some (List.length (popens w))) (end_file j)
              w1 (List.length (popens w)) (fresh c n) Hp)
    as (o & Ho & Hr & Hc & Hch).
  exists o. now repeat split.
Qed.

(** * The two handlers *)

Lemma handle_scan_submits (h : Host) (w : World) :
  handle_scan h w = submit h scan_request w.
Proof. reflexivity. Qed.

Lemma handle_print_decoded
    (h : Host) (d : list (pystr * pyval)) (content : bytes) (w : World) :
  Base64.b64decode (content_field d) = inr content ->
  handle_print h (VDict d) w = submit h (print_request content) w.
Proof.
  intros H. unfold handle_print, method_get, try_except.
  fold (content_field d). unfold bind at 1. unfold ret at 1.
  unfold bind at 1 2. rewrite H. reflexivity.
Qed.

Lemma handle_print_undecodable
    (h : Host) (d : list (pystr * pyval)) (e : exn) (w : World) :
  Base64.b64decode (content_field d) = inl e ->
  handle_print h (VDict d) w =
  (Returns tt,
   set_emitted
     (emitted w ++ [console_output (lit "[failed to decode uploaded file: "
                                        ++ e ++ lit "]" ++ [LF])])
     w).
Proof.
  intros H. unfold handle_print, method_get, try_except.
  fold (content_field d). unfold bind at 1. unfold ret at 1.
  unfold bind at 1 2. rewrite H. reflexivity.
Qed.

(** * Requests *)

(** X1 (lines 294-300): a request that finds a running process in the slot
    returns at once; all it does is emit the one line that a process is
    already running: no Clear, no child, no worker, and the slot, the files
    and the timers are as they were. *)
Theorem busy_request_only_reports (h : Host) (j : Job) (w : World) :
  process_lock w = false -> busy w = true ->
  let w' := snd (submit h j w) in
  fst (submit h j w) = Returns tt /\
  events_since w w' =
    [console_output (lit "[process already running " ++ [8211%N]
                         ++ lit " wait for it to finish]" ++ [LF])] /\
  current_process w' = current_process w /\
  process_lock w' = false /\
  popens w' = popens w /\
  threads w' = threads w /\
  files w' = files w /\
  timers w' = timers w /\
  slot_log w' = slot_log w /\
  busy w' = true.
Proof.
  intros Hlock Hbusy w'. subst w'.
  rewrite (submit_busy h j w Hlock Hbusy). cbn [fst snd].
  split; [reflexivity|]. split; [now apply events_since_app|].
  repeat split; assumption.
Qed.

(** X1 at a print request that arrives while the scanner runs. *)
Lemma print_rejected_while_scanning :
  let w := run office [Submit scan_request] boot in
  let w' := snd (submit office (print_request []) w) in
  fst (submit office (print_request []) w) = Returns tt /\
  events_since w w' =
    [console_output (lit "[process already running " ++ [8211%N]
                         ++ lit " wait for it to finish]" ++ [LF])] /\
  current_process w' = current_process w /\
  process_lock w' = false /\
  popens w' = popens w /\
  threads w' = threads w /\
  files w' = files w /\
  timers w' = timers w /\
  slot_log w' = slot_log w /\
  busy w' = true.
Proof.
  exact (busy_request_only_reports office (print_request [])
           (run office [Submit scan_request] boot) eq_refl eq_refl).
Defined.

(** X2 (lines 387-396): when the value under [content_b64] cannot be
    decoded, the print handler emits the one line that carries the error and
    returns: the console is not cleared, no process is started and the slot
    is not touched, whether it is free or not. *)
Theorem undecodable_upload_reported
    (h : Host) (d : list (pystr * pyval)) (e : exn) (w : World) :
  Base64.b64decode (content_field d) = inl e ->
  let r := handle_print h (VDict d) w in
  fst r = Returns tt /\
  events_since w (snd r) =
    [console_output (lit "[failed to decode uploaded file: " ++ e ++ lit "]" ++ [LF])] /\
  process_lock (snd r) = process_lock w /\
  current_process (snd r) = current_process w /\
  popens (snd r) = popens w /\
  threads (snd r) = threads w /\
  slot_log (snd r) = slot_log w /\
  files (snd r) = files w /\
  timers (snd r) = timers w.
Proof.
  intros H r. subst r. rewrite (handle_print_undecodable h d e w H). cbn [fst snd].
  split; [reflexivity|]. split; [now apply events_since_app|]. now repeat split.
Qed.

(** X2 at a payload that lost its last character, sent while the scanner
    runs. *)
Lemma truncated_upload_reported :
  let w := run office [Submit scan_request] boot in
  let r := handle_print office (VDict [(lit "content_b64", VStr (lit "aGk"))]) w in
  fst r = Returns tt /\
  events_since w (snd r) =
    [console_output (lit "[failed to decode uploaded file: "
                         ++ lit "Incorrect padding" ++ lit "]" ++ [LF])] /\
  process_lock (snd r) = process_lock w /\
  current_process (snd r) = current_process w /\
  popens (snd r) = popens w /\
  threads (snd r) = threads w /\
  slot_log (snd r) = slot_log w /\
  files (snd r) = files w /\
  timers (snd r) = timers w.
Proof.
  exact (undecodable_upload_reported office
           [(lit "content_b64", VStr (lit "aGk"))] (lit "Incorrect padding")
           (run office [Submit scan_request] boot) eq_refl).
Defined.

(** What [sendFileToServer] sends decodes to the file. *)
Lemma upload_total (file : bytes) :
  exists text,
    sendFileToServer file = inr (VDict [(lit "content_b64", VStr text)]) /\
    Base64.b64decode (VStr text) = inr file.
Proof.
  destruct (Base64Facts.b64decode_btoa file) as (text & Hbtoa & Hdec).
  exists text. split; [|exact Hdec]. unfold sendFileToServer. now rewrite Hbtoa.
Qed.


(** X3 (lines 242-261, 379-398): the page and the print handler are inverse
    to each other.  For every file, whatever its bytes, [sendFileToServer]
    builds a message, the handler decodes it without an error, and what the
    handler then does is the print job whose payload is the file itself. *)
Theorem upload_round_trip (file : bytes) :
  exists message,
    sendFileToServer file = inr message /\
    forall (h : Host) (w : World),
      handle_print h message w = submit h (print_request file) w.
Proof.
  destruct (upload_total file) as (text & Hsent & Hdec).
  exists (VDict [(lit "content_b64", VStr text)]). split; [exact Hsent|].
  intros h w. apply handle_print_decoded. exact Hdec.
Qed.



(** X5 (line 387): a print message without the key [content_b64] is not an
    error.  The default of [get] decodes to no bytes, and on a free server
    [lp] is started, receives one empty write and has its stdin closed: an
    empty document is printed. *)
Theorem print_without_content
    (h : Host) (d : list (pystr * pyval)) (w : World) (c : Child) :
  lookup (lit "content_b64") d = None ->
  process_lock w = false -> busy w = false -> threads w = [] ->
  spawn h lp_command = inr c ->
  stdin_error c = None ->
  handle_print h (VDict d) w = submit h (print_request []) w /\
  exists o,
    nth_error (popens (snd (run_worker h (snd (handle_print h (VDict d) w)))))
              (List.length (popens w)) = Some o /\
    child o = c /\ stdin_received o = [[]] /\ stdin_closed o = true.
Proof.
  intros Hkey Hlock Hbusy Hthreads Hspawn Hok.
  assert (Hsame : handle_print h (VDict d) w = submit h (print_request []) w).
  { apply handle_print_decoded. unfold content_field. now rewrite Hkey. }
  split; [exact Hsame|]. rewrite Hsame, <- run_job_unfold.
  destruct (job_stdin_fed h (print_request []) w c []
              Hlock Hbusy Hthreads Hspawn eq_refl) as (o & Ho & Hr & Hcl & Hc).
  exists o. split; [exact Ho|]. split; [exact Hc|].
  rewrite Hr, Hcl, Hok. unfold stdin_error in Hok.
  destruct (stdin_write_error c); [discriminate|]. now split.
Qed.

(** X5 at a message with another key only. *)
Lemma print_of_empty_message :
  handle_print office (VDict [(lit "name", VStr (lit "a.pdf"))]) boot
    = submit office (print_request []) boot /\
  exists o,
    nth_error
      (popens (snd (run_worker office
                      (snd (handle_print office
                              (VDict [(lit "name", VStr (lit "a.pdf"))]) boot)))))
      (List.length (popens boot)) = Some o /\
    child o = printer /\ stdin_received o = [[]] /\ stdin_closed o = true.
Proof.
  exact (print_without_content office [(lit "name", VStr (lit "a.pdf"))] boot printer
           eq_refl eq_refl eq_refl eq_refl eq_refl eq_refl).
Defined.

(** X6 (lines 327-338): a job without a payload never touches the stdin of
    its child: when its worker has run to its end, however the reads and the
    wait went, the child has received nothing and its stdin is still
    open. *)
Theorem stdin_left_open_without_payload (h : Host) (j : Job) (w : World) (c : Child) :
  process_lock w = false -> busy w = false -> threads w = [] ->
  spawn h (command j) = inr c ->
  stdin_data j = None ->
  exists o,
    nth_error (popens (run_job h j w)) (List.length (popens w)) = Some o /\
    child o = c /\ stdin_received o = [] /\ stdin_closed o = false.
Proof.
  intros Hlock Hbusy Hthreads Hspawn Hdata.
  destruct (job_stdin_untouched h j w c Hlock Hbusy Hthreads Hspawn Hdata)
    as (o & Ho & Hr & Hcl & Hc).
  exists o. now repeat split.
Qed.

(** X6 at a job whose wait fails. *)
Lemma stdin_of_wedged_child_left_open :
  exists o,
    nth_error (popens (run_job office wedged_job boot)) (List.length (popens boot))
      = Some o /\
    child o = wedged /\ stdin_received o = [] /\ stdin_closed o = false.
Proof.
  exact (stdin_left_open_without_payload office wedged_job boot wedged
           eq_refl eq_refl eq_refl eq_refl eq_refl).
Defined.

(** * Workers and the children of other jobs *)

(** X7 (lines 327-362): a worker touches the process it was started with and
    no other: whatever its payload, its artifact and the way it ends, every
    other child is afterwards as it was before, and no child has been added
    or dropped. *)
Theorem worker_touches_only_its_child
    (h : Host) (proc : option Popen) (stdin : option bytes) (file : option pystr)
    (w : World) (q : Popen) :
  Some q <> proc ->
  let w' := snd (stream_output h proc stdin file w) in
  nth_error (popens w') q = nth_error (popens w) q /\
  List.length (popens w') = List.length (popens w).
Proof.
  intros Hq w'. subst w'.
  destruct (stream_output_private h proc stdin file w) as [Hlen Hother].
  split; [now apply Hother | exact Hlen].
Qed.

(** X7 at the worker of a scan that runs while a print job has been taken
    on: the child of the print job is untouched. *)
Lemma scan_worker_leaves_printer_alone :
  let w := run office [Submit scan_request; Exit 0; Submit (print_request [])] boot in
  let w' := snd (stream_output office (Some 0) None (Some (lit "scan.pdf")) w) in
  nth_error (popens w') 1 = nth_error (popens w) 1 /\
  List.length (popens w') = List.length (popens w).
Proof.
  exact (worker_touches_only_its_child office (Some 0) None (Some (lit "scan.pdf"))
           (run office [Submit scan_request; Exit 0; Submit (print_request [])] boot)
           1 ltac:(discriminate)).
Defined.

(** * The reclaimer *)






(** * A scan from the request to the end of its worker *)

(** X10 (lines 369-376 with 288-366): a scan request on a free server whose
    host sets END_URL, when no read and no wait fails.  The request returns;
    the events are Clear, the line [[Beginning scan]], one output per chunk
    of what the command prints, the exit status and, when [scan.pdf] exists
    at that moment, the event that opens END_URL followed by [scan.pdf];
    only then is [scan.pdf] handed to the reclaimer, for 30 s; the stdin of
    the command is never written to and never closed. *)
Theorem scan_end_to_end (h : Host) (w : World) (c : Child) (base : pystr) :
  process_lock w = false -> busy w = false -> threads w = [] ->
  spawn h (command scan_request) = inr c ->
  all_ready (delivery c) = true ->
  wait_error c = None ->
  getenv h "END_URL" = Some base ->
  let w1 := snd (run_worker h (snd (handle_scan h w))) in
  let made := if in_dec pystr_eq_dec (lit "scan.pdf") (files w ++ creates c)
              then true else false in
  fst (handle_scan h w) = Returns tt /\
  fst (run_worker h (snd (handle_scan h w))) = Returns tt /\
  events_since w w1 =
    console_clear
      :: console_output (lit "[Beginning scan]" ++ [LF])
      :: map (fun chunk => console_output (Utf8.decode chunk)) (chunks_of c)
      ++ console_output ([LF] ++ lit "[process exited with code "
                              ++ str_of_int (exit_status c) ++ lit "]" ++ [LF])
      :: (if made then [open_url (base ++ lit "scan.pdf")] else []) /\
  timers w1 = timers w ++ (if made then [(lit "scan.pdf", 30%N)] else []) /\
  current_process w1 = None /\
  exists o,
    nth_error (popens w1) (List.length (popens w)) = Some o /\
    child o = c /\ stdin_received o = [] /\ stdin_closed o = false.
Proof.
  intros Hlock Hbusy Hthreads Hspawn Hready Hwait Hurl w1 made. subst w1.
  rewrite handle_scan_submits.
  split; [now rewrite (submit_started h scan_request w c Hlock Hbusy Hspawn)|].
  pose proof (job_events h scan_request w c Hlock Hbusy Hthreads Hspawn Hready Hwait)
    as Hev.
  destruct (job_stdin_untouched h scan_request w c Hlock Hbusy Hthreads Hspawn eq_refl)
    as (o & Ho & Hr & Hcl & Hc).
  destruct (job_worker_run h scan_request w c Hlock Hbusy Hthreads Hspawn Hready Hwait)
    as [held Hrun].
  rewrite run_job_unfold in Hev, Ho.
  assert (Hfound : artifact_found (end_file scan_request) (files w ++ creates c)
                   = if made then Some (lit "scan.pdf") else None).
  { subst made. cbn [end_file scan_request].
    destruct (in_dec pystr_eq_dec (lit "scan.pdf") (files w ++ creates c)) as [Hin|Hout].
    - apply artifact_found_present; [discriminate | exact Hin].
    - now apply artifact_found_absent. }
  rewrite Hev. rewrite Hrun in *. cbn [fst snd timers current_process].
  rewrite Hfound. unfold TARGET_URL. rewrite Hurl.
  split; [now destruct made|]. split; [now destruct made|].
  split; [now destruct made|]. split; [reflexivity|].
  exists o. now repeat split.
Qed.

(** X10 at the scanner of the office. *)
Lemma office_scan_end_to_end :
  let w1 := snd (run_worker office (snd (handle_scan office boot))) in
  let made := if in_dec pystr_eq_dec (lit "scan.pdf") (files boot ++ creates scanner)
              then true else false in
  fst (handle_scan office boot) = Returns tt /\
  fst (run_worker office (snd (handle_scan office boot))) = Returns tt /\
  events_since boot w1 =
    console_clear
      :: console_output (lit "[Beginning scan]" ++ [LF])
      :: map (fun chunk => console_output (Utf8.decode chunk)) (chunks_of scanner)
      ++ console_output ([LF] ++ lit "[process exited with code "
                              ++ str_of_int (exit_status scanner) ++ lit "]" ++ [LF])
      :: (if made then [open_url (lit "http://printer/" ++ lit "scan.pdf")] else []) /\
  timers w1 = timers boot ++ (if made then [(lit "scan.pdf", 30%N)] else []) /\
  current_process w1 = None /\
  exists o,
    nth_error (popens w1) (List.length (popens boot)) = Some o /\
    child o = scanner /\ stdin_received o = [] /\ stdin_closed o = false.
Proof.
  exact (scan_end_to_end office boot scanner (lit "http://printer/")
           eq_refl eq_refl eq_refl eq_refl eq_refl eq_refl eq_refl).
Defined.

(** * Two jobs at once *)

Lemma submit_started_facts (h : Host) (j : Job) (w : World) (c : Child) :
  process_lock w = false -> busy w = false ->
  spawn h (command j) = inr c ->
  let w' := snd (submit h j w) in
  process_lock w' = false /\
  current_process w' = Some (List.length (popens w)) /\
  (exists n, popens w' = popens w ++ [fresh c n]) /\
  threads w' = threads w ++ [{| t_proc := Some (List.length (popens w));
                                t_stdin := stdin_data j;
                                t_end_file := end_file j |}] /\
  accepted h j w.
Proof.
  intros Hlock Hbusy Hspawn w'. subst w'.
  pose proof (free_slot_accepts h j w Hlock Hbusy) as Hacc.
  rewrite (submit_started h j w c Hlock Hbusy Hspawn). cbn [snd].
  cbn [process_lock current_process popens threads].
  repeat split; try assumption. now eexists.
Qed.

Lemma running_fresh (w : World) (l : list PopenObj) (c : Child) (n : nat) :
  popens w = l ++ [fresh c n] -> running (List.length l) w.
Proof.
  intros H. exists (fresh c n). rewrite H, nth_error_fresh. now split.
Qed.

Lemma child_exits_facts (p : Popen) (w : World) (o : PopenObj) :
  nth_error (popens w) p = Some o -> returncode o = None ->
  let w' := child_exits p w in
  process_lock w' = process_lock w /\
  current_process w' = current_process w /\
  threads w' = threads w /\
  popens w' = replace_nth p (exited o) (popens w) /\
  polled p w' = Some (exit_status (child o)).
Proof.
  intros Hp Hrc. cbv zeta. unfold child_exits. rewrite Hp, Hrc.
  unfold polled. unfold_world. rewrite (nth_error_replace_nth _ _ _ _ Hp).
  now repeat split.
Qed.

(** X11 (lines 295, 359-362): two children can run at once.  The guard asks
    whether the process in the slot has exited, and the worker of a job
    empties the slot whatever it holds.  So when the child of a first job has
    exited and its worker has not yet run, a second request is taken on;
    the first worker then empties the slot, which holds the second job's
    process; and a third request is taken on while the second job's child
    is running.  Both children run and both workers are pending. *)
Theorem two_children_at_once
    (h : Host) (jA jB jC : Job) (cA cB cC : Child) (w : World) :
  process_lock w = false -> busy w = false -> threads w = [] ->
  spawn h (command jA) = inr cA ->
  spawn h (command jB) = inr cB ->
  spawn h (command jC) = inr cC ->
  let n := List.length (popens w) in
  let w4 := run h [Submit jA; Exit n; Submit jB; Work] w in
  let w5 := perform h (Submit jC) w4 in
  running (S n) w4 /\
  current_process w4 = None /\
  accepted h jC w4 /\
  running (S n) w5 /\
  running (S (S n)) w5 /\
  current_process w5 = Some (S (S n)) /\
  map t_proc (threads w5) = [Some (S n); Some (S (S n))].
Proof.
  intros Hlock Hbusy Hthreads HA HB HC n w4 w5.
  (* the first request *)
  destruct (submit_started_facts h jA w cA Hlock Hbusy HA)
    as (Hl1 & Hc1 & (k1 & Hp1) & Ht1 & _).
  set (w1 := snd (submit h jA w)) in *. fold n in Hc1. rewrite Hthreads in Ht1.
  (* its child exits *)
  assert (Hn1 : nth_error (popens w1) n = Some (fresh cA k1)).
  { rewrite Hp1. apply nth_error_fresh. }
  destruct (child_exits_facts n w1 (fresh cA k1) Hn1 eq_refl)
    as (Hl2 & Hc2 & Ht2 & Hp2 & Hpoll2).
  set (w2 := child_exits n w1) in *.
  assert (Hlen2 : List.length (popens w2) = S n).
  { rewrite Hp2, replace_nth_length, Hp1, length_app. cbn [List.length]. subst n. lia. }
  assert (Hbusy2 : busy w2 = false).
  { unfold busy. now rewrite Hc2, Hc1, Hpoll2. }
  (* the second request *)
  destruct (submit_started_facts h jB w2 cB ltac:(congruence) Hbusy2 HB)
    as (Hl3 & Hc3 & (k3 & Hp3) & Ht3 & _).
  set (w3 := snd (submit h jB w2)) in *.
  rewrite Hlen2 in Hc3, Ht3. rewrite Ht2, Ht1 in Ht3. cbn [app] in Ht3.
  assert (HB3 : nth_error (popens w3) (S n) = Some (fresh cB k3)).
  { rewrite Hp3, <- Hlen2. apply nth_error_fresh. }
  (* the first worker *)
  assert (Hw4 : w4 = snd (run_worker h w3)) by reflexivity.
  unfold run_worker in Hw4. rewrite Ht3 in Hw4. cbn [t_proc t_stdin t_end_file] in Hw4.
  match type of Hw4 with
  | _ = snd (stream_output h ?p ?s ?f ?w0) =>
    destruct (stream_output_releases h p s f w0 Hl3) as (_ & Hl4 & Hc4 & Ht4 & _);
      destruct (stream_output_private h p s f w0) as [Hlen4 Hother4];
      specialize (Hother4 (S n) ltac:(intros H; injection H; lia))
  end.
  rewrite <- Hw4 in Hl4, Hc4, Ht4, Hlen4, Hother4.
  cbn [set_threads popens threads] in Ht4, Hlen4, Hother4.
  assert (Hrun4 : running (S n) w4).
  { exists (fresh cB k3). rewrite Hother4, HB3. now split. }
  assert (Hlen3 : List.length (popens w3) = S (S n)).
  { rewrite Hp3, length_app, Hlen2. cbn [List.length]. lia. }
  assert (Hbusy4 : busy w4 = false).
  { unfold busy. now rewrite Hc4. }
  (* the third request *)
  destruct (submit_started_facts h jC w4 cC Hl4 Hbusy4 HC)
    as (Hl5 & Hc5 & (k5 & Hp5) & Ht5 & Hacc).
  change (snd (submit h jC w4)) with w5 in Hl5, Hc5, Hp5, Ht5.
  rewrite Hlen4, Hlen3 in Hc5, Ht5.
  split; [exact Hrun4|]. split; [exact Hc4|]. split; [exact Hacc|].
  split; [|split; [|split; [exact Hc5|]]].
  - destruct Hrun4 as (o & Ho & Hrc). exists o. split; [|exact Hrc].
    rewrite Hp5. rewrite nth_error_app1; [exact Ho|].
    apply nth_error_Some. congruence.
  - rewrite <- Hlen3, <- Hlen4. now apply (running_fresh w5 _ cC k5).
  - rewrite Ht5, Ht4. reflexivity.
Qed.

(** X11 in the office: a scan, then two prints. *)
Lemma two_prints_at_once :
  let n := List.length (popens boot) in
  let w4 := run office [Submit scan_request; Exit n; Submit (print_request []); Work]
                boot in
  let w5 := perform office (Submit (print_request [x25])) w4 in
  running (S n) w4 /\
  current_process w4 = None /\
  accepted office (print_request [x25]) w4 /\
  running (S n) w5 /\
  running (S (S n)) w5 /\
  current_process w5 = Some (S (S n)) /\
  map t_proc (threads w5) = [Some (S n); Some (S (S n))].
Proof.
  exact (two_children_at_once office scan_request (print_request [])
           (print_request [x25]) scanner printer printer boot
           eq_refl eq_refl eq_refl eq_refl eq_refl eq_refl).
Defined.

(** * A read that fails *)

(** The chunks the loop has taken and what it has left in the pipe make up
    the data, whether the loop ends well or not. *)
Lemma pipe_conserves (size fuel : nat) :
  forall (data : bytes) (steps : list ReadStep),
    concat (pipe_chunks size fuel data steps) ++ fst (pipe_left size fuel data steps)
    = data.
Proof.
  induction fuel as [|fuel IH]; intros data steps; [reflexivity|].
  cbn [pipe_chunks pipe_left].
  destruct steps as [|[more|e] rest]; try reflexivity;
    match goal with
    | |- context [firstn ?n data] =>
      destruct (firstn n data) as [|b chunk] eqn:Hchunk;
        [ cbn [concat app fst];
          rewrite <- (firstn_skipn n data) at 2; now rewrite Hchunk
        | cbn [concat]; rewrite <- app_assoc, IH, <- Hchunk; apply firstn_skipn ]
    end.
Qed.

(** A run of the worker in which a [read] fails. *)
Lemma stream_output_read_fails
    (h : Host) (p : Popen) (stdin : option bytes) (end_file : option pystr)
    (w : World) (o : PopenObj) (e : exn) :
  nth_error (popens w) p = Some o ->
  process_lock w = false ->
  let fuel := S (List.length (unread o)) in
  pipe_outcome 4096 fuel (unread o) (reads o) = Raises e ->
  exists held,
    stream_output h (Some p) stdin end_file w =
    (Raises e,
     {| process_lock := false; current_process := None;
        emitted := emitted w ++ stdin_events stdin (child o)
                     ++ stream_events (pipe_chunks 4096 fuel (unread o) (reads o));
        popens := replace_nth p
                    (piped (pipe_left 4096 fuel (unread o) (reads o)) (fed stdin o))
                    (popens w);
        files := files w;
        timers := timers w;
        threads := threads w;
        slot_log := slot_log w ++ [{| locked := true; prior := current_process w;
                                      prior_active := held;
                                      assigned := None |}] |}).
Proof.
  intros Hp Hlock fuel Hout.
  destruct (fed_pipe stdin o) as (Hfu & Hfr & Hfc & Hfrc & _).
  unfold stream_output, try_finally.
  rewrite (bind_returns _ _ _ _ _ (feed_stdin_run p stdin w o Hp)).
  cbn [attribute]. unfold bind at 1. unfold ret at 1.
  unfold bind at 1. unfold drain.
  unfold_world. rewrite (nth_error_replace_nth _ _ _ _ Hp).
  erewrite read_loop_pipe
    by (unfold_world; apply (nth_error_replace_nth _ _ _ _ Hp)).
  rewrite Hfu, Hfr. fold fuel. rewrite Hout.
  unfold_py. unfold_world. rewrite Hlock. unfold_world.
  rewrite replace_nth_twice.
  eexists. rewrite <- !app_assoc. reflexivity.
Qed.

(** The worker of a job that was just started, when a [read] fails. *)
Lemma job_worker_read_fails (h : Host) (j : Job) (w : World) (c : Child) (e : exn) :
  process_lock w = false -> busy w = false -> threads w = [] ->
  spawn h (command j) = inr c ->
  pipe_outcome 4096 (S (List.length (output c))) (output c) (delivery c) = Raises e ->
  let n := List.length (emitted w ++ console_clear :: welcome_events (welcome_msg j)) in
  exists held,
    run_worker h (snd (submit h j w)) =
    (Raises e,
     {| process_lock := false; current_process := None;
        emitted := emitted w ++ console_clear :: welcome_events (welcome_msg j)
                     ++ stdin_events (stdin_data j) c
                     ++ stream_events (chunks_of c);
        popens := popens w ++
                  [piped (pipe_left 4096 (S (List.length (output c)))
                                    (output c) (delivery c))
                         (fed (stdin_data j) (fresh c n))];
        files := files w;
        timers := timers w;
        threads := [];
        slot_log := slot_log w ++
                    [{| locked := true; prior := current_process w;
                        prior_active := None;
                        assigned := Some (List.length (popens w)) |};
                     {| locked := true; prior := Some (List.length (popens w));
                        prior_active := held; assigned := None |}] |}).
Proof.
  intros Hlock Hbusy Hthreads Hspawn Hout n.
  rewrite (submit_started h j w c Hlock Hbusy Hspawn). cbn [snd].
  unfold run_worker. cbn [threads]. rewrite Hthreads. cbn [app t_proc t_stdin t_end_file].
  fold n.
  match goal with
  | |- context [stream_output h _ _ _ ?w1] =>
    destruct (stream_output_read_fails h (List.length (popens w)) (stdin_data j)
                                       (end_file j) w1 (fresh c n) e)
      as [held Hrun];
      [ apply nth_error_fresh | reflexivity | exact Hout | ]
  end.
  exists held. etransitivity; [exact Hrun|]. unfold_world. cbn [fresh child unread reads].
  rewrite replace_nth_fresh, <- !app_assoc. reflexivity.
Qed.

(** X12 (lines 340-347, 359-362): a read that fails ends the job there.  The
    worker ends with the error of the read; the broadcast holds the chunks
    that were read before it and neither an exit status nor an artifact
    event; the bytes not yet read stay in the pipe, so that the chunks and
    the rest make up the output; the child is not waited for, no file is
    handed to the reclaimer, and the slot is free for any request. *)
Theorem read_failure_ends_job (h : Host) (j : Job) (w : World) (c : Child) (e : exn) :
  process_lock w = false -> busy w = false -> threads w = [] ->
  spawn h (command j) = inr c ->
  pipe_outcome 4096 (S (List.length (output c))) (output c) (delivery c) = Raises e ->
  let r := run_worker h (snd (submit h j w)) in
  let w' := snd r in
  fst r = Raises e /\
  events_since w w' =
    console_clear
      :: welcome_events (welcome_msg j)
      ++ stdin_events (stdin_data j) c
      ++ map (fun chunk => console_output (Utf8.decode chunk)) (chunks_of c) /\
  (exists o,
      nth_error (popens w') (List.length (popens w)) = Some o /\
      concat (chunks_of c) ++ unread o = output c /\
      returncode o = None) /\
  files w' = files w /\
  timers w' = timers w /\
  current_process w' = None /\
  process_lock w' = false /\
  forall j', accepted h j' w'.
Proof.
  intros Hlock Hbusy Hthreads Hspawn Hout r w'. subst w' r.
  destruct (job_worker_read_fails h j w c e Hlock Hbusy Hthreads Hspawn Hout)
    as [held Hrun].
  rewrite Hrun. cbn [fst snd files timers current_process process_lock popens].
  split; [reflexivity|]. split; [now apply events_since_app|].
  split; [|split; [reflexivity|split; [reflexivity|split; [reflexivity|split; [reflexivity|]]]]].
  - rewrite nth_error_fresh. eexists. split; [reflexivity|].
    cbn [piped unread returncode]. split; [apply pipe_conserves|].
    destruct (fed_pipe (stdin_data j)
                (fresh c (List.length (emitted w ++ console_clear
                                         :: welcome_events (welcome_msg j)))))
      as (_ & _ & _ & Hrc & _).
    now rewrite Hrc.
  - intros j'. now apply free_slot_accepts.
Qed.

(** X12 at [cat] in the office, whose pipe breaks after the first chunk. *)
Lemma cat_read_failure :
  let r := run_worker office (snd (submit office cat_job boot)) in
  let w' := snd r in
  fst r = Raises (lit "[Errno 5] Input/output error") /\
  events_since boot w' =
    console_clear
      :: welcome_events (welcome_msg cat_job)
      ++ stdin_events (stdin_data cat_job) flaky
      ++ map (fun chunk => console_output (Utf8.decode chunk)) (chunks_of flaky) /\
  (exists o,
      nth_error (popens w') (List.length (popens boot)) = Some o /\
      concat (chunks_of flaky) ++ unread o = output flaky /\
      returncode o = None) /\
  files w' = files boot /\
  timers w' = timers boot /\
  current_process w' = None /\
  process_lock w' = false /\
  forall j', accepted office j' w'.
Proof.
  exact (read_failure_ends_job office cat_job boot flaky
           (lit "[Errno 5] Input/output error")
           eq_refl eq_refl eq_refl eq_refl eq_refl).
Defined.

(** * The page *)

#[local] Arguments on_event : simpl never.

Lemma deliver_app (a b : list Event) (pg : Page) :
  deliver (a ++ b) pg = deliver b (deliver a pg).
Proof. unfold deliver. apply fold_left_app. Qed.

Lemma deliver_cons (ev : Event) (evs : list Event) (pg : Page) :
  deliver (ev :: evs) pg = deliver evs (on_event ev pg).
Proof. reflexivity. Qed.

Lemma deliver_opened (evs : list Event) :
  forall pg, opened (deliver evs pg) = opened pg ++ tabs_of evs.
Proof.
  induction evs as [|ev evs IH]; intros pg.
  - cbn [deliver fold_left tabs_of]. now rewrite app_nil_r.
  - rewrite deliver_cons, IH. destruct ev as [|data|[|ch url]]; cbn [tabs_of];
      unfold on_event; cbn [opened]; try reflexivity.
    now rewrite <- app_assoc.
Qed.

Lemma deliver_no_clear (evs : list Event) :
  forall pg,
    no_clear evs = true ->
    console_text (deliver evs pg) = console_text pg ++ output_text evs.
Proof.
  induction evs as [|ev evs IH]; intros pg Hno.
  - cbn [deliver fold_left output_text]. now rewrite app_nil_r.
  - unfold no_clear in Hno. cbn [forallb] in Hno.
    apply andb_prop in Hno. destruct Hno as [Hev Hrest].
    rewrite deliver_cons, (IH _ Hrest).
    destruct ev as [|data|[|ch url]]; cbn [is_clear negb] in Hev; try discriminate;
      unfold on_event; cbn [console_text output_text]; try reflexivity.
    now rewrite <- app_assoc.
Qed.

Lemma deliver_after_clear (before after : list Event) (pg : Page) :
  no_clear after = true ->
  console_text (deliver (before ++ console_clear :: after) pg) = output_text after.
Proof.
  intros Hno. rewrite deliver_app, deliver_cons, (deliver_no_clear _ _ Hno).
  reflexivity.
Qed.

(** X13 (lines 156-159, 179-192): what the page shows.  After any events,
    the console holds the texts of the outputs that came after the last
    Clear, in their order and with nothing between them, whatever it held
    before; without a Clear it holds what it held and these texts after it.
    The tabs it has opened are those it had opened and one for each artifact
    event with a non-empty url, in their order. *)
Theorem console_shows_outputs_since_clear
    (before after : list Event) (pg : Page) :
  no_clear after = true ->
  console_text (deliver (before ++ console_clear :: after) pg) = output_text after /\
  console_text (deliver after pg) = console_text pg ++ output_text after /\
  opened (deliver (before ++ console_clear :: after) pg)
    = opened pg ++ tabs_of before ++ tabs_of after.
Proof.
  intros Hno. split; [now apply deliver_after_clear|].
  split; [now apply deliver_no_clear|].
  rewrite deliver_app, deliver_cons, deliver_opened. unfold on_event. cbn [opened].
  now rewrite deliver_opened, app_assoc.
Qed.

(** X13 at a page that held an old line. *)
Lemma console_after_two_outputs :
  let pg := {| console_text := lit "old"; opened := [] |} in
  let before := [console_output (lit "gone"); open_url (lit "u")] in
  let after := [console_output (lit "a"); open_url []; console_output (lit "b")] in
  console_text (deliver (before ++ console_clear :: after) pg) = output_text after /\
  console_text (deliver after pg) = console_text pg ++ output_text after /\
  opened (deliver (before ++ console_clear :: after) pg)
    = opened pg ++ tabs_of before ++ tabs_of after.
Proof.
  exact (console_shows_outputs_since_clear
           [console_output (lit "gone"); open_url (lit "u")]
           [console_output (lit "a"); open_url []; console_output (lit "b")]
           {| console_text := lit "old"; opened := [] |} eq_refl).
Defined.

(** * The texts of the stream *)

Module Utf8Sizes.
Import Utf8 Utf8Facts.

#[local] Arguments decode : simpl never.

Lemma decode_nonempty (b0 : byte) (r0 : bytes) : decode (b0 :: r0) <> [].
Proof.
  rewrite decode_cons.
  repeat match goal with
         | |- context [if ?c then _ else _] => destruct c
         | |- context [match ?r with [] => _ | _ :: _ => _ end] => destruct r as [|? ?]
         end; discriminate.
Qed.

Lemma decode_length_bounded (n : nat) :
  forall bs : bytes,
    List.length bs <= n -> List.length (decode bs) <= List.length bs.
Proof.
  induction n as [|n IH]; intros bs Hlen.
  - destruct bs; [apply le_n | simpl in Hlen; lia].
  - destruct bs as [|b0 r0]; [apply le_n|].
    rewrite decode_cons.
    repeat match goal with
           | |- context [if ?c then _ else _] => destruct c
           | |- context [match ?r with [] => _ | _ :: _ => _ end] => destruct r as [|? ?]
           end;
      cbn [List.length] in *;
      try lia;
      match goal with
      | |- context [decode ?r] =>
        pose proof (IH r) as Hr; cbn [List.length] in Hr; lia
      end.
Qed.

Lemma decode_length (bs : bytes) : List.length (decode bs) <= List.length bs.
Proof. now apply (decode_length_bounded (List.length bs)). Qed.

Lemma decode_ascii (bs : bytes) :
  all_ascii bs = true -> decode bs = map Byte.to_N bs.
Proof.
  induction bs as [|b bs IH]; intros H; [reflexivity|].
  unfold all_ascii in H. cbn [forallb] in H. apply andb_prop in H.
  destruct H as [Hb Hbs]. rewrite decode_cons.
  assert (Hb' : (Byte.to_N b <? 128)%N = true) by exact Hb.
  rewrite Hb'. cbn [map]. f_equal. now apply IH.
Qed.

Lemma all_ascii_app (x y : bytes) :
  all_ascii (x ++ y) = all_ascii x && all_ascii y.
Proof. unfold all_ascii. apply forallb_app. Qed.

Lemma decode_chunks_ascii (chunks : list bytes) :
  all_ascii (concat chunks) = true ->
  concat (map decode chunks) = map Byte.to_N (concat chunks).
Proof.
  induction chunks as [|ch rest IH]; intros H; [reflexivity|].
  cbn [concat] in H. rewrite all_ascii_app in H. apply andb_prop in H.
  destruct H as [Hc Hr]. cbn [map concat].
  now rewrite map_app, (decode_ascii _ Hc), IH.
Qed.

End Utf8Sizes.

Lemma pipe_chunks_sized (size : nat) (Hsize : 0 < size) (fuel : nat) :
  forall (data : bytes) (steps : list ReadStep),
    Forall (fun chunk => chunk <> [] /\ List.length chunk <= size)
           (pipe_chunks size fuel data steps).
Proof.
  induction fuel as [|fuel IH]; intros data steps; [constructor|].
  assert (Hstep : forall n rest',
             0 < n <= size ->
             Forall (fun chunk => chunk <> [] /\ List.length chunk <= size)
                    match firstn n data with
                    | [] => []
                    | b :: chunk =>
                      (b :: chunk) :: pipe_chunks size fuel (skipn n data) rest'
                    end).
  { intros n rest' Hn. destruct (firstn n data) as [|b chunk] eqn:Hchunk; [constructor|].
    constructor; [|apply IH]. split; [discriminate|].
    rewrite <- Hchunk, length_firstn. lia. }
  destruct steps as [|[more|e] rest]; cbn [pipe_chunks hd_error tl].
  - apply Hstep. now apply granted_at_least_one.
  - apply Hstep. now apply granted_at_least_one.
  - constructor.
Qed.

Lemma length_concat_decode (chunks : list bytes) :
  List.length (concat (map Utf8.decode chunks)) <= List.length (concat chunks).
Proof.
  induction chunks as [|ch rest IH]; [apply le_n|].
  cbn [map concat]. rewrite !length_app.
  pose proof (Utf8Sizes.decode_length ch). lia.
Qed.

(** X14 (lines 341-347): the outputs of the read loop.  Whatever the pipe
    holds and however it hands it over, the loop adds to the broadcast
    nothing but outputs, each with a text of at least one and at most 4096
    characters; together the texts have no more characters than the pipe
    held bytes. *)
Theorem stream_texts_sized (p : Popen) (w : World) (o : PopenObj) :
  nth_error (popens w) p = Some o ->
  exists texts,
    events_since w (snd (drain p w)) = map console_output texts /\
    Forall (fun text => 1 <= List.length text <= 4096) texts /\
    List.length (concat texts) <= List.length (unread o).
Proof.
  intros Hp. unfold drain. rewrite Hp, (read_loop_pipe _ _ _ _ Hp). cbn [snd].
  set (chunks := pipe_chunks 4096 (S (List.length (unread o))) (unread o) (reads o)).
  exists (map Utf8.decode chunks). split; [|split].
  - rewrite map_map. now apply events_since_app.
  - pose proof (pipe_chunks_sized 4096 ltac:(lia) (S (List.length (unread o)))
                                  (unread o) (reads o)) as Hsized.
    fold chunks in Hsized. apply Forall_map.
    eapply Forall_impl; [|exact Hsized]. intros chunk [Hne Hlen].
    pose proof (Utf8Sizes.decode_length chunk).
    destruct chunk as [|b rest]; [congruence|].
    pose proof (Utf8Sizes.decode_nonempty b rest).
    destruct (Utf8.decode (b :: rest)); [congruence|]. cbn [List.length] in *. lia.
  - etransitivity; [apply length_concat_decode|].
    pose proof (pipe_conserves 4096 (S (List.length (unread o))) (unread o) (reads o))
      as Hcons.
    fold chunks in Hcons. apply (f_equal (@List.length byte)) in Hcons.
    rewrite length_app in Hcons. lia.
Qed.

(** X14 at the pipe of the scanner, just started. *)
Lemma scanner_texts_sized :
  exists texts,
    events_since (run office [Submit scan_request] boot)
                 (snd (drain 0 (run office [Submit scan_request] boot)))
      = map console_output texts /\
    Forall (fun text => 1 <= List.length text <= 4096) texts /\
    List.length (concat texts) <= List.length (unread (fresh scanner 2)).
Proof.
  exact (stream_texts_sized 0 (run office [Submit scan_request] boot)
           (fresh scanner 2) eq_refl).
Defined.

(** * What the page shows of a job *)

Lemma no_clear_app (a b : list Event) :
  no_clear (a ++ b) = no_clear a && no_clear b.
Proof. unfold no_clear. apply forallb_app. Qed.

Lemma output_text_app (a b : list Event) :
  output_text (a ++ b) = output_text a ++ output_text b.
Proof.
  induction a as [|[|data|url] a IH]; cbn [app output_text]; try assumption;
    [reflexivity|]. now rewrite IH, app_assoc.
Qed.

Lemma stream_events_plain (chunks : list bytes) :
  no_clear (stream_events chunks) = true /\
  output_text (stream_events chunks) = concat (map Utf8.decode chunks) /\
  tabs_of (stream_events chunks) = [].
Proof.
  induction chunks as [|ch rest (IH1 & IH2 & IH3)]; [now repeat split|].
  cbn [stream_events map no_clear forallb is_clear negb andb output_text tabs_of concat].
  repeat split; try assumption. unfold stream_events in IH2. now rewrite IH2.
Qed.

Lemma welcome_events_plain (m : option pystr) :
  no_clear (welcome_events m) = true /\ tabs_of (welcome_events m) = [] /\
  output_text (welcome_events m)
  = match m with
    | Some (ch :: msg) => lit "[" ++ (ch :: msg) ++ lit "]" ++ [LF]
    | _ => []
    end.
Proof.
  destruct m as [[|ch msg]|]; cbn [welcome_events output_text]; repeat split.
  now rewrite app_nil_r.
Qed.

Lemma stdin_events_plain (stdin : option bytes) (c : Child) :
  no_clear (stdin_events stdin c) = true /\ tabs_of (stdin_events stdin c) = [] /\
  output_text (stdin_events stdin c)
  = match stdin, stdin_error c with
    | Some _, Some e => lit "[error writing to stdin: " ++ e ++ lit "]" ++ [LF]
    | _, _ => []
    end.
Proof.
  unfold stdin_events. destruct stdin as [data|]; [|now repeat split].
  destruct (stdin_error c) as [e|]; [|now repeat split].
  unfold stdin_failure_event. cbn [output_text]. repeat split.
  now rewrite app_nil_r.
Qed.

Lemma artifact_events_plain (url found : option pystr) :
  no_clear (artifact_events url found) = true /\
  output_text (artifact_events url found) = [].
Proof. destruct found, url; now split. Qed.

Lemma tabs_of_artifact (url : option pystr) (end_file : option pystr) (fs : list pystr) :
  tabs_of (artifact_events url (artifact_found end_file fs))
  = match artifact_found end_file fs, url with
    | Some path, Some base => [base ++ path]
    | _, _ => []
    end.
Proof.
  unfold artifact_found. destruct end_file as [[|ch path]|]; cbn [truthy]; try reflexivity;
    try (destruct url; reflexivity).
  destruct (in_dec pystr_eq_dec (ch :: path) fs); [|now destruct url].
  destruct url as [base|]; [|reflexivity]. cbn [artifact_events].
  destruct base; reflexivity.
Qed.

(** X15 (lines 156-159, 179-192 with 288-366): what a page that was
    connected before a job shows after it, when the command starts and no
    read and no wait fails.  Whatever the console held, it holds the welcome
    line if there is one, the report of a failed write to stdin if there was
    one, the decoded chunks one after the other, and the exit status.  When
    no chunk boundary splits a sequence the chunks read as the decoded
    output of the command, and when the output is ASCII they are the output
    itself, however the pipe cut it.  The page has opened one more tab, for
    the artifact, exactly when the artifact event was sent. *)
Theorem page_after_job (h : Host) (j : Job) (w : World) (c : Child) (pg : Page) :
  process_lock w = false -> busy w = false -> threads w = [] ->
  spawn h (command j) = inr c ->
  all_ready (delivery c) = true ->
  wait_error c = None ->
  let pg' := deliver (events_since w (run_job h j w)) pg in
  let welcome := match welcome_msg j with
                 | Some (ch :: msg) => lit "[" ++ (ch :: msg) ++ lit "]" ++ [LF]
                 | _ => []
                 end in
  let failure := match stdin_data j, stdin_error c with
                 | Some _, Some e => lit "[error writing to stdin: " ++ e ++ lit "]" ++ [LF]
                 | _, _ => []
                 end in
  let status := [LF] ++ lit "[process exited with code " ++ str_of_int (exit_status c)
                     ++ lit "]" ++ [LF] in
  console_text pg' =
    welcome ++ failure ++ concat (map Utf8.decode (chunks_of c)) ++ status /\
  (Utf8.clean_cuts (chunks_of c) = true ->
   console_text pg' = welcome ++ failure ++ Utf8.decode (output c) ++ status) /\
  (all_ascii (output c) = true ->
   console_text pg' = welcome ++ failure ++ map Byte.to_N (output c) ++ status) /\
  opened pg' =
    opened pg ++ match artifact_found (end_file j) (files w ++ creates c),
                       getenv h "END_URL" with
                 | Some path, Some base => [base ++ path]
                 | _, _ => []
                 end.
Proof.
  intros Hlock Hbusy Hthreads Hspawn Hready Hwait pg' welcome failure status.
  subst pg'. rewrite (job_events h j w c Hlock Hbusy Hthreads Hspawn Hready Hwait).
  destruct (welcome_events_plain (welcome_msg j)) as (Hw1 & Hw2 & Hw3).
  destruct (stdin_events_plain (stdin_data j) c) as (Hs1 & Hs2 & Hs3).
  destruct (stream_events_plain (chunks_of c)) as (Hc1 & Hc2 & Hc3).
  destruct (artifact_events_plain (TARGET_URL h)
              (artifact_found (end_file j) (files w ++ creates c))) as (Ha1 & Ha2).
  destruct (pipe_drained 4096 ltac:(lia) (S (List.length (output c)))
                         (output c) (delivery c) Hready ltac:(lia))
    as (_ & Hconcat & _).
  fold (chunks_of c) in Hconcat.
  set (after := welcome_events (welcome_msg j) ++ stdin_events (stdin_data j) c
                  ++ stream_events (chunks_of c)
                  ++ exit_event (exit_status c)
                  :: artifact_events (TARGET_URL h)
                       (artifact_found (end_file j) (files w ++ creates c))).
  assert (Hno : no_clear after = true).
  { subst after. rewrite !no_clear_app, Hw1, Hs1, Hc1.
    change (exit_event ?x :: ?l) with ([exit_event x] ++ l).
    now rewrite no_clear_app, Ha1. }
  assert (Htext : console_text (deliver (console_clear :: after) pg)
                  = welcome ++ failure ++ concat (map Utf8.decode (chunks_of c)) ++ status).
  { change (console_clear :: after) with ([] ++ console_clear :: after).
    rewrite (deliver_after_clear [] after pg Hno). subst after.
    rewrite !output_text_app, Hw3, Hs3, Hc2.
    change (exit_event ?x :: ?l) with ([exit_event x] ++ l).
    rewrite output_text_app, Ha2. unfold exit_event. cbn [output_text].
    now rewrite !app_nil_r. }
  split; [exact Htext|]. split; [|split].
  - intros Hclean. rewrite Htext, (Utf8Facts.decode_chunks_clean _ Hclean).
    now rewrite Hconcat.
  - intros Hascii. rewrite Htext, Utf8Sizes.decode_chunks_ascii; rewrite Hconcat;
      [reflexivity | exact Hascii].
  - rewrite deliver_opened. f_equal. cbn [tabs_of]. subst after.
    assert (Htabs : forall a b, tabs_of (a ++ b) = tabs_of a ++ tabs_of b).
    { induction a as [|[|data|[|ch url]] a IH]; intros b; cbn [app tabs_of];
        try apply IH; [reflexivity|]. now rewrite IH. }
    rewrite !Htabs, Hw2, Hs2, Hc3. cbn [app].
    unfold exit_event at 1. cbn [tabs_of]. apply tabs_of_artifact.
Qed.

(** X15 at the scan of the office, on a page that held an old line. *)
Lemma page_after_office_scan :
  let pg := {| console_text := lit "old"; opened := [] |} in
  let pg' := deliver (events_since boot (run_job office scan_request boot)) pg in
  let welcome := match welcome_msg scan_request with
                 | Some (ch :: msg) => lit "[" ++ (ch :: msg) ++ lit "]" ++ [LF]
                 | _ => []
                 end in
  let failure := match stdin_data scan_request, stdin_error scanner with
                 | Some _, Some e => lit "[error writing to stdin: " ++ e ++ lit "]" ++ [LF]
                 | _, _ => []
                 end in
  let status := [LF] ++ lit "[process exited with code "
                     ++ str_of_int (exit_status scanner) ++ lit "]" ++ [LF] in
  console_text pg' =
    welcome ++ failure ++ concat (map Utf8.decode (chunks_of scanner)) ++ status /\
  (Utf8.clean_cuts (chunks_of scanner) = true ->
   console_text pg' = welcome ++ failure ++ Utf8.decode (output scanner) ++ status) /\
  (all_ascii (output scanner) = true ->
   console_text pg' = welcome ++ failure ++ map Byte.to_N (output scanner) ++ status) /\
  opened pg' =
    opened pg ++ match artifact_found (end_file scan_request)
                                      (files boot ++ creates scanner),
                       getenv office "END_URL" with
                 | Some path, Some base => [base ++ path]
                 | _, _ => []
                 end.
Proof.
  exact (page_after_job office scan_request boot scanner
           {| console_text := lit "old"; opened := [] |}
           eq_refl eq_refl eq_refl eq_refl eq_refl eq_refl).
Defined.

(** * Characters the decoder passes over *)

Module Base64Junk.
Import Base64 Base64Facts.

Lemma insignificant_skipped (ch : N) :
  (ch < 128)%N -> significant ch = false ->
  (Byte.to_N (as_byte ch) =? PAD)%N = false /\ value (as_byte ch) = None.
Proof.
  intros Hlt Hjunk.
  assert (Hb := below_checked
    (fun ch => significant ch
               || (negb (Byte.to_N (as_byte ch) =? PAD)%N
                   && match value (as_byte ch) with None => true | Some _ => false end))
    128 ltac:(vm_compute; reflexivity) ch Hlt).
  cbv beta in Hb. rewrite Hjunk in Hb. cbn [orb] in Hb.
  apply andb_true_iff in Hb. destruct Hb as [Hp Hv].
  split; [now apply negb_true_iff|]. now destruct (value (as_byte ch)).
Qed.

Lemma ascii_bytes_ascii (text : pystr) :
  ascii_text text = true -> ascii_bytes text = Some (map as_byte text).
Proof.
  induction text as [|ch text IH]; intros H; [reflexivity|].
  unfold ascii_text in H. cbn [forallb] in H. apply andb_prop in H.
  destruct H as [Hch Htext]. cbn [ascii_bytes map]. now rewrite Hch, IH.
Qed.

Lemma ascii_text_filter (f : N -> bool) (text : pystr) :
  ascii_text text = true -> ascii_text (filter f text) = true.
Proof.
  unfold ascii_text. rewrite !forallb_forall. intros H ch Hin.
  apply filter_In in Hin. now apply H.
Qed.

Lemma a2b_loop_junk (text : pystr) :
  ascii_text text = true ->
  forall quad_pos leftchar pads out,
    a2b_loop (map as_byte (filter significant text)) quad_pos leftchar pads out
    = a2b_loop (map as_byte text) quad_pos leftchar pads out.
Proof.
  induction text as [|ch text IH]; intros H quad_pos leftchar pads out; [reflexivity|].
  unfold ascii_text in H. cbn [forallb] in H. apply andb_prop in H.
  destruct H as [Hch Htext]. apply N.ltb_lt in Hch. specialize (IH Htext).
  cbn [filter]. destruct (significant ch) eqn:Hsig.
  - cbn [map a2b_loop].
    destruct (Byte.to_N (as_byte ch) =? PAD)%N; [|destruct (value (as_byte ch))];
      destruct quad_pos as [|[|[|?]]]; cbn [Nat.leb Nat.add];
      repeat match goal with |- context [if ?c then _ else _] => destruct c end;
      rewrite ?IH; reflexivity.
  - destruct (insignificant_skipped ch Hch Hsig) as [Hp Hv].
    cbn [map a2b_loop]. rewrite Hp, Hv. apply IH.
Qed.

Lemma b64decode_junk (text : pystr) :
  ascii_text text = true ->
  b64decode (VStr (filter significant text)) = b64decode (VStr text).
Proof.
  intros H. unfold b64decode, a2b_base64.
  rewrite (ascii_bytes_ascii text H),
          (ascii_bytes_ascii _ (ascii_text_filter significant text H)).
  now apply a2b_loop_junk.
Qed.

Lemma b64decode_not_ascii (text : pystr) :
  ascii_text text = false ->
  b64decode (VStr text)
  = inl (lit "string argument should contain only ASCII characters").
Proof.
  intros H. unfold b64decode.
  assert (Hnone : ascii_bytes text = None).
  { induction text as [|ch text IH]; [discriminate|].
    unfold ascii_text in H. cbn [forallb] in H. cbn [ascii_bytes].
    destruct (ch <? 128)%N; [|reflexivity]. now rewrite IH. }
  now rewrite Hnone.
Qed.

End Base64Junk.

Lemma handle_print_by_content
    (h : Host) (d d' : list (pystr * pyval)) (w : World) :
  Base64.b64decode (content_field d) = Base64.b64decode (content_field d') ->
  handle_print h (VDict d) w = handle_print h (VDict d') w.
Proof.
  intros H. destruct (Base64.b64decode (content_field d')) as [e|content] eqn:Hd'.
  - now rewrite (handle_print_undecodable h d e w H),
                (handle_print_undecodable h d' e w Hd').
  - now rewrite (handle_print_decoded h d content w H),
                (handle_print_decoded h d' content w Hd').
Qed.

(** X16 (line 390): the handler decodes leniently.  In a text of ASCII
    characters, every character that is neither a symbol of the alphabet nor
    the padding is passed over: the handler does with the text what it does
    with the text without these characters, so line breaks and blanks in an
    upload change nothing.  A text with a character that is not ASCII is
    rejected as a whole. *)
Theorem junk_in_upload_ignored
    (h : Host) (d : list (pystr * pyval)) (text : pystr) (w : World) :
  lookup (lit "content_b64") d = Some (VStr text) ->
  (ascii_text text = true ->
   handle_print h (VDict d) w =
   handle_print h (VDict [(lit "content_b64", VStr (filter significant text))]) w) /\
  (ascii_text text = false ->
   handle_print h (VDict d) w =
   (Returns tt,
    set_emitted
      (emitted w ++
       [console_output
          (lit "[failed to decode uploaded file: "
             ++ lit "string argument should contain only ASCII characters"
             ++ lit "]" ++ [LF])])
      w)).
Proof.
  intros Hkey.
  assert (Hfield : content_field d = VStr text).
  { unfold content_field. now rewrite Hkey. }
  split; intros Hascii.
  - apply handle_print_by_content. rewrite Hfield.
    change (content_field [(lit "content_b64", VStr (filter significant text))])
      with (VStr (filter significant text)).
    symmetry. now apply Base64Junk.b64decode_junk.
  - apply handle_print_undecodable. rewrite Hfield.
    now apply Base64Junk.b64decode_not_ascii.
Qed.

(** X16 at an upload with a line break in it. *)
Lemma upload_with_line_break :
  (ascii_text (lit "JVBE" ++ [LF] ++ lit "Rg==") = true ->
   handle_print office
     (VDict [(lit "content_b64", VStr (lit "JVBE" ++ [LF] ++ lit "Rg=="))]) boot =
   handle_print office
     (VDict [(lit "content_b64",
              VStr (filter significant (lit "JVBE" ++ [LF] ++ lit "Rg==")))]) boot) /\
  (ascii_text (lit "JVBE" ++ [LF] ++ lit "Rg==") = false ->
   handle_print office
     (VDict [(lit "content_b64", VStr (lit "JVBE" ++ [LF] ++ lit "Rg=="))]) boot =
   (Returns tt,
    set_emitted
      (emitted boot ++
       [console_output
          (lit "[failed to decode uploaded file: "
             ++ lit "string argument should contain only ASCII characters"
             ++ lit "]" ++ [LF])])
      boot)).
Proof.
  exact (junk_in_upload_ignored office
           [(lit "content_b64", VStr (lit "JVBE" ++ [LF] ++ lit "Rg=="))]
           (lit "JVBE" ++ [LF] ++ lit "Rg==") boot eq_refl).
Defined.

(** * Workers and their children, in every state *)





(** * Workers and the broadcast *)

Lemma set_emitted_same (w : World) : set_emitted (emitted w) w = w.
Proof. unfold_world. symmetry. apply world_eta. Qed.

Lemma set_emitted_twice (a b : list Event) (w : World) :
  set_emitted a (set_emitted b w) = set_emitted a w.
Proof. reflexivity. Qed.

Lemma blind_appends {A : Type} (m : Py A) (w : World) (evs : list Event) :
  (forall es, m (set_emitted es w)
              = (fst (m w), set_emitted (es ++ evs) (snd (m w)))) ->
  emitted (snd (m w)) = emitted w ++ evs.
Proof.
  intros H. specialize (H (emitted w)). rewrite set_emitted_same in H.
  now rewrite H at 1.
Qed.

(** A computation that neither reads nor writes the broadcast. *)
Lemma blind_silent {A : Type} (m : Py A) :
  (forall w es, m (set_emitted es w) = (fst (m w), set_emitted es (snd (m w)))) ->
  emitted_blind m.
Proof. intros H w. exists []. intros es. now rewrite app_nil_r. Qed.

Lemma blind_bind {A B : Type} (m : Py A) (k : A -> Py B) :
  emitted_blind m -> (forall a, emitted_blind (k a)) -> emitted_blind (bind m k).
Proof.
  intros Hm Hk w. destruct (Hm w) as [evs1 H1].
  destruct (m w) as [[a|e|] w1] eqn:Hmw; cbn [fst snd] in H1.
  - destruct (Hk a w1) as [evs2 H2]. exists (evs1 ++ evs2). intros es.
    unfold bind. rewrite H1, Hmw, H2. now rewrite app_assoc.
  - exists evs1. intros es. unfold bind. now rewrite H1, Hmw.
  - exists evs1. intros es. unfold bind. now rewrite H1, Hmw.
Qed.

Lemma blind_try_except {A : Type} (body : Py A) (handler : exn -> Py A) :
  emitted_blind body -> (forall e, emitted_blind (handler e)) ->
  emitted_blind (try_except body handler).
Proof.
  intros Hm Hk w. destruct (Hm w) as [evs1 H1].
  destruct (body w) as [[a|e|] w1] eqn:Hmw; cbn [fst snd] in H1.
  - exists evs1. intros es. unfold try_except. now rewrite H1, Hmw.
  - destruct (Hk e w1) as [evs2 H2]. exists (evs1 ++ evs2). intros es.
    unfold try_except. rewrite H1, Hmw, H2. now rewrite app_assoc.
  - exists evs1. intros es. unfold try_except. now rewrite H1, Hmw.
Qed.

Lemma blind_try_finally {A : Type} (body : Py A) (final : Py unit) :
  emitted_blind body -> emitted_blind final ->
  emitted_blind (try_finally body final).
Proof.
  intros Hm Hf w. destruct (Hm w) as [evs1 H1].
  destruct (body w) as [[a|e|] w1] eqn:Hmw; cbn [fst snd] in H1.
  - destruct (Hf w1) as [evs2 H2]. exists (evs1 ++ evs2). intros es.
    unfold try_finally. rewrite H1, Hmw, H2.
    destruct (final w1) as [[[]|e'|] w2]; cbn [fst snd]; now rewrite app_assoc.
  - destruct (Hf w1) as [evs2 H2]. exists (evs1 ++ evs2). intros es.
    unfold try_finally. rewrite H1, Hmw, H2.
    destruct (final w1) as [[[]|e'|] w2]; cbn [fst snd]; now rewrite app_assoc.
  - exists evs1. intros es. unfold try_finally. now rewrite H1, Hmw.
Qed.

Lemma blind_ret {A : Type} (a : A) : emitted_blind (ret a).
Proof. now apply blind_silent. Qed.

Lemma blind_raise {A : Type} (e : exn) : emitted_blind (@raise A e).
Proof. now apply blind_silent. Qed.

Lemma blind_emit (ev : Event) : emitted_blind (emit ev).
Proof. intros w. exists [ev]. intros es. reflexivity. Qed.

Lemma blind_attribute (proc : option Popen) (name : string) :
  emitted_blind (attribute proc name).
Proof. destruct proc; [apply blind_ret | apply blind_raise]. Qed.

Lemma blind_stdin_write (p : Popen) (data : bytes) : emitted_blind (stdin_write p data).
Proof.
  apply blind_silent. intros w es. unfold stdin_write. cbn [set_emitted popens].
  destruct (nth_error (popens w) p) as [o|]; [|reflexivity].
  destruct (stdin_write_error (child o)); reflexivity.
Qed.

Lemma blind_stdin_close (p : Popen) : emitted_blind (stdin_close p).
Proof.
  apply blind_silent. intros w es. unfold stdin_close. cbn [set_emitted popens].
  destruct (nth_error (popens w) p) as [o|]; [|reflexivity].
  destruct (stdin_close_error (child o)); reflexivity.
Qed.

Lemma blind_stdout_read (p : Popen) (size : nat) : emitted_blind (stdout_read p size).
Proof.
  apply blind_silent. intros w es. unfold stdout_read. cbn [set_emitted popens].
  destruct (nth_error (popens w) p) as [o|]; [|reflexivity].
  destruct (reads o) as [|[more|e] rest]; reflexivity.
Qed.

Lemma blind_read_loop (fuel : nat) (p : Popen) : emitted_blind (read_loop fuel p).
Proof.
  induction fuel as [|fuel IH]; cbn [read_loop].
  - now apply blind_silent.
  - apply blind_bind; [apply blind_stdout_read|]. intros [|b chunk]; [apply blind_ret|].
    apply blind_bind; [apply blind_emit|]. intros _. exact IH.
Qed.

Lemma blind_drain (p : Popen) : emitted_blind (drain p).
Proof.
  intros w. unfold drain. cbn [set_emitted popens].
  destruct (nth_error (popens w) p) as [o|]; apply blind_read_loop.
Qed.

Lemma blind_wait (p : Popen) : emitted_blind (wait p).
Proof.
  apply blind_silent. intros w es. unfold wait, child_exits. cbn [set_emitted popens].
  destruct (nth_error (popens w) p) as [o|]; [|reflexivity].
  destruct (wait_error (child o)); [reflexivity|].
  destruct (returncode o); reflexivity.
Qed.

Lemma blind_os_path_exists (path : pystr) : emitted_blind (os_path_exists path).
Proof. now apply blind_silent. Qed.

Lemma blind_str_add (a : option pystr) (b : pystr) : emitted_blind (str_add a b).
Proof. destruct a; [apply blind_ret | apply blind_raise]. Qed.

Lemma blind_delayed_remove (path : pystr) (delay : N) :
  emitted_blind (delayed_remove path delay).
Proof. now apply blind_silent. Qed.

Lemma blind_acquire : emitted_blind acquire.
Proof.
  apply blind_silent. intros w es. unfold acquire. cbn [set_emitted process_lock].
  now destruct (process_lock w).
Qed.

Lemma blind_release : emitted_blind release.
Proof.
  apply blind_silent. intros w es. unfold release. cbn [set_emitted process_lock].
  now destruct (process_lock w).
Qed.

Lemma blind_set_current_process (v : option Popen) :
  emitted_blind (set_current_process v).
Proof.
  apply blind_silent. intros w es. unfold set_current_process.
  cbn [set_emitted process_lock current_process popens].
  unfold active, busy, polled. cbn [set_emitted current_process popens].
  reflexivity.
Qed.

Create HintDb blind.
#[local] Hint Resolve blind_ret blind_raise blind_emit blind_attribute
  blind_stdin_write blind_stdin_close blind_drain blind_wait blind_os_path_exists
  blind_str_add blind_delayed_remove blind_acquire blind_release
  blind_set_current_process : blind.

Ltac blind_steps :=
  repeat first
    [ solve [auto with blind]
    | match goal with
      | |- emitted_blind (bind _ _) => apply blind_bind; [|intros ?]
      | |- emitted_blind (try_except _ _) => apply blind_try_except; [|intros ?]
      | |- emitted_blind (try_finally _ _) => apply blind_try_finally
      | |- emitted_blind (match ?x with _ => _ end) => destruct x
      end ].

(** The worker does not look at what has been broadcast. *)
Lemma stream_output_blind
    (h : Host) (proc : option Popen) (stdin : option bytes) (file : option pystr) :
  emitted_blind (stream_output h proc stdin file).
Proof. unfold stream_output, with_lock. blind_steps. Qed.

Lemma run_worker_blind (h : Host) : emitted_blind (run_worker h).
Proof.
  intros w. unfold run_worker. cbn [set_emitted threads].
  destruct (threads w) as [|t rest].
  - exists []. intros es. now rewrite app_nil_r.
  - destruct (stream_output_blind h (t_proc t) (t_stdin t) (t_end_file t)
                (set_threads rest w)) as [evs H].
    exists evs. intros es. exact (H es).
Qed.

(** X18 (lines 294-300 with 327-362): a request that is turned away does
    not disturb the job that runs.  The worker that runs after the request
    ends as it would have ended without it and emits the same events, and
    the children, the files, the timers and the slot end up the same; the
    one difference is the line of the refusal in the broadcast, before the
    worker's events. *)
Theorem busy_request_leaves_job_alone (h : Host) (j : Job) (w : World) :
  process_lock w = false -> busy w = true ->
  let rejected := snd (submit h j w) in
  let r := run_worker h w in
  let r' := run_worker h rejected in
  fst r' = fst r /\
  events_since rejected (snd r') = events_since w (snd r) /\
  emitted (snd r') = emitted w ++ busy_event :: events_since w (snd r) /\
  popens (snd r') = popens (snd r) /\
  files (snd r') = files (snd r) /\
  timers (snd r') = timers (snd r) /\
  threads (snd r') = threads (snd r) /\
  current_process (snd r') = current_process (snd r) /\
  process_lock (snd r') = process_lock (snd r) /\
  slot_log (snd r') = slot_log (snd r).
Proof.
  intros Hlock Hbusy rejected r r'. subst rejected r r'.
  rewrite (submit_busy h j w Hlock Hbusy). cbn [snd].
  destruct (run_worker_blind h w) as [evs H].
  pose proof (blind_appends _ _ _ H) as Happ.
  rewrite (H (emitted w ++ [busy_event])). cbn [fst snd].
  rewrite (events_since_app w _ evs Happ).
  split; [reflexivity|]. split.
  - apply events_since_app. reflexivity.
  - cbn [set_emitted emitted popens files timers threads current_process process_lock
         slot_log].
    rewrite <- app_assoc. now repeat split.
Qed.

(** X18 at a print request that arrives while the scanner runs. *)
Lemma scan_undisturbed_by_print :
  let w := run office [Submit scan_request] boot in
  let rejected := snd (submit office (print_request []) w) in
  let r := run_worker office w in
  let r' := run_worker office rejected in
  fst r' = fst r /\
  events_since rejected (snd r') = events_since w (snd r) /\
  emitted (snd r') = emitted w ++ busy_event :: events_since w (snd r) /\
  popens (snd r') = popens (snd r) /\
  files (snd r') = files (snd r) /\
  timers (snd r') = timers (snd r) /\
  threads (snd r') = threads (snd r) /\
  current_process (snd r') = current_process (snd r) /\
  process_lock (snd r') = process_lock (snd r) /\
  slot_log (snd r') = slot_log (snd r).
Proof.
  exact (busy_request_leaves_job_alone office (print_request [])
           (run office [Submit scan_request] boot) eq_refl eq_refl).
Defined.

(** * An artifact without END_URL *)

(** X19 (lines 21, 355-357): when the host does not set END_URL, an artifact
    that exists is neither announced nor reclaimed.  The worker emits the
    exit status and then ends with the TypeError of [TARGET_URL + end_file];
    no artifact event is sent and no timer is started, so the file stays
    where it is, also when the timers that are pending have fired; the slot
    is released all the same. *)
Theorem artifact_kept_without_END_URL
    (h : Host) (j : Job) (w : World) (c : Child) (path : pystr) :
  process_lock w = false -> busy w = false -> threads w = [] ->
  timers w = [] ->
  spawn h (command j) = inr c ->
  all_ready (delivery c) = true ->
  wait_error c = None ->
  end_file j = Some path -> path <> [] ->
  In path (files w ++ creates c) ->
  getenv h "END_URL" = None ->
  let r := run_worker h (snd (submit h j w)) in
  let w' := snd r in
  fst r = Raises (lit "unsupported operand type(s) for +: 'NoneType' and 'str'") /\
  events_since w w' =
    console_clear
      :: welcome_events (welcome_msg j)
      ++ stdin_events (stdin_data j) c
      ++ stream_events (chunks_of c)
      ++ [exit_event (exit_status c)] /\
  timers w' = [] /\
  In path (files w') /\
  (forall n, In path (files (run h (repeat Reclaim n) w'))) /\
  current_process w' = None /\
  process_lock w' = false.
Proof.
  intros Hlock Hbusy Hthreads Htimers Hspawn Hready Hwait Hfile Hne Hin Hurl r w'.
  subst w' r.
  destruct (job_worker_run h j w c Hlock Hbusy Hthreads Hspawn Hready Hwait)
    as [held Hrun].
  rewrite Hrun. cbn [fst snd timers files current_process process_lock].
  rewrite Hfile, (artifact_found_present path _ Hne Hin), Htimers.
  unfold TARGET_URL. rewrite Hurl.
  cbn [artifact_outcome artifact_events artifact_timers app].
  split; [reflexivity|]. split; [now apply events_since_app|].
  split; [reflexivity|]. split; [exact Hin|]. split; [|now split].
  intros n. induction n as [|n IH]; [exact Hin|].
  cbn [repeat run fold_left perform]. unfold timer_fires at 1. cbn [timers snd].
  exact IH.
Qed.

(** X19 at a scan on a host without END_URL. *)
Lemma scan_pdf_kept_without_END_URL :
  let h := sample_host None None in
  let r := run_worker h (snd (submit h scan_job boot)) in
  let w' := snd r in
  fst r = Raises (lit "unsupported operand type(s) for +: 'NoneType' and 'str'") /\
  events_since boot w' =
    console_clear
      :: welcome_events (welcome_msg scan_job)
      ++ stdin_events (stdin_data scan_job) scanner
      ++ stream_events (chunks_of scanner)
      ++ [exit_event (exit_status scanner)] /\
  timers w' = [] /\
  In (lit "scan.pdf") (files w') /\
  (forall n, In (lit "scan.pdf") (files (run h (repeat Reclaim n) w'))) /\
  current_process w' = None /\
  process_lock w' = false.
Proof.
  exact (artifact_kept_without_END_URL (sample_host None None) scan_job boot scanner
           (lit "scan.pdf")
           eq_refl eq_refl eq_refl eq_refl eq_refl eq_refl eq_refl eq_refl
           ltac:(discriminate) (or_introl eq_refl) eq_refl).
Defined.
